(** * SampleSort: classification, de-duplication, placement and archive expansion

    A shallow embedding of the organizer pipeline of SampleSort
    (organizer.js, bpmutils.js, extractZip.js, extractRar.js) together with
    the properties the design document states about it.

    Conventions of the embedding.
    - JavaScript strings are [string]s over 8-bit characters; letter case and
      white space are the ASCII ones.
    - An absolute, normalised POSIX path is the list of its segments
      ([path]); the empty list is the root directory.  The functions of
      Node's [path] module are modelled on that representation, with the
      process working directory taken to be the root.  Relative paths (the
      category part of a target) are normalised segment lists too.
    - The file system is a directory tree whose entries are kept in
      [readdir] order; every [fs] call of the source is a function on trees
      that either succeeds or throws an [errno].  There are no links, no
      permissions and no failing disks: a call fails when the shape of the
      tree makes it fail, or when [rename] crosses devices.
    - Code that logs, mutates the de-duplication index or touches the file
      system runs in a state-and-exception monad over a [world]; an [await]
      of real input or output is a point where a cancel request may arrive.
    - The libraries the source calls for hashing, durations and archives
      are collaborators the pipeline is parametrised by.
    - The three loops of the source that are not bounded by a list
      ([uniqueDestPath], [firstNonBpmAncestorDir], [flattenSingleFolders])
      run on a fuel; the properties show that the fuel given suffices. *)

From Stdlib Require Import Ascii String QArith.
From stdpp Require Import base option list strings pretty gmap.

Local Open Scope stdpp_scope.

(** ** JavaScript string primitives *)

Module Js.

Definition isUpper (c : ascii) : bool :=
  let n := nat_of_ascii c in (65 <=? n)%nat && (n <=? 90)%nat.

Definition lowerChar (c : ascii) : ascii :=
  if isUpper c then ascii_of_nat (nat_of_ascii c + 32) else c.

Fixpoint smap (f : ascii → ascii) (s : string) : string :=
  match s with
  | EmptyString => EmptyString
  | String c r => String (f c) (smap f r)
  end.

Fixpoint sfilter (P : ascii → bool) (s : string) : string :=
  match s with
  | EmptyString => EmptyString
  | String c r => if P c then String c (sfilter P r) else sfilter P r
  end.

(** [s.toLowerCase()] *)
Definition toLowerCase (s : string) : string := smap lowerChar s.

Definition isLower (c : ascii) : bool :=
  let n := nat_of_ascii c in (97 <=? n)%nat && (n <=? 122)%nat.

Definition upperChar (c : ascii) : ascii :=
  if isLower c then ascii_of_nat (nat_of_ascii c - 32) else c.

(** [s.toUpperCase()] *)
Definition toUpperCase (s : string) : string := smap upperChar s.

(** the character class [\s] *)
Definition isSpace (c : ascii) : bool := Ascii.is_space c.

(** the character class [\d] *)
Definition isDigit (c : ascii) : bool :=
  let n := nat_of_ascii c in (48 <=? n)%nat && (n <=? 57)%nat.

Fixpoint trimStart (s : string) : string :=
  match s with
  | EmptyString => EmptyString
  | String c r => if isSpace c then trimStart r else s
  end.

Definition trimEnd (s : string) : string :=
  String.rev (trimStart (String.rev s)).

(** [s.trim()] *)
Definition trim (s : string) : string := trimEnd (trimStart s).

(** [s.startsWith(p)] *)
Fixpoint startsWith (s p : string) : bool :=
  match p, s with
  | EmptyString, _ => true
  | String a p', String b s' => bool_decide (a = b) && startsWith s' p'
  | String _ _, EmptyString => false
  end.

(** [s.endsWith(p)] *)
Definition endsWith (s p : string) : bool :=
  startsWith (String.rev s) (String.rev p).

(** [s.includes(k)] *)
Fixpoint includes (s k : string) : bool :=
  startsWith s k ||
  match s with
  | EmptyString => false
  | String _ r => includes r k
  end.

(** [s.replace(/[P]+/g, " ")]: every maximal run of characters of the class
    [P] becomes one blank.  [inrun] tells that the previous character was
    in the class. *)
Fixpoint squeeze (P : ascii → bool) (inrun : bool) (s : string) : string :=
  match s with
  | EmptyString => EmptyString
  | String c r =>
      if P c then
        if inrun then squeeze P true r else String " " (squeeze P true r)
      else String c (squeeze P false r)
  end.

(** [s.split("/")] *)
Fixpoint split_slash (s : string) : list string :=
  match s with
  | EmptyString => [EmptyString]
  | String c r =>
      if bool_decide (c = "/"%char) then EmptyString :: split_slash r
      else match split_slash r with
           | h :: t => String c h :: t
           | [] => [String c EmptyString]
           end
  end.

(** JavaScript truthiness of a string *)
Definition truthy (s : string) : bool := negb (bool_decide (s = "")).

(** [a || b] on strings *)
Definition orElse (a b : string) : string := if truthy a then a else b.

End Js.

(** ** Keyword rules (organizer.js) *)

(** One entry of the flattened category list built by
    [flattenMainCategories]. *)
Record ent := Ent {
  main : string;
  category : string;
  keywords : list string;
  matchAll : bool
}.

(** The grouped configuration the entries come from. *)
Record categoryCfg := CategoryCfg {
  cat_name : string;
  cat_keywords : list string;
  cat_matchAll : bool
}.

Record mainCategoryCfg := MainCategoryCfg {
  mc_name : string;
  mc_categories : list categoryCfg
}.

(** [normalizeKeywords]: trim every keyword, drop the empty ones. *)
Definition normalizeKeywords (l : list string) : list string :=
  filter (λ k, Js.truthy k = true) (map Js.trim l).

(** [flattenMainCategories]: the grouped structure when it is present and
    non-empty, else the legacy [categories] object (whose entries carry no
    [matchAll]). *)
Definition flattenMainCategories
    (mainCategories : list mainCategoryCfg)
    (categories : list (string * list string)) : list ent :=
  match mainCategories with
  | _ :: _ =>
      concat (map (λ m,
        map (λ c, Ent (mc_name m) (cat_name c)
                      (normalizeKeywords (cat_keywords c)) (cat_matchAll c))
            (mc_categories m)) mainCategories)
  | [] =>
      map (λ '(cat, kws), Ent "" cat (normalizeKeywords kws) false) categories
  end.

(** [normalizeString]: lower case, runs of [-] and [_] to one blank, runs of
    white space to one blank, trimmed. *)
Definition isDashOrUnderscore (c : ascii) : bool :=
  bool_decide (c = "-"%char) || bool_decide (c = "_"%char).

Definition normalizeString (s : string) : string :=
  Js.trim
    (Js.squeeze Js.isSpace false
       (Js.squeeze isDashOrUnderscore false (Js.toLowerCase s))).

(** [matchesKeywords(ent, hay)] *)
Definition matchesKeywords (e : ent) (hay : string) : bool :=
  let ks := filter (λ k, Js.truthy k = true) (map normalizeString (keywords e)) in
  match ks with
  | [] => false
  | _ =>
      let H := normalizeString hay in
      if matchAll e then forallb (λ k, Js.includes H k) ks
      else existsb (λ k, Js.includes H k) ks
  end.

(** The scan [for (const ent of spec) if (matchesKeywords(ent, hay)) { matched = ent; break; }] *)
Fixpoint firstMatch (spec : list ent) (hay : string) : option ent :=
  match spec with
  | [] => None
  | e :: rest => if matchesKeywords e hay then Some e else firstMatch rest hay
  end.

(** ** Paths (Node's [path] module, POSIX flavour) *)

(** An absolute normalised path, as the list of its segments. *)
Definition path := list string.

Module Path.

(** One step of normalisation: the effect of appending the segment [seg] to
    the absolute path [p]. *)
Definition push (p : path) (seg : string) : path :=
  if decide (seg = "") then p
  else if decide (seg = ".") then p
  else if decide (seg = "..") then removelast p
  else p ++ [seg].

(** [path.join(p, s)] for an absolute [p]. *)
Definition join (p : path) (s : string) : path :=
  fold_left push (Js.split_slash s) p.

(** [path.resolve(p, s)] for an absolute [p]: an absolute [s] restarts from
    the root. *)
Definition resolve (p : path) (s : string) : path :=
  if Js.startsWith s "/" then join [] s else join p s.

(** [path.resolve(s)], the working directory being the root. *)
Definition abs (s : string) : path := join [] s.

(** [path.dirname(p)] *)
Definition dirname (p : path) : path := removelast p.

(** [path.basename(p)] *)
Definition basename (p : path) : string := List.last p "".

(** The string Node prints for the path. *)
Definition show (p : path) : string :=
  match p with
  | [] => "/"
  | _ => fold_right (λ seg acc, "/" +:+ seg +:+ acc) "" p
  end.

(** [path.basename(s)] of a path given as a string: its last non-empty
    segment. *)
Definition basenameStr (s : string) : string :=
  List.last (filter (λ x, Js.truthy x = true) (Js.split_slash s)) "".

(** Index of the last dot of a name. *)
Fixpoint lastDot (s : string) : option nat :=
  match s with
  | EmptyString => None
  | String c r =>
      match lastDot r with
      | Some k => Some (S k)
      | None => if bool_decide (c = "."%char) then Some 0 else None
      end
  end.

Fixpoint sdrop (n : nat) (s : string) : string :=
  match n, s with
  | O, _ => s
  | S n', String _ r => sdrop n' r
  | S _, EmptyString => EmptyString
  end.

Fixpoint stake (n : nat) (s : string) : string :=
  match n, s with
  | O, _ => EmptyString
  | S n', String c r => String c (stake n' r)
  | S _, EmptyString => EmptyString
  end.

(** [path.extname(s)]: from the last dot of the base name on, unless there
    is no dot, the only dot leads the name, or the name is [..]. *)
Definition extname (s : string) : string :=
  let b := basenameStr s in
  match lastDot b with
  | None => ""
  | Some O => ""
  | Some k => if decide (b = "..") then "" else sdrop k b
  end.

(** [path.basename(s, ext)] *)
Definition basenameExt (s ext : string) : string :=
  let b := basenameStr s in
  if Js.truthy ext && Js.endsWith b ext && negb (bool_decide (b = ext))
  then stake (String.length b - String.length ext) b
  else b.

(** Relative paths (the category part of a target) are kept as normalised
    segment lists as well; a leading [..] stays. *)
Definition relPush (p : list string) (seg : string) : list string :=
  if decide (seg = "") then p
  else if decide (seg = ".") then p
  else if decide (seg = "..") then
    if decide (List.last p ".." = "..") then p ++ [".."] else removelast p
  else p ++ [seg].

(** [path.join(r, s)] for a relative [r]. *)
Definition relJoin (r : list string) (s : string) : list string :=
  fold_left relPush (Js.split_slash s) r.

(** [path.join(p, r)] for an absolute [p] and a relative [r]. *)
Definition joinRel (p : path) (r : list string) : path := fold_left push r p.

(** [path.relative(from, to)] for absolute paths. *)
Fixpoint relative (from to : path) : list string :=
  match from, to with
  | a :: from', b :: to' =>
      if decide (a = b) then relative from' to'
      else map (λ _, "..") from ++ to
  | _, _ => map (λ _, "..") from ++ to
  end.

(** [prefix p q]: [q] lies at or below [p]. *)
Fixpoint isPrefix (p q : path) : bool :=
  match p, q with
  | [], _ => true
  | a :: p', b :: q' => bool_decide (a = b) && isPrefix p' q'
  | _ :: _, [] => false
  end.

End Path.

(** ** The file system *)

Inductive errno :=
  ENOENT | EEXIST | ENOTDIR | EISDIR | ENOTEMPTY | EXDEV | EINVAL.

(** What a JavaScript [throw] carries: a system error with its code, or an
    error of a library. *)
Inductive error :=
  | SysError (code : errno)
  | LibError (msg : string).

Definition errnoName (c : errno) : string :=
  match c with
  | ENOENT => "ENOENT" | EEXIST => "EEXIST" | ENOTDIR => "ENOTDIR"
  | EISDIR => "EISDIR" | ENOTEMPTY => "ENOTEMPTY" | EXDEV => "EXDEV"
  | EINVAL => "EINVAL"
  end.

(** [e.message] *)
Definition message (e : error) : string :=
  match e with
  | SysError c => errnoName c
  | LibError m => m
  end.

(** [e.code === "EXDEV"] *)
Definition isEXDEV (e : error) : bool :=
  match e with SysError EXDEV => true | _ => false end.

Inductive result (A : Type) :=
  | Ok (a : A)
  | Throw (e : error).
Arguments Ok {A} a.
Arguments Throw {A} e.

(** Directory entries: an association list in [readdir] order. *)
Section Entries.
Context {A : Type}.

Fixpoint get (n : string) (es : list (string * A)) : option A :=
  match es with
  | [] => None
  | (k, v) :: r => if decide (k = n) then Some v else get n r
  end.

Fixpoint set (n : string) (v : A) (es : list (string * A)) : list (string * A) :=
  match es with
  | [] => [(n, v)]
  | (k, x) :: r => if decide (k = n) then (k, v) :: r else (k, x) :: set n v r
  end.

Fixpoint del (n : string) (es : list (string * A)) : list (string * A) :=
  match es with
  | [] => []
  | (k, x) :: r => if decide (k = n) then del n r else (k, x) :: del n r
  end.
End Entries.

(** A file with its content, or a directory with its entries. *)
#[warnings="-register-all"]
Inductive node :=
  | File (content : string)
  | Dir (entries : list (string * node)).

Module Fs.

Definition isDir (n : node) : bool :=
  match n with Dir _ => true | File _ => false end.

Fixpoint lookup (t : node) (p : path) : option node :=
  match p with
  | [] => Some t
  | n :: p' =>
      match t with
      | Dir es => match get n es with Some c => lookup c p' | None => None end
      | File _ => None
      end
  end.

(** Bind the node [v] at [p]; the parent of [p] has to be a directory. *)
Fixpoint put (p : path) (v : node) (t : node) : option node :=
  match p with
  | [] => Some v
  | n :: p' =>
      match t with
      | File _ => None
      | Dir es =>
          let sub :=
            match get n es with
            | Some c => put p' v c
            | None => match p' with [] => Some v | _ => None end
            end in
          match sub with
          | Some c' => Some (Dir (set n c' es))
          | None => None
          end
      end
  end.

(** Unbind [p] (with everything below it). *)
Fixpoint rm (p : path) (t : node) : option node :=
  match p with
  | [] => None
  | n :: p' =>
      match t with
      | File _ => None
      | Dir es =>
          match p' with
          | [] => Some (Dir (del n es))
          | _ =>
              match get n es with
              | Some c =>
                  match rm p' c with
                  | Some c' => Some (Dir (set n c' es))
                  | None => None
                  end
              | None => None
              end
          end
      end
  end.

(** [fs.existsSync(p)] *)
Definition existsSync (t : node) (p : path) : bool :=
  bool_decide (is_Some (lookup t p)).

(** [fs.readdirSync(p, { withFileTypes: true })] *)
Definition readdirSync (t : node) (p : path) : result (list (string * node)) :=
  match lookup t p with
  | Some (Dir es) => Ok es
  | Some (File _) => Throw (SysError ENOTDIR)
  | None => Throw (SysError ENOENT)
  end.

(** [fs.mkdirSync(p, { recursive: true })] *)
Fixpoint mkdirSync (p : path) (t : node) : result node :=
  match t with
  | File _ => Throw (SysError (match p with [] => EEXIST | _ => ENOTDIR end))
  | Dir es =>
      match p with
      | [] => Ok t
      | n :: p' =>
          match mkdirSync p' (default (Dir []) (get n es)) with
          | Ok c' => Ok (Dir (set n c' es))
          | Throw e => Throw e
          end
      end
  end.

Definition ofOption {A} (o : option A) (e : errno) : result A :=
  match o with Some a => Ok a | None => Throw (SysError e) end.

(** [fs.renameSync(src, dest)]; [xdev src dest] tells that the two paths lie
    on different devices. *)
Definition renameSync (xdev : path → path → bool)
    (src dest : path) (t : node) : result node :=
  match lookup t src with
  | None => Throw (SysError ENOENT)
  | Some n =>
      match lookup t (Path.dirname dest) with
      | None => Throw (SysError ENOENT)
      | Some (File _) => Throw (SysError ENOTDIR)
      | Some (Dir _) =>
          if decide (src = dest) then Ok t
          else if Path.isPrefix src dest then Throw (SysError EINVAL)
          else if xdev src dest then Throw (SysError EXDEV)
          else
            let move :=
              match rm src t with
              | Some t1 => ofOption (put dest n t1) ENOENT
              | None => Throw (SysError EINVAL)
              end in
            match lookup t dest, n with
            | Some (Dir (_ :: _)), Dir _ => Throw (SysError ENOTEMPTY)
            | Some (Dir _), File _ => Throw (SysError EISDIR)
            | Some (File _), Dir _ => Throw (SysError ENOTDIR)
            | _, _ => move
            end
      end
  end.

(** [fs.copyFileSync(src, dest)] *)
Definition copyFileSync (src dest : path) (t : node) : result node :=
  match lookup t src with
  | None => Throw (SysError ENOENT)
  | Some (Dir _) => Throw (SysError EISDIR)
  | Some (File c) =>
      match lookup t (Path.dirname dest), lookup t dest with
      | None, _ => Throw (SysError ENOENT)
      | Some (File _), _ => Throw (SysError ENOTDIR)
      | Some (Dir _), Some (Dir _) => Throw (SysError EISDIR)
      | Some (Dir _), _ => ofOption (put dest (File c) t) ENOENT
      end
  end.

(** [fs.unlinkSync(p)] *)
Definition unlinkSync (p : path) (t : node) : result node :=
  match lookup t p with
  | None => Throw (SysError ENOENT)
  | Some (Dir _) => Throw (SysError EISDIR)
  | Some (File _) => ofOption (rm p t) EINVAL
  end.

(** [fs.rmdirSync(p)] *)
Definition rmdirSync (p : path) (t : node) : result node :=
  match lookup t p with
  | None => Throw (SysError ENOENT)
  | Some (File _) => Throw (SysError ENOTDIR)
  | Some (Dir (_ :: _)) => Throw (SysError ENOTEMPTY)
  | Some (Dir []) => ofOption (rm p t) EINVAL
  end.

(** [fs.rmSync(p, { recursive: true, force: true })] *)
Definition rmSync (p : path) (t : node) : result node :=
  match lookup t p with
  | None => Ok t
  | Some _ => ofOption (rm p t) EINVAL
  end.

(** Writing [c] through [fs.createWriteStream(p)]. *)
Definition writeFile (p : path) (c : string) (t : node) : result node :=
  match lookup t (Path.dirname p), lookup t p with
  | None, _ => Throw (SysError ENOENT)
  | Some (File _), _ => Throw (SysError ENOTDIR)
  | Some (Dir _), Some (Dir _) => Throw (SysError EISDIR)
  | Some (Dir _), _ => ofOption (put p (File c) t) ENOENT
  end.

(** Reading the whole of a file through [fs.createReadStream(p)]. *)
Definition readFile (t : node) (p : path) : result string :=
  match lookup t p with
  | Some (File c) => Ok c
  | Some (Dir _) => Throw (SysError EISDIR)
  | None => Throw (SysError ENOENT)
  end.

End Fs.

(** ** The world the pipeline runs in *)

(** What is sent to the renderer through [webContents.send]. *)
Inductive event :=
  | OrganizingLog (msg : string) (severity : string)
  | OrganizingDone (destDir : string) (dryRun : bool) (newFiles : list (path * path)).

(** The state the code reads and writes:
    - [w_fs], the file system;
    - [w_sent], the events sent so far, oldest first;
    - [w_index], the [Map] of the de-duplication record ([dedupe.map]);
    - [w_moved], the array [movedThisRun] of the running [startOrganizing];
    - [w_cancel], the module variable [cancelRequested];
    - [w_inbox], the cancel requests of the user that arrive while the run is
      suspended, one entry per suspension point still to come. *)
Record world := World {
  w_fs : node;
  w_sent : list event;
  w_index : gmap string path;
  w_moved : list (path * path);
  w_cancel : bool;
  w_inbox : list bool
}.

Definition withFs (t : node) (w : world) : world :=
  World t (w_sent w) (w_index w) (w_moved w) (w_cancel w) (w_inbox w).
Definition withSent (l : list event) (w : world) : world :=
  World (w_fs w) l (w_index w) (w_moved w) (w_cancel w) (w_inbox w).
Definition withIndex (m : gmap string path) (w : world) : world :=
  World (w_fs w) (w_sent w) m (w_moved w) (w_cancel w) (w_inbox w).
Definition withMoved (l : list (path * path)) (w : world) : world :=
  World (w_fs w) (w_sent w) (w_index w) l (w_cancel w) (w_inbox w).
Definition withCancel (b : bool) (w : world) : world :=
  World (w_fs w) (w_sent w) (w_index w) (w_moved w) b (w_inbox w).
Definition withInbox (l : list bool) (w : world) : world :=
  World (w_fs w) (w_sent w) (w_index w) (w_moved w) (w_cancel w) l.

(** State and exceptions: a thrown error keeps the state reached so far. *)
Definition M (A : Type) : Type := world → world * result A.

Global Instance M_ret : MRet M := λ A a w, (w, Ok a).
Global Instance M_bind : MBind M := λ A B k m w,
  match m w with
  | (w', Ok a) => k a w'
  | (w', Throw e) => (w', Throw e)
  end.
Global Instance M_throw : MThrow error M := λ A e w, (w, Throw e).

(** [try { m } catch (e) { h e }] *)
Definition tryCatch {A} (m : M A) (h : error → M A) : M A := λ w,
  match m w with
  | (w', Throw e) => h e w'
  | r => r
  end.

(** A call of [fs] that changes the file system. *)
Definition fsDo (f : node → result node) : M unit := λ w,
  match f (w_fs w) with
  | Ok t => (withFs t w, Ok tt)
  | Throw e => (w, Throw e)
  end.

(** A call of [fs] that only reads. *)
Definition fsRead {A} (f : node → A) : M A := λ w, (w, Ok (f (w_fs w))).

Definition fsTry {A} (f : node → result A) : M A := λ w, (w, f (w_fs w)).

Definition liftResult {A} (r : result A) : M A := λ w, (w, r).

(** [webContents.send(...)] *)
Definition send (ev : event) : M unit := λ w,
  (withSent (w_sent w ++ [ev]) w, Ok tt).

Definition sendLog (msg severity : string) : M unit :=
  send (OrganizingLog msg severity).

(** Reading and writing [cancelRequested]. *)
Definition getCancel : M bool := λ w, (w, Ok (w_cancel w)).
Definition setCancel (b : bool) : M unit := λ w, (withCancel b w, Ok tt).

(** [dedupe.map.get], [dedupe.map.set], [new Map()] *)
Definition indexGet (h : string) : M (option path) := λ w,
  (w, Ok (w_index w !! h)).
Definition indexSet (h : string) (p : path) : M unit := λ w,
  (withIndex (<[h := p]> (w_index w)) w, Ok tt).
Definition indexNew : M unit := λ w, (withIndex ∅ w, Ok tt).

(** [movedThisRun = []], [movedThisRun.push(r)] for a result [r] that is an
    object with a [dest], and reading the array. *)
Definition movedNew : M unit := λ w, (withMoved [] w, Ok tt).
Definition movedPush (r : option (path * path)) : M unit := λ w,
  match r with
  | Some rec => (withMoved (w_moved w ++ [rec]) w, Ok tt)
  | None => (w, Ok tt)
  end.
Definition getMoved : M (list (path * path)) := λ w, (w, Ok (w_moved w)).

(** A suspension point ([await] of real I/O, [setImmediate]): the event loop
    may run the cancel handler [requestCancel]. *)
Definition suspend : M unit := λ w,
  match w_inbox w with
  | [] => (w, Ok tt)
  | b :: rest => (withInbox rest (withCancel (w_cancel w || b) w), Ok tt)
  end.

(** [for (const x of l) body x] *)
Fixpoint forEach {A} (l : list A) (body : A → M unit) : M unit :=
  match l with
  | [] => mret tt
  | x :: r => body x ;; forEach r body
  end.

(** The collaborators the source treats as black boxes. *)
Record collaborators := Collaborators {
  (** the two paths lie on different devices ([rename] fails with EXDEV) *)
  xdev : path → path → bool;
  (** [crypto.createHash(algo)], then [digest("hex")] of the content; [None]
      for an algorithm the platform does not know *)
  createHash : string → option (string → string);
  (** [mm.parseFile(p).format.duration] from the content of the file;
      [None] for a duration that is missing or not finite *)
  parseDuration : string → result (option Q);
  (** [unzipper.Open.file(p).files] from the content of the archive: the
      path, the directory flag and the data of each entry *)
  unzipperOpen : string → result (list (string * bool * string));
  (** [createExtractorFromFile({ filepath, targetPath }).extract()] of
      node-unrar-js from the content of the archive: what the library does
      to the file system, and [list.files] (name and directory flag of each
      header), [None] when the field is missing *)
  unrarExtract : string → path → node → result (node * option (list (string * bool)))
}.

(** ** Naming and collision rules *)

(** [isHiddenName] of organizer.js *)
Definition isHiddenName (name : string) : bool :=
  if Js.startsWith name "." || Js.startsWith name "._" then true
  else
    let lower := Js.toLowerCase name in
    bool_decide (lower = "thumbs.db") || bool_decide (lower = "desktop.ini")
    || bool_decide (name = "__MACOSX").

(** [isHiddenOrJunk] of extractZip.js *)
Definition isHiddenOrJunk (name : string) : bool :=
  if negb (Js.truthy name) then false
  else
    let lower := Js.toLowerCase name in
    Js.startsWith name "." || Js.startsWith name "._"
    || bool_decide (name = "__MACOSX")
    || bool_decide (lower = "thumbs.db") || bool_decide (lower = "desktop.ini").

(** The characters the source strips from folder names: less-than,
    greater-than, colon, double quote, slash, backslash, bar, question mark
    and star. *)
Definition isIllegalChar (c : ascii) : bool :=
  bool_decide (c = "<"%char) || bool_decide (c = ">"%char)
  || bool_decide (c = ":"%char) || bool_decide (c = "034"%char)
  || bool_decide (c = "/"%char) || bool_decide (c = "\"%char)
  || bool_decide (c = "|"%char) || bool_decide (c = "?"%char)
  || bool_decide (c = "*"%char).

(** [sanitizeFolderName] of organizer.js and [sanitizeKey] of bpmutils.js *)
Definition sanitizeFolderName (s : string) : string :=
  Js.trim (Js.sfilter (λ c, negb (isIllegalChar c)) s).

Definition sanitizeKey (label : string) : string := sanitizeFolderName label.

(** The name [`${base} (${i})${ext}`] *)
Definition numbered (base : string) (i : nat) (ext : string) : string :=
  base +:+ " (" +:+ pretty i +:+ ")" +:+ ext.

(** The loop of [uniqueDestPath].  It runs on a fuel; with the fuel
    [uniqueDestPath] gives it, the loop always leaves through its test. *)
Fixpoint uniqueLoop (fuel : nat) (t : node) (dir : path) (base ext : string)
    (candidate : path) (i : nat) : path :=
  match fuel with
  | O => candidate
  | S fuel' =>
      if Fs.existsSync t candidate
      then uniqueLoop fuel' t dir base ext
             (Path.join dir (numbered base i ext)) (S i)
      else candidate
  end.

Definition entryCount (t : node) (dir : path) : nat :=
  match Fs.lookup t dir with
  | Some (Dir es) => length es
  | _ => 0
  end.

(** [uniqueDestPath(dir, file)] of organizer.js and of bpmutils.js (the two
    are the same function). *)
Definition uniqueDestPath (t : node) (dir : path) (file : string) : path :=
  let ext := Path.extname file in
  let base := Path.basenameExt file ext in
  uniqueLoop (2 + entryCount t dir) t dir base ext (Path.join dir file) 2.

(** ** Tempo and key folders (bpmutils.js) *)

Fixpoint spanChars (P : ascii → bool) (s : string) : string * string :=
  match s with
  | EmptyString => (EmptyString, EmptyString)
  | String c r =>
      if P c then let '(a, b) := spanChars P r in (String c a, b)
      else (EmptyString, s)
  end.

(** [name.match(BPM_DIR_RE)] with [BPM_DIR_RE = /^(\d{2,3})\s*bpm$/i]: the
    captured digits. *)
Definition matchBpmDir (name : string) : option string :=
  let '(digits, rest) := spanChars Js.isDigit name in
  let n := String.length digits in
  if (2 <=? n)%nat && (n <=? 3)%nat
     && bool_decide (Js.toLowerCase (snd (spanChars Js.isSpace rest)) = "bpm")
  then Some digits else None.

Definition isBpmDirName (name : string) : bool :=
  bool_decide (is_Some (matchBpmDir name)).

Definition isNoteLetter (c : ascii) : bool :=
  let n := nat_of_ascii (Js.lowerChar c) in (97 <=? n)%nat && (n <=? 103)%nat.

Definition isAccidental (c : ascii) : bool :=
  bool_decide (c = "#"%char) || bool_decide (Js.lowerChar c = "b"%char).

(** [KEY_DIR_RE.test(name)] with
    [KEY_DIR_RE = /^(?:[A-G](?:#|b)?)\s+(?:Maj|Min)$/i] *)
Definition isKeyDirName (name : string) : bool :=
  match name with
  | EmptyString => false
  | String c r =>
      isNoteLetter c &&
      let r' := match r with
                | String a r'' => if isAccidental a then r'' else r
                | EmptyString => r
                end in
      let '(blanks, quality) := spanChars Js.isSpace r' in
      Js.truthy blanks &&
      (bool_decide (Js.toLowerCase quality = "maj")
       || bool_decide (Js.toLowerCase quality = "min"))
  end.

(** [parseInt(digits, 10)] of a string of decimal digits *)
Definition parseDigits (s : string) : Z :=
  fold_left (λ acc c, 10 * acc + (Z.of_nat (nat_of_ascii c) - 48))%Z
            (list_ascii_of_string s) 0%Z.

(** [getParentBpmValue(filePath)] *)
Definition getParentBpmValue (filePath : path) : option Z :=
  parseDigits <$> matchBpmDir (Path.basename (Path.dirname filePath)).

(** The loop of [firstNonBpmAncestorDir]; every turn shortens [dir]. *)
Fixpoint climbBpm (fuel : nat) (dir : path) : path :=
  match fuel with
  | O => dir
  | S fuel' =>
      if isBpmDirName (Path.basename dir) then
        let parent := Path.dirname dir in
        if decide (parent = dir) then dir else climbBpm fuel' parent
      else dir
  end.

(** [firstNonBpmAncestorDir(filePath)] *)
Definition firstNonBpmAncestorDir (filePath : path) : path :=
  let dir := Path.dirname filePath in
  climbBpm (S (length dir)) dir.

(** ** Archive entries and directory walks *)

(** [entry.path.replace(/^[\\/]+/, "")]: drop leading slashes and
    backslashes. *)
Fixpoint stripLeadingSlashes (s : string) : string :=
  match s with
  | String c r =>
      if bool_decide (c = "/"%char) || bool_decide (c = "\"%char)
      then stripLeadingSlashes r else s
  | EmptyString => EmptyString
  end.

(** [p.startsWith(path.resolve(root) + path.sep)]: on normalised paths, [p]
    lies strictly below [root]; below the root directory the test fails,
    since no normalised path starts with two separators. *)
Definition startsWithDir (p root : path) : bool :=
  match root with
  | [] => false
  | _ => Path.isPrefix root p && negb (bool_decide (p = root))
  end.

(** [walkFiles(dir)] of extractZip.js on the directory [t] found at [dir]. *)
Fixpoint walkNode (dir : path) (t : node) {struct t} : list path :=
  match t with
  | File _ => []
  | Dir es =>
      (fix go (es : list (string * node)) : list path :=
         match es with
         | [] => []
         | (name, c) :: r =>
             (if isHiddenOrJunk name then []
              else match c with
                   | Dir _ => walkNode (Path.join dir name) c
                   | File _ => [Path.join dir name]
                   end) ++ go r
         end) es
  end.

(** [getAllFiles(dir)] of organizer.js on the directory [t] found at [dir]. *)
Fixpoint allFilesNode (dir : path) (t : node) {struct t} : list path :=
  match t with
  | File _ => []
  | Dir es =>
      (fix go (es : list (string * node)) : list path :=
         match es with
         | [] => []
         | (name, c) :: r =>
             (if isHiddenName name then []
              else match c with
                   | Dir _ => allFilesNode (Path.join dir name) c
                   | File _ =>
                       if isHiddenName (Path.basename (Path.join dir name))
                       then [] else [Path.join dir name]
                   end) ++ go r
         end) es
  end.

Fixpoint nodeSize (t : node) : nat :=
  match t with
  | File _ => 1
  | Dir es =>
      S ((fix go (es : list (string * node)) : nat :=
            match es with
            | [] => 0
            | (_, c) :: r => nodeSize c + go r
            end) es)
  end.

(** ** Configuration *)

Record config := Config {
  samplesDir : string;
  destDir : string;
  extensions : list string;
  moveFiles : bool;
  dryRun : bool;
  checkParentFolder : bool;
  checkLength : bool;
  (** [Number(config.lengthThreshold) || 0], in whole seconds *)
  lengthThreshold : Z;
  keepPackSubfolder : bool;
  sortMidiToFolder : bool;
  midiFolderName : string;
  keepArchives : bool;
  dedupeEnabled : bool;
  dedupeAlgo : string;
  dedupeMode : string;
  (** [config.dedupePreferDest !== false] *)
  dedupePreferDest : bool;
  mainCategories : list mainCategoryCfg;
  categories : list (string * list string);
  (** the flattened rules [startOrganizing] stashes on the configuration *)
  _flatCategories : list ent
}.

(** The record [dedupe] of [startOrganizing], without its [map], which
    lives in the world. *)
Record dedupeRec := DedupeRec {
  enabled : bool;
  algo : string;
  mode : string;
  preferDest : bool;
  quarantineDir : path
}.

(** [normalizeExtList] *)
Definition stripLeadingDot (s : string) : string :=
  match s with
  | String c r => if bool_decide (c = "."%char) then r else s
  | EmptyString => EmptyString
  end.

Definition normalizeExtList (l : list string) : list string :=
  map (λ e, stripLeadingDot (Js.toLowerCase (Js.trim e))) l.

(** [getExt(p)] *)
Definition getExt (p : path) : string :=
  Js.toLowerCase (Path.sdrop 1 (Path.extname (Path.basename p))).

(** [isAcceptedExt(p, config)] *)
Definition isAcceptedExt (p : path) (cfg : config) : bool :=
  let accepted := normalizeExtList (extensions cfg) in
  match accepted with
  | [] => true
  | _ => bool_decide (getExt p ∈ accepted)
  end.

(** [packLabelFromSamples(absFile, samplesDir)]; the empty string stands for
    [null]. *)
Definition packLabelFromSamples (absFile : path) (samplesDir : string) : string :=
  if negb (Js.truthy samplesDir) then ""
  else
    let root := Path.abs samplesDir in
    if negb (startsWithDir absFile root) then ""
    else
      let segs := filter (λ x, Js.truthy x = true) (drop (length root) absFile) in
      match segs with
      | [] => ""
      | s0 :: rest =>
          let pack := sanitizeFolderName s0 in
          let collection :=
            match rest with
            | s1 :: _ :: _ => sanitizeFolderName s1
            | _ => ""
            end in
          if Js.truthy collection then pack +:+ " (" +:+ collection +:+ ")"
          else pack
      end.

(** [m[1].replace(/\.(zip|rar)$/i, "")] *)
Definition stripArchiveExt (s : string) : string :=
  let l := Js.toLowerCase s in
  if Js.endsWith l ".zip" || Js.endsWith l ".rar"
  then Path.stake (String.length s - 4) s else s.

Definition isLineTerminator (c : ascii) : bool :=
  bool_decide (c = "010"%char) || bool_decide (c = "013"%char).

(** [packLabelFromTemp(absFile, destDir)], with
    [firstSeg.match(/^_temp_(.+)$/)]; the empty string stands for [null]. *)
Definition packLabelFromTemp (absFile : path) (destDir : string) : string :=
  let root := Path.abs destDir in
  if negb (startsWithDir absFile root) then ""
  else
    let firstSeg := default "" (head (drop (length root) absFile)) in
    let rest := Path.sdrop 6 firstSeg in
    if Js.startsWith firstSeg "_temp_" && Js.truthy rest
       && negb (Js.truthy (Js.sfilter isLineTerminator rest))
    then sanitizeFolderName (stripArchiveExt rest)
    else "".

(** [fs.existsSync(s)] of a path given as a string. *)
Definition existsStr (t : node) (s : string) : bool :=
  Js.truthy s && Fs.existsSync t (Path.abs s).

(** [(k % 50) === 0] *)
Definition everyFifty (k : nat) : bool := bool_decide (k `mod` 50 = 0).

Definition withFlat (flat : list ent) (c : config) : config :=
  Config (samplesDir c) (destDir c) (extensions c) (moveFiles c) (dryRun c)
    (checkParentFolder c) (checkLength c) (lengthThreshold c)
    (keepPackSubfolder c) (sortMidiToFolder c) (midiFolderName c)
    (keepArchives c) (dedupeEnabled c) (dedupeAlgo c) (dedupeMode c)
    (dedupePreferDest c) (mainCategories c) (categories c) flat.

Definition bold (s : string) : string := "<b>" +:+ s +:+ "</b>".

(** [dur > lenThresh] *)
Definition exceeds (dur : Q) (lenThresh : Z) : bool :=
  negb (Qle_bool dur (inject_Z lenThresh)).

(** The directory at [dir], for the walks that start with
    [fs.readdirSync(dir)]. *)
Definition dirAt (t : node) (dir : path) : result node :=
  match Fs.lookup t dir with
  | Some (Dir es) => Ok (Dir es)
  | Some (File _) => Throw (SysError ENOTDIR)
  | None => Throw (SysError ENOENT)
  end.

(** [fs.statSync(p).isDirectory()] *)
Definition statIsDirectory (t : node) (p : path) : result bool :=
  match Fs.lookup t p with
  | Some n => Ok (Fs.isDir n)
  | None => Throw (SysError ENOENT)
  end.

(** [getAllFiles(dir)] of organizer.js *)
Definition getAllFiles (dir : path) : M (list path) :=
  d ← fsTry (λ t, dirAt t dir); mret (allFilesNode dir d).

(** [walkFiles(dir)] of extractZip.js *)
Definition walkFiles (dir : path) : M (list path) :=
  d ← fsTry (λ t, dirAt t dir); mret (walkNode dir d).

(** ** The pipeline *)

Section Pipeline.

Context (E : collaborators).

(** [moveOrCopySync(src, dest, move)] of organizer.js *)
Definition moveOrCopySync (src dest : path) (move : bool) : M unit :=
  if negb move then fsDo (Fs.copyFileSync src dest)
  else
    tryCatch (fsDo (Fs.renameSync (xdev E) src dest))
      (λ e, if isEXDEV e
            then fsDo (Fs.copyFileSync src dest) ;; fsDo (Fs.unlinkSync src)
            else mthrow e).

(** [moveOrCopySync(src, dest)] of bpmutils.js: always a move. *)
Definition moveOrCopySyncBpm (src dest : path) : M unit :=
  tryCatch (fsDo (Fs.renameSync (xdev E) src dest))
    (λ e, if isEXDEV e
          then fsDo (Fs.copyFileSync src dest) ;; fsDo (Fs.unlinkSync src)
          else mthrow e).

(** [moveFileToBPMFolder(file, bpmValue, { keyValue, dryRun })].
    [bpmValue] is the whole number [parseInt(bpmValue, 10)] yields, [None]
    when that is not finite; [keyValue] is [None] for [null]. *)
Definition moveFileToBPMFolder (file : path) (bpmValue : option Z)
    (keyValue : option string) (dryRun : bool) : M (option path) :=
  match bpmValue with
  | None => mret None
  | Some targetBpm =>
      let dirNow := Path.dirname file in
      let currentParentBpm := getParentBpmValue file in
      let alreadyInTargetBpm :=
        match currentParentBpm with
        | Some v => bool_decide (v = targetBpm)
        | None => false
        end in
      let baseDir := firstNonBpmAncestorDir file in
      let bpmDir := Path.join baseDir (pretty targetBpm +:+ " BPM") in
      let keyFolder :=
        match keyValue with
        | Some k => if Js.truthy k then sanitizeKey k else ""
        | None => ""
        end in
      let finalDir :=
        if Js.truthy keyFolder then Path.join bpmDir keyFolder else bpmDir in
      if alreadyInTargetBpm
         && (negb (Js.truthy keyFolder) || isKeyDirName (Path.basename dirNow))
      then mret (Some (Path.join finalDir (Path.basename file)))
      else if dryRun then mret (Some (Path.join finalDir (Path.basename file)))
      else
        fsDo (Fs.mkdirSync finalDir) ;;
        dest ← fsRead (λ t, uniqueDestPath t finalDir (Path.basename file));
        moveOrCopySyncBpm file dest ;;
        mret (Some dest)
  end.

(** [computeFileHash(filePath, algo)], awaited. *)
Definition computeFileHash (filePath : path) (algo : string) : M string :=
  suspend ;;
  match createHash E algo with
  | None => mthrow (LibError "Digest method not supported")
  | Some digest =>
      content ← fsTry (λ t, Fs.readFile t filePath);
      mret (digest content)
  end.

(** *** Archive expansion *)

(** The body of the loop of [extractZip] over [zip.files]. *)
Definition extractEntry (destDir : path) (entry : string * bool * string) : M unit :=
  let '(entryPath, isDirectory, data) := entry in
  if isDirectory then mret tt
  else
    let rel := stripLeadingSlashes entryPath in
    let targetPath := Path.resolve destDir rel in
    if negb (startsWithDir targetPath destDir) then mret tt
    else
      fsDo (Fs.mkdirSync (Path.dirname targetPath)) ;;
      suspend ;;
      fsDo (Fs.writeFile targetPath data) ;;
      suspend.

(** The [while] loop of [flattenSingleFolders] of extractZip.js, on a fuel. *)
Fixpoint flattenLoop (fuel : nat) (folderPath : path)
    (items : list (string * node)) : M unit :=
  match fuel with
  | O => mret tt
  | S fuel' =>
      match items with
      | [(name, Dir _)] =>
          if isHiddenOrJunk name then mret tt
          else
            let singleFolder := Path.join folderPath name in
            inner ← fsTry (λ t, Fs.readdirSync t singleFolder);
            forEach inner (λ e,
              let oldPath := Path.join singleFolder e.1 in
              let newPath := Path.join folderPath e.1 in
              fsDo (Fs.renameSync (xdev E) oldPath newPath)) ;;
            tryCatch (fsDo (Fs.rmSync singleFolder)) (λ _, mret tt) ;;
            items' ← fsTry (λ t, Fs.readdirSync t folderPath);
            flattenLoop fuel' folderPath items'
      | _ => mret tt
      end
  end.

(** [flattenSingleFolders(folderPath)] of extractZip.js; every turn of the
    loop removes a directory, so the size of the tree bounds the turns. *)
Definition flattenSingleFolders (folderPath : path) : M unit :=
  ex ← fsRead (λ t, Fs.existsSync t folderPath);
  if negb (ex : bool) then mret tt
  else
    items ← fsTry (λ t, Fs.readdirSync t folderPath);
    fuel ← fsRead nodeSize;
    flattenLoop fuel folderPath items.

(** The two statements of [extractZip] that flatten a single-folder archive
    and collect the final list of files. *)
Definition flattenAndCollect (destDir : path) : M (list path) :=
  flattenSingleFolders destDir ;;
  walkFiles destDir.

(** [extractZip(zipPath, destDir, keepArchives)] *)
Definition extractZip (zipPath destDir : path) (keepArchives : bool) : M (list path) :=
  ex ← fsRead (λ t, Fs.existsSync t destDir);
  (if negb (ex : bool) then fsDo (Fs.mkdirSync destDir) else mret tt) ;;
  suspend ;;
  content ← fsTry (λ t, Fs.readFile t zipPath);
  files ← liftResult (unzipperOpen E content);
  forEach files (extractEntry destDir) ;;
  extractedFiles ← flattenAndCollect destDir;
  (if negb keepArchives then
     exz ← fsRead (λ t, Fs.existsSync t zipPath);
     if exz : bool then tryCatch (fsDo (Fs.unlinkSync zipPath)) (λ _, mret tt)
     else mret tt
   else mret tt) ;;
  mret extractedFiles.

(** The inner function [flattenSingleFolders] of extractRar.js. *)
Fixpoint flattenLoopRar (fuel : nat) (folderPath : path)
    (items : list (string * node)) : M unit :=
  match fuel with
  | O => mret tt
  | S fuel' =>
      match items with
      | [(name, _)] =>
          isDirectory ← fsTry (λ t, statIsDirectory t (Path.join folderPath name));
          if negb (isDirectory : bool) then mret tt
          else
            let singleFolder := Path.join folderPath name in
            innerFiles ← fsTry (λ t, Fs.readdirSync t singleFolder);
            forEach innerFiles (λ e,
              let oldPath := Path.join singleFolder e.1 in
              let newPath := Path.join folderPath e.1 in
              fsDo (Fs.renameSync (xdev E) oldPath newPath)) ;;
            fsDo (Fs.rmdirSync singleFolder) ;;
            items' ← fsTry (λ t, Fs.readdirSync t folderPath);
            flattenLoopRar fuel' folderPath items'
      | _ => mret tt
      end
  end.

Definition flattenSingleFoldersRar (folderPath : path) : M unit :=
  items ← fsTry (λ t, Fs.readdirSync t folderPath);
  fuel ← fsRead nodeSize;
  flattenLoopRar fuel folderPath items.

(** The library call of [extractRarArchive]: the archive is read and
    extracted by node-unrar-js. *)
Definition unrar (file destination : path) : M (option (list (string * bool))) := λ w,
  match Fs.readFile (w_fs w) file with
  | Throw e => (w, Throw e)
  | Ok content =>
      match unrarExtract E content destination (w_fs w) with
      | Ok (t, files) => (withFs t w, Ok files)
      | Throw e => (w, Throw e)
      end
  end.

(** [extractRarArchive(file, destination, keepArchive)]; its [catch] only
    prints the error and throws it again. *)
Definition extractRarArchive (file destination : path) (keepArchive : bool)
    : M (list path) :=
  ex ← fsRead (λ t, Fs.existsSync t destination);
  (if negb (ex : bool) then fsDo (Fs.mkdirSync destination) else mret tt) ;;
  suspend ;;
  list ← unrar file destination;
  match list with
  | None => mret []
  | Some files =>
      flattenSingleFoldersRar destination ;;
      let extractedFiles :=
        omap (λ f : string * bool,
                if f.2 then None else Some (Path.join destination f.1)) files in
      (if negb keepArchive then fsDo (Fs.unlinkSync file) else mret tt) ;;
      mret extractedFiles
  end.

(** [removeFolderRecursive(folderPath)]: after its children are deleted one
    by one, the folder goes with [fs.rmSync]. *)
Definition removeFolderRecursive (folderPath : path) : M unit :=
  ex ← fsRead (λ t, Fs.existsSync t folderPath);
  if ex : bool then fsDo (Fs.rmSync folderPath) else mret tt.

(** *** Classification of one file *)

(** What [categorizeFile] does with a file whose hash is in the index
    already, [first] being the path recorded there: under dry run a log
    line, else skip it or send it to the quarantine folder as [dedupe.mode]
    says. *)
Definition onDuplicate (fullPath : path) (fileName : string) (cfg : config)
    (d : dedupeRec) (first : path) : M unit :=
  let msg := "Duplicate detected: " +:+ bold fileName +:+
             " (same as " +:+ bold (Path.basename first) +:+ ")" in
  if dryRun cfg then sendLog ("[DRY RUN] " +:+ msg) "warning"
  else if decide (mode d = "skip") then
    sendLog (msg +:+ ". Skipped.") "warning"
  else if decide (mode d = "quarantine") then
    let qDir := quarantineDir d in
    exq ← fsRead (λ t, Fs.existsSync t qDir);
    (if negb (exq : bool) then fsDo (Fs.mkdirSync qDir) else mret tt) ;;
    dest ← fsRead (λ t, uniqueDestPath t qDir fileName);
    moveOrCopySync fullPath dest (moveFiles cfg) ;;
    sendLog (msg +:+ ". Sent to _Duplicates.") "warning"
  else mret tt.

(** The [catch] of the de-duplication block. *)
Definition onHashingFailed (fileName : string) (e : error) : M bool :=
  sendLog ("Hashing failed for " +:+ bold fileName +:+ ": " +:+ message e)
          "error" ;;
  mret false.

(** The block [if (dedupe?.enabled) { ... }] of [categorizeFile]; the result
    tells whether the function returns from inside the block. *)
Definition dedupeStage (fullPath : path) (fileName : string) (cfg : config)
    (dedupe : option dedupeRec) : M bool :=
  match dedupe with
  | None => mret false
  | Some d =>
      if negb (enabled d) then mret false
      else
        cancel ← getCancel;
        if cancel : bool then mret true
        else
          tryCatch
            (hash ← computeFileHash fullPath (algo d);
             firstSeen ← indexGet hash;
             match firstSeen with
             | Some first =>
                 onDuplicate fullPath fileName cfg d first ;;
                 mret true
             | None => indexSet hash fullPath ;; mret false
             end)
            (onHashingFailed fileName)
  end.

(** The block [if (config.checkLength) { ... }]: the new value of
    [targetRel]. *)
Definition lengthStage (fullPath : path) (fileName : string) (cfg : config)
    (targetRel : list string) : M (list string) :=
  if checkLength cfg then
    let lenThresh := lengthThreshold cfg in
    if (0 <? lenThresh)%Z then
      tryCatch
        (suspend ;;
         content ← fsTry (λ t, Fs.readFile t fullPath);
         duration ← liftResult (parseDuration E content);
         match duration with
         | Some dur =>
             if exceeds dur lenThresh then
               let base := List.last targetRel "" in
               let suffix := " - Over " +:+ pretty lenThresh +:+ " seconds" in
               if negb (Js.endsWith base suffix)
               then mret (Path.relJoin targetRel (base +:+ suffix))
               else mret targetRel
             else mret targetRel
         | None => mret targetRel
         end)
        (λ _,
           sendLog ("Could not read duration for " +:+ fileName) "info" ;;
           mret targetRel)
    else mret targetRel
  else mret targetRel.

(** The final [try] of [categorizeFile], which its MIDI branch and its
    general branch share up to [logExtra]: create the target directory,
    pick a free name, move or copy; under dry run only log the plan. *)
Definition placeFile (fullPath : path) (fileName : string) (cfg : config)
    (targetPath : path) (logExtra : string) : M (option (path * path)) :=
  let destPlanned := Path.join targetPath fileName in
  tryCatch
    (let action := if moveFiles cfg then "Moved" else "Copied" in
     if negb (dryRun cfg) then
       fsDo (Fs.mkdirSync targetPath) ;;
       dest ← fsRead (λ t, uniqueDestPath t targetPath fileName);
       moveOrCopySync fullPath dest (moveFiles cfg) ;;
       sendLog (action +:+ " " +:+ bold fileName +:+ " → "
                +:+ bold (Path.show dest) +:+ logExtra) "success" ;;
       mret (Some (fullPath, dest))
     else
       sendLog ("[DRY RUN] " +:+ action +:+ " " +:+ bold fileName +:+ " → "
                +:+ bold (Path.show destPlanned) +:+ logExtra) "success" ;;
       mret (Some (fullPath, destPlanned)))
    (λ err,
       sendLog ("Error processing " +:+ bold fileName +:+ ": "
                +:+ message err) "error" ;;
       mret None).

(** The relative target of the category rules: [{main}/{category}] of the
    first matching rule, by file name and then, when asked, by parent
    folder; else [Miscellaneous]. *)
Definition baseTarget (cfg : config) (fileName parentFolder : string)
    : list string * bool :=
  let spec := _flatCategories cfg in
  let fileHay := Js.toLowerCase fileName in
  let byName := firstMatch spec fileHay in
  let byParent :=
    if checkParentFolder cfg && Js.truthy parentFolder
    then firstMatch spec (normalizeString parentFolder) else None in
  let matched := match byName with Some e => Some e | None => byParent end in
  let usedParentFolder :=
    match byName, byParent with None, Some _ => true | _, _ => false end in
  (match matched with
   | Some m =>
       if Js.truthy (main m)
       then Path.relJoin (Path.relJoin [] (main m)) (category m)
       else Path.relJoin [] (category m)
   | None => ["Miscellaneous"]
   end, usedParentFolder).

(** [categorizeFile(fullPath, config, webContents, dedupe)]: the record
    [{ src, dest }], or [None] for [undefined] and [null]. *)
Definition categorizeFile (fullPath : path) (cfg : config)
    (dedupe : option dedupeRec) : M (option (path * path)) :=
  let fileName := Path.basename fullPath in
  if isHiddenName fileName then mret None
  else
    let relativePath := Path.relative (Path.abs (samplesDir cfg)) fullPath in
    let parentFolder :=
      match removelast relativePath with
      | [] => "."
      | l => List.last l ""
      end in
    let ext := getExt fullPath in
    let isMidi := bool_decide (ext = "mid") || bool_decide (ext = "midi") in
    if negb (isAcceptedExt fullPath cfg) then
      sendLog ("Skipped " +:+ bold fileName +:+ " (unaccepted extension: ."
               +:+ ext +:+ ")") "info" ;;
      mret None
    else
      stop ← dedupeStage fullPath fileName cfg dedupe;
      if stop : bool then mret None
      else
        let '(targetRel0, usedParentFolder) :=
          baseTarget cfg fileName parentFolder in
        targetRel ← lengthStage fullPath fileName cfg targetRel0;
        let packLabel :=
          if keepPackSubfolder cfg
          then Js.orElse (packLabelFromSamples fullPath (samplesDir cfg))
                         (packLabelFromTemp fullPath (destDir cfg))
          else "" in
        if sortMidiToFolder cfg && isMidi then
          let midiRootName :=
            Js.orElse (Js.trim (Js.orElse (midiFolderName cfg) "MIDI")) "MIDI" in
          let targetPath :=
            if Js.truthy packLabel
            then Path.join (Path.join (Path.abs (destDir cfg)) midiRootName) packLabel
            else Path.join (Path.abs (destDir cfg)) midiRootName in
          placeFile fullPath fileName cfg targetPath ""
        else
          let targetRel' :=
            if keepPackSubfolder cfg && Js.truthy packLabel
            then Path.relJoin targetRel (sanitizeFolderName packLabel)
            else targetRel in
          let targetPath := Path.joinRel (Path.abs (destDir cfg)) targetRel' in
          let logExtra :=
            if usedParentFolder : bool
            then " (parent folder: " +:+ bold parentFolder +:+ ")" else "" in
          placeFile fullPath fileName cfg targetPath logExtra.

(** *** The run *)

(** The loop of [startOrganizing] over [destFiles] that seeds the index;
    [seeded] and [j] are its counters. *)
Fixpoint seedLoop (destFiles : list path) (cfg : config) (d : dedupeRec)
    (seeded j : nat) : M nat :=
  match destFiles with
  | [] => mret seeded
  | f :: rest =>
      cancel ← getCancel;
      if cancel : bool then
        sendLog "⏹️ Cancelled during duplicate indexing." "warning" ;;
        mret seeded
      else if negb (isAcceptedExt f cfg) then seedLoop rest cfg d seeded j
      else
        fresh ← tryCatch
          (h ← computeFileHash f (algo d);
           known ← indexGet h;
           match known with
           | None => indexSet h f ;; mret true
           | Some _ => mret false
           end)
          (λ _, mret false);
        (if everyFifty (S j) then suspend else mret tt) ;;
        seedLoop rest cfg d (if fresh : bool then S seeded else seeded) (S j)
  end.

(** The loop over the files an archive gave. *)
Fixpoint extractedLoop (extractedFiles : list path) (cfg : config)
    (d : dedupeRec) (k : nat) : M unit :=
  match extractedFiles with
  | [] => mret tt
  | extracted :: rest =>
      if negb (isAcceptedExt extracted cfg) then
        sendLog ("Skipped " +:+ bold (Path.basename extracted)
                 +:+ " (unaccepted extension: ." +:+ getExt extracted +:+ ")")
                "info" ;;
        extractedLoop rest cfg d k
      else
        r ← categorizeFile extracted cfg (Some d);
        movedPush r ;;
        (if everyFifty (S k) then suspend else mret tt) ;;
        extractedLoop rest cfg d (S k)
  end.

(** The branch of the main loop for an archive, outside dry run. *)
Definition organizeArchive (fullPath : path) (fileName ext : string)
    (tempDir : path) (cfg : config) (d : dedupeRec) : M unit :=
  tryCatch
    (extractedFiles ←
       (if decide (ext = "zip")
        then extractZip fullPath tempDir (keepArchives cfg)
        else extractRarArchive fullPath tempDir (keepArchives cfg));
     sendLog ("Extracted " +:+ bold fileName +:+ " → "
              +:+ pretty (length extractedFiles) +:+ " files") "warning" ;;
     extractedFiles' ←
       match extractedFiles with
       | [] =>
           tryCatch
             (found ← getAllFiles tempDir;
              sendLog ("Extractor returned no file list; found "
                       +:+ pretty (length found) +:+ " files in temp folder.")
                      "info" ;;
              mret found)
             (λ scanErr,
                sendLog ("Couldn't scan extracted folder: " +:+ message scanErr)
                        "error" ;;
                mret extractedFiles)
       | _ => mret extractedFiles
       end;
     extractedLoop extractedFiles' cfg d 0 ;;
     removeFolderRecursive tempDir)
    (λ err,
       sendLog ("Error extracting " +:+ bold fileName +:+ ": " +:+ message err)
               "error").

(** The main loop of [startOrganizing]; [i] is its counter. *)
Fixpoint fileLoop (files : list path) (cfg : config) (d : dedupeRec)
    (i : nat) : M unit :=
  match files with
  | [] => mret tt
  | fullPath :: rest =>
      cancel ← getCancel;
      if cancel : bool then mret tt
      else
        let fileName := Path.basename fullPath in
        let ext := getExt fullPath in
        if bool_decide (ext = "zip") || bool_decide (ext = "rar") then
          let base := Path.basenameExt fileName (Path.extname fileName) in
          let tempDir := Path.join (Path.abs (destDir cfg)) ("_temp_" +:+ base) in
          if dryRun cfg then
            sendLog ("[DRY RUN] Would extract " +:+ bold fileName +:+ " ("
                     +:+ Js.toUpperCase ext +:+ ")") "warning" ;;
            fileLoop rest cfg d i
          else
            organizeArchive fullPath fileName ext tempDir cfg d ;;
            fileLoop rest cfg d i
        else
          r2 ← categorizeFile fullPath cfg (Some d);
          movedPush r2 ;;
          (if everyFifty (S i) then suspend else mret tt) ;;
          fileLoop rest cfg d (S i)
  end.

(** The part of [startOrganizing] that seeds the index from the
    destination; the result tells whether the run goes on. *)
Definition seedFromDestination (cfg : config) (d : dedupeRec) : M bool :=
  if enabled d && preferDest d then
    sendLog "Indexing destination files for duplicate detection." "info" ;;
    destFiles ← getAllFiles (Path.abs (destDir cfg));
    seeded ← seedLoop destFiles cfg d 0 0;
    cancel ← getCancel;
    if negb (cancel : bool) then
      sendLog ("Indexed " +:+ pretty seeded
               +:+ " destination files for duplicate detection.") "warning" ;;
      mret true
    else
      sendLog "Organizing cancelled." "warning" ;;
      mret false
  else mret true.

(** [startOrganizing] once the two directories are there: the index, the
    seeding, the walk of the samples and the main loop. *)
Definition organizeBody (cfg0 : config) : M unit :=
  movedNew ;;
  let flatCats := flattenMainCategories (mainCategories cfg0) (categories cfg0) in
  let cfg := withFlat flatCats cfg0 in
  let d := DedupeRec (dedupeEnabled cfg) (Js.orElse (dedupeAlgo cfg) "sha256")
             (Js.orElse (dedupeMode cfg) "skip") (dedupePreferDest cfg)
             (Path.join (Path.abs (destDir cfg)) "_Duplicates") in
  indexNew ;;
  (if enabled d && bool_decide (mode d = "quarantine") && negb (dryRun cfg) then
     exq ← fsRead (λ t, Fs.existsSync t (quarantineDir d));
     if negb (exq : bool) then fsDo (Fs.mkdirSync (quarantineDir d)) else mret tt
   else mret tt) ;;
  proceed ← seedFromDestination cfg d;
  if negb (proceed : bool) then mret tt
  else
    sendLog "⚡ Starting file processing..." "warning" ;;
    files ← getAllFiles (Path.abs (samplesDir cfg));
    sendLog ("Found " +:+ pretty (length files) +:+ " files to process.") "info" ;;
    match files with
    | [] =>
        sendLog ("No files found in " +:+ bold (samplesDir cfg)
                 +:+ " to organize.") "warning" ;;
        send (OrganizingDone (destDir cfg) (dryRun cfg) [])
    | _ =>
        fileLoop files cfg d 0 ;;
        moved ← getMoved;
        send (OrganizingDone (destDir cfg) (dryRun cfg) moved)
    end.

(** [startOrganizing(config, webContents)] *)
Definition startOrganizing (cfg0 : config) : M unit :=
  setCancel false ;;
  exs ← fsRead (λ t, existsStr t (samplesDir cfg0));
  if negb (exs : bool) then
    sendLog ("Error: Samples directory " +:+ bold (samplesDir cfg0)
             +:+ " does not exist") "error"
  else if negb (Js.truthy (destDir cfg0)) then
    sendLog "Error: Destination directory is empty." "error"
  else
    exd ← fsRead (λ t, existsStr t (destDir cfg0));
    created ←
      (if negb (exd : bool) then
         tryCatch
           (fsDo (Fs.mkdirSync (Path.abs (destDir cfg0))) ;;
            sendLog ("Created destination folder " +:+ bold (destDir cfg0) +:+ ".")
                    "info" ;;
            mret true)
           (λ e,
              sendLog ("Error: Could not create destination folder "
                       +:+ bold (destDir cfg0) +:+ ": " +:+ message e) "error" ;;
              mret false)
       else mret true);
    if negb (created : bool) then mret tt
    else organizeBody cfg0.

End Pipeline.

(** ** Notions the properties are stated with *)


(** The keywords a rule is matched with ([ks] of [matchesKeywords]):
    normalised like the haystack, the empty ones dropped. *)
Definition effectiveKeywords (e : ent) : list string :=
  filter (λ k, Js.truthy k = true) (map normalizeString (keywords e)).


(** A name that is one path segment: not empty, not [.] or [..], without a
    separator. *)
Definition noSlash (s : string) : Prop :=
  Js.sfilter (λ c, bool_decide (c = "/"%char)) s = "".

Definition plainName (s : string) : Prop :=
  s ≠ "" ∧ s ≠ "." ∧ s ≠ ".." ∧ noSlash s.

(** The relative target a rule stands for. *)
Definition ruleTarget (e : ent) : list string :=
  if Js.truthy (main e)
  then Path.relJoin (Path.relJoin [] (main e)) (category e)
  else Path.relJoin [] (category e).

(** The two rules of the keyword-precedence example of the design
    document. *)
Definition kickRules : list ent :=
  [Ent "" "Kick" ["kick"] false; Ent "" "Drums" ["kick"; "snare"] false].

(** The names [uniqueDestPath] tries, in order: the name asked for, then
    the numbered ones from [i] on. *)
Definition candidateAt (dir : path) (base ext : string) (first : path)
    (i k : nat) : path :=
  match k with
  | O => first
  | S m => Path.join dir (numbered base (i + m) ext)
  end.

(** ** Concrete hosts, archives and trees for the examples *)

(** The entries of the example archives, by the content of the archive
    file. *)
Definition exampleEntries (content : string) : option (list (string * bool * string)) :=
  if decide (content = "archive: escaping entry") then
    Some [("../evil.wav", false, "EVIL"); ("ok.wav", false, "OK")]
  else if decide (content = "archive: junk beside the folder") then
    Some [("Pack/a.wav", false, "A"); (".DS_Store", false, "junk")]
  else if decide (content = "archive: folder in a folder of its name") then
    Some [("Pack/Pack/a.wav", false, "A")]
  else if decide (content = "archive: nested wrappers") then
    Some [("Pack/Sub/a.wav", false, "A"); ("Pack/Sub/b.wav", false, "B")]
  else None.

(** An extraction library that writes every entry where its name leads. *)
Definition writeEntry (target : path) (t : result node)
    (entry : string * bool * string) : result node :=
  match t with
  | Throw e => Throw e
  | Ok t =>
      let '(name, isDirectory, data) := entry in
      if isDirectory : bool then Fs.mkdirSync (Path.join target name) t
      else
        match Fs.mkdirSync (Path.dirname (Path.join target name)) t with
        | Ok t' => Fs.writeFile (Path.join target name) data t'
        | Throw e => Throw e
        end
  end.

(** A host with one device, a digest that is the content itself, no
    durations, and the example archives. *)
Definition plainHost : collaborators := {|
  xdev := λ _ _, false;
  createHash := λ _, Some (λ content, content);
  parseDuration := λ _, Ok None;
  unzipperOpen := λ content,
    match exampleEntries content with
    | Some entries => Ok entries
    | None => Throw (LibError "not an archive")
    end;
  unrarExtract := λ content target t,
    match exampleEntries content with
    | Some entries =>
        match fold_left (writeEntry target) entries (Ok t) with
        | Ok t' => Ok (t', Some (map (λ e, (e.1.1, e.1.2)) entries))
        | Throw e => Throw e
        end
    | None => Throw (LibError "not an archive")
    end
|}.

(** A fresh world on the tree [t]. *)
Definition worldOf (t : node) : world := World t [] ∅ [] false [].

Definition libraryTree : node :=
  Dir [("in", Dir [("a.wav", File "new")]);
       ("lib", Dir [("a.wav", File "old"); ("a (2).wav", File "older")])].

Global Instance plainName_dec s : Decision (plainName s).
Proof. unfold plainName, noSlash. apply _. Defined.

(** The folder name [`${n} BPM`] is read back as the tempo [n]. *)
Definition bpmFolderReadsBack (n : nat) : bool :=
  let digits := pretty (Z.of_nat n) in
  bool_decide (matchBpmDir (digits +:+ " BPM") = Some digits)
  && bool_decide (parseDigits digits = Z.of_nat n)
  && bool_decide (plainName (digits +:+ " BPM")).

(** ** Frames of effectful code *)

(** The world after [m], seen from the world before it, stands in [R]. *)
Definition steps {A} (R : relation world) (m : M A) : Prop :=
  ∀ w, R w (m w).1.

(** [m] never throws. *)
Definition noThrow {A} (m : M A) : Prop :=
  ∀ w, ∃ a, (m w).2 = Ok a.

(** The file system is left as it was. *)
Definition sameFs : relation world := λ w w', w_fs w' = w_fs w.

(** The de-duplication index is left as it was. *)
Definition sameIndex : relation world := λ w w', w_index w' = w_index w.

(** Every entry of the de-duplication index stays. *)
Definition indexGrows : relation world := λ w w',
  ∀ h p, w_index w !! h = Some p → w_index w' !! h = Some p.

(** ** Example configurations and trees *)

Definition exampleConfig : config := {|
  samplesDir := "/src";
  destDir := "/dst";
  extensions := ["wav"; "mid"];
  moveFiles := true;
  dryRun := false;
  checkParentFolder := false;
  checkLength := false;
  lengthThreshold := 0;
  keepPackSubfolder := false;
  sortMidiToFolder := true;
  midiFolderName := "MIDI";
  keepArchives := true;
  dedupeEnabled := true;
  dedupeAlgo := "sha1";
  dedupeMode := "skip";
  dedupePreferDest := true;
  mainCategories := [];
  categories := [("Kick", ["kick"]); ("Drums", ["kick"; "snare"])];
  _flatCategories := []
|}.


Definition setDedupeMode (m : string) (c : config) : config :=
  Config (samplesDir c) (destDir c) (extensions c) (moveFiles c) (dryRun c)
    (checkParentFolder c) (checkLength c) (lengthThreshold c)
    (keepPackSubfolder c) (sortMidiToFolder c) (midiFolderName c)
    (keepArchives c) (dedupeEnabled c) (dedupeAlgo c) m
    (dedupePreferDest c) (mainCategories c) (categories c) (_flatCategories c).

(** The record [dedupe] that [startOrganizing] builds for [exampleConfig]
    with the mode [m]. *)
Definition exampleDedupe (m : string) : dedupeRec :=
  DedupeRec true "sha1" m true ["dst"; "_Duplicates"].


(** Two samples with the same content; in the destination a file stands
    where the folder [Miscellaneous] would go. *)
Definition blockedTree : node :=
  Dir [("src", Dir [("a.wav", File "same"); ("b.wav", File "same")]);
       ("dst", Dir [("Miscellaneous", File "in the way")])].

(** Two samples with the same content; in the destination a file stands
    where the folder [_Duplicates] would go. *)
Definition quarantineBlockedTree : node :=
  Dir [("src", Dir [("a.wav", File "same"); ("b.wav", File "same")]);
       ("dst", Dir [("_Duplicates", File "in the way")])].

(** Samples, and no destination yet. *)
Definition noDestTree : node :=
  Dir [("src", Dir [("kick_01.wav", File "K")])].

(** A MIDI file whose name would match the rule [Kick]. *)
Definition midiTree : node :=
  Dir [("src", Dir [("kick_groove.mid", File "MThd")]); ("dst", Dir [])].

(** The pack label [categorizeFile] computes. *)
Definition packLabelOf (cfg : config) (fullPath : path) : string :=
  if keepPackSubfolder cfg
  then Js.orElse (packLabelFromSamples fullPath (samplesDir cfg))
                 (packLabelFromTemp fullPath (destDir cfg))
  else "".

(** The folder the design document gives for MIDI files:
    [<midiFolderName>[/<packLabel>]] below the destination root. *)
Definition midiTarget (cfg : config) (fullPath : path) : path :=
  let midiRootName :=
    Js.orElse (Js.trim (Js.orElse (midiFolderName cfg) "MIDI")) "MIDI" in
  if Js.truthy (packLabelOf cfg fullPath)
  then Path.join (Path.join (Path.abs (destDir cfg)) midiRootName)
                 (packLabelOf cfg fullPath)
  else Path.join (Path.abs (destDir cfg)) midiRootName.

(** The line a dry run logs for a planned placement. *)
Definition plannedLog (cfg : config) (fileName : string) (planned : path)
    (logExtra : string) : event :=
  OrganizingLog
    ("[DRY RUN] " +:+ (if moveFiles cfg then "Moved" else "Copied") +:+ " "
     +:+ bold fileName +:+ " → " +:+ bold (Path.show planned) +:+ logExtra)
    "success".

(** The files outside the directory [root] are the same in both worlds. *)
Definition sameFilesOutside (root : path) : relation world := λ w w',
  ∀ q c, Path.isPrefix root q = false →
    Fs.lookup (w_fs w') q = Some (File c) ↔ Fs.lookup (w_fs w) q = Some (File c).

(** An archive in the samples whose first entry climbs out of the scratch
    directory. *)
Definition escapingArchiveTree : node :=
  Dir [("src", Dir [("pack.rar", File "archive: escaping entry")]);
       ("dst", Dir [])].

(** ** Flattening, in the words of the design document *)




(** Every character of [s] passes the test [P]. *)
Fixpoint allChars (P : ascii → bool) (s : string) : bool :=
  match s with
  | EmptyString => true
  | String c r => P c && allChars P r
  end.

(** ** Well-formed trees *)

(** The entries of every directory have names that are single path
    segments and differ from each other, as the entries [readdir] gives
    have. *)
Fixpoint wfNode (t : node) : bool :=
  match t with
  | File _ => true
  | Dir es =>
      bool_decide (NoDup es.*1) && bool_decide (Forall plainName es.*1)
      && (fix go (es : list (string * node)) : bool :=
            match es with
            | [] => true
            | (_, c) :: r => wfNode c && go r
            end) es
  end.

(** ** More of bpmutils.js *)

(** [walkDir(dir, callback)] on the directory [t] found at [dir]: the paths
    [callback] is called with, in order. *)
Fixpoint walkDirNode (dir : path) (t : node) {struct t} : list path :=
  match t with
  | File _ => []
  | Dir es =>
      (fix go (es : list (string * node)) : list path :=
         match es with
         | [] => []
         | (name, c) :: r =>
             match c with
             | Dir _ => walkDirNode (Path.join dir name) c
             | File _ => [Path.join dir name]
             end ++ go r
         end) es
  end.

(** [walkDir(dir, callback)] for a callback that leaves the file system as
    it is, like the two callbacks of main.js: the arguments of its calls. *)
Definition walkDir (dir : path) : M (list path) :=
  d ← fsTry (λ t, dirAt t dir); mret (walkDirNode dir d).

(** No segment of [p] below [dir] is a hidden name. *)
Definition visibleBelow (dir p : path) : bool :=
  forallb (λ s, negb (isHiddenName s)) (drop (length dir) p).

(** A destination with a pack folder, a loose file and system junk. *)
Definition junkTree : node :=
  Dir [("dst",
        Dir [("Kick", Dir [("k.wav", File "K"); ("Thumbs.db", File "t")]);
             (".DS_Store", File "junk");
             ("__MACOSX", Dir [("x.wav", File "X")]);
             ("loop.wav", File "L")])].

(** The loop of [isInsideBpmFolder]; every turn shortens [dir].  [None]
    stands for a loop that goes on after the fuel is spent. *)
Fixpoint insideBpmLoop (fuel : nat) (dir : path) : option bool :=
  match fuel with
  | O => None
  | S fuel' =>
      if isBpmDirName (Path.basename dir) then Some true
      else
        let parent := Path.dirname dir in
        if decide (parent = dir) then Some false
        else insideBpmLoop fuel' parent
  end.

(** [isInsideBpmFolder(filePath)] *)
Definition isInsideBpmFolder (filePath : path) : bool :=
  let dir := Path.dirname filePath in
  default false (insideBpmLoop (S (length dir)) dir).

(** [isDuplicatesPath(p)] *)
Definition isDuplicatesPath (p : path) : bool :=
  Js.includes (Path.show p) "/_Duplicates/"
  || bool_decide (Path.basename (Path.dirname p) = "_Duplicates").

Section KeyFolders.

Context (E : collaborators).

(** [moveFileToKeyFolder(file, keyValue, { dryRun })]; a [keyValue] that is
    [null] or [undefined] sanitises to the empty string, like the empty
    string. *)
Definition moveFileToKeyFolder (file : path) (keyValue : string)
    (dryRun : bool) : M (option path) :=
  let keyFolder := sanitizeKey keyValue in
  if negb (Js.truthy keyFolder) || negb (isKeyDirName keyFolder) then mret None
  else
    let dirNow := Path.dirname file in
    let parentName := Path.basename dirNow in
    if isKeyDirName parentName
    then mret (Some (Path.join dirNow (Path.basename file)))
    else
      let finalDir := Path.join dirNow keyFolder in
      if dryRun then mret (Some (Path.join finalDir (Path.basename file)))
      else
        fsDo (Fs.mkdirSync finalDir) ;;
        dest ← fsRead (λ t, uniqueDestPath t finalDir (Path.basename file));
        moveOrCopySyncBpm E file dest ;;
        mret (Some dest).

End KeyFolders.

(** The text [Path.show] prints after the root, for a path that is not the
    root: every segment after a separator. *)
Definition showTail (p : path) : string :=
  fold_right (λ seg acc, "/" +:+ seg +:+ acc) "" p.

(** A host on which every [rename] crosses devices. *)
Definition crossDeviceHost : collaborators := {|
  xdev := λ _ _, true;
  createHash := createHash plainHost;
  parseDuration := parseDuration plainHost;
  unzipperOpen := unzipperOpen plainHost;
  unrarExtract := unrarExtract plainHost
|}.

(** Every file of the first world at a path that [keep] holds of is in the
    second world, with the same content. *)
Definition keepsFiles (keep : path → Prop) : relation world := λ w w',
  ∀ q c, keep q →
    Fs.lookup (w_fs w) q = Some (File c) → Fs.lookup (w_fs w') q = Some (File c).

(** The files a placement of [src] has to leave alone: all of them when
    files are copied, those that are not at or below [src] when they are
    moved. *)
Definition bystander (move : bool) (src : path) (q : path) : Prop :=
  move = false ∨ Path.isPrefix src q = false.

(** The main loop leaves archives to [organizeArchive]. *)
Definition isArchive (p : path) : bool :=
  bool_decide (getExt p = "zip") || bool_decide (getExt p = "rar").

(** ** What a run sends *)

Definition isLog (ev : event) : Prop :=
  match ev with OrganizingLog _ _ => True | OrganizingDone _ _ _ => False end.

(** Between the two worlds nothing but log lines was sent. *)
Definition logsOnly : relation world := λ w w',
  ∃ logs, w_sent w' = w_sent w ++ logs ∧ Forall isLog logs.

(** What a run has sent between the two worlds: log lines and then, at
    most once and as the last event, the completion of the run. *)
Definition reportsOnce (cfg : config) : relation world := λ w w',
  ∃ logs, Forall isLog logs ∧
    (w_sent w' = w_sent w ++ logs
     ∨ ∃ moved, w_sent w' = w_sent w ++ logs
                  ++ [OrganizingDone (destDir cfg) (dryRun cfg) moved]).

(** The array [movedThisRun] is left as it was. *)
Definition sameMoved : relation world := λ w w', w_moved w' = w_moved w.

(** [exampleConfig] without de-duplication. *)
Definition noDedupeConfig : config :=
  Config (samplesDir exampleConfig) (destDir exampleConfig)
    (extensions exampleConfig) (moveFiles exampleConfig) (dryRun exampleConfig)
    (checkParentFolder exampleConfig) (checkLength exampleConfig)
    (lengthThreshold exampleConfig) (keepPackSubfolder exampleConfig)
    (sortMidiToFolder exampleConfig) (midiFolderName exampleConfig)
    (keepArchives exampleConfig) false (dedupeAlgo exampleConfig)
    (dedupeMode exampleConfig) (dedupePreferDest exampleConfig)
    (mainCategories exampleConfig) (categories exampleConfig)
    (_flatCategories exampleConfig).

(** No cancel request has come, and none is on its way. *)
Definition calm (w : world) : Prop :=
  w_cancel w = false ∧ Forall (λ b, b = false) (w_inbox w).

(** A destination that holds two files already. *)
Definition libraryTreeInDest : node :=
  Dir [("src", Dir [("b.wav", File "old")]);
       ("dst", Dir [("a.wav", File "old"); ("a (2).wav", File "older")])].

(** ** Normal forms of strings *)

(** Every white space character of [s] is a blank that does not follow
    white space; [inrun] tells that the character before [s] was white
    space. *)
Fixpoint singleBlanks (inrun : bool) (s : string) : bool :=
  match s with
  | EmptyString => true
  | String c r =>
      if Js.isSpace c
      then bool_decide (c = " "%char) && negb inrun && singleBlanks true r
      else singleBlanks false r
  end.

(** The configuration with [keepPackSubfolder] on. *)
Definition withPack (c : config) : config :=
  Config (samplesDir c) (destDir c) (extensions c) (moveFiles c) (dryRun c)
    (checkParentFolder c) (checkLength c) (lengthThreshold c)
    true (sortMidiToFolder c) (midiFolderName c)
    (keepArchives c) (dedupeEnabled c) (dedupeAlgo c) (dedupeMode c)
    (dedupePreferDest c) (mainCategories c) (categories c) (_flatCategories c).

(** The tree of [w] is well formed and its files outside [root] are those
    of [w0]. *)
Definition tidyFrom (root : path) (w0 w : world) : Prop :=
  wfNode (w_fs w) = true ∧ sameFilesOutside root w0 w.

(** ** Removing a folder, child by child *)

(** [removeFolderRecursive(folderPath)] of organizer.js statement by
    statement: when the folder exists its entries are listed and removed
    one after the other, a directory by the function itself and anything
    else with [fs.unlinkSync]; [fs.rmSync] then takes the folder.  The
    recursion runs on a fuel. *)
Fixpoint removeFolderWalk (fuel : nat) (folderPath : path) : M unit :=
  match fuel with
  | O => mret tt
  | S fuel' =>
      ex ← fsRead (λ t, Fs.existsSync t folderPath);
      if ex : bool then
        files ← fsTry (λ t, Fs.readdirSync t folderPath);
        forEach files (λ file,
          let curPath := Path.join folderPath file.1 in
          isDirectory ← fsTry (λ t, statIsDirectory t curPath);
          if isDirectory : bool then removeFolderWalk fuel' curPath
          else fsDo (Fs.unlinkSync curPath)) ;;
        fsDo (Fs.rmSync folderPath)
      else mret tt
  end.

(** Every call goes one level down, so the size of the tree bounds the
    depth of the recursion. *)
Definition removeFolderRecursiveWalk (folderPath : path) : M unit :=
  fuel ← fsRead nodeSize;
  removeFolderWalk fuel folderPath.

(** A scratch directory with what an archive left in it. *)
Definition scratchTree : node :=
  Dir [("src", Dir [("a.wav", File "A")]);
       ("dst", Dir [("_temp_pack", Dir [("Loops", Dir [("x.txt", File "X");
                                                       ("Deep", Dir [])]);
                                        ("readme.txt", File "R")]);
                    ("Kick", Dir [("kick.wav", File "K")])])].

(** * Properties *)

(** ** Strings *)

Lemma sapp_nil_l s : "" +:+ s = s.
Proof. reflexivity. Qed.

Lemma sapp_cons c s t : String c s +:+ t = String c (s +:+ t).
Proof. reflexivity. Qed.

Lemma sapp_nil_r s : s +:+ "" = s.
Proof. induction s as [|c s IH]; [done|]. by rewrite sapp_cons, IH. Qed.

Lemma sapp_assoc s t u : (s +:+ t) +:+ u = s +:+ t +:+ u.
Proof. induction s as [|c s IH]; [done|]. by rewrite !sapp_cons, IH. Qed.

Lemma slength_app s t :
  String.length (s +:+ t) = String.length s + String.length t.
Proof. induction s as [|c s IH]; [done|]. rewrite sapp_cons. simpl. by rewrite IH. Qed.

Lemma sapp_inv_tail s1 s2 t : s1 +:+ t = s2 +:+ t → s1 = s2.
Proof.
  revert s2. induction s1 as [|c s1 IH]; intros [|d s2] H.
  - done.
  - apply (f_equal String.length) in H.
    rewrite sapp_nil_l, sapp_cons in H. simpl in H. rewrite slength_app in H. lia.
  - apply (f_equal String.length) in H.
    rewrite sapp_nil_l, sapp_cons in H. simpl in H. rewrite slength_app in H. lia.
  - rewrite !sapp_cons in H. injection H as -> H. f_equal. by apply IH.
Qed.




(** ** Keyword rules *)

Lemma matchesKeywords_unfold e hay :
  matchesKeywords e hay =
  match effectiveKeywords e with
  | [] => false
  | ks =>
      if matchAll e then forallb (λ k, Js.includes (normalizeString hay) k) ks
      else existsb (λ k, Js.includes (normalizeString hay) k) ks
  end.
Proof. unfold matchesKeywords, effectiveKeywords. by case_match. Qed.


Lemma firstMatch_spec spec hay e :
  firstMatch spec hay = Some e ↔
  ∃ before after, spec = before ++ e :: after
    ∧ matchesKeywords e hay = true
    ∧ Forall (λ e', matchesKeywords e' hay = false) before.
Proof.
  induction spec as [|e0 spec IH]; simpl.
  - split; [done|]. intros ([|??] & ? & ? & _); discriminate.
  - destruct (matchesKeywords e0 hay) eqn:Hm.
    + split.
      * intros [= <-]. by exists [], spec.
      * intros ([|e1 before] & after & Heq & Hme & Hbefore).
        -- by injection Heq as -> _.
        -- injection Heq as -> _. apply Forall_cons in Hbefore as [? _]. congruence.
    + rewrite IH. split.
      * intros (before & after & -> & Hme & Hbefore).
        exists (e0 :: before), after. split_and!; [done|done|by constructor].
      * intros ([|e1 before] & after & Heq & Hme & Hbefore).
        -- injection Heq as -> _. congruence.
        -- injection Heq as -> ->. apply Forall_cons in Hbefore as [_ ?]. eauto.
Qed.

Lemma firstMatch_none spec hay :
  firstMatch spec hay = None ↔ Forall (λ e, matchesKeywords e hay = false) spec.
Proof.
  induction spec as [|e0 spec IH]; simpl.
  - split; [constructor|done].
  - destruct (matchesKeywords e0 hay) eqn:Hm.
    + split; [done|]. intros [? _]%Forall_cons. congruence.
    + rewrite IH. split; [by constructor|]. by intros [_ ?]%Forall_cons.
Qed.


Lemma lowerChar_idemp c : Js.lowerChar (Js.lowerChar c) = Js.lowerChar c.
Proof. destruct c as [[] [] [] [] [] [] [] []]; reflexivity. Qed.

(** The haystack [categorizeFile] passes is the lower-cased file name; its
    normal form is the one of the file name. *)
Lemma normalizeString_lower s :
  normalizeString (Js.toLowerCase s) = normalizeString s.
Proof.
  unfold normalizeString. f_equal. f_equal. f_equal.
  unfold Js.toLowerCase. induction s as [|c s IH]; [done|].
  simpl. by rewrite lowerChar_idemp, IH.
Qed.



(** ** Directory entries *)

Section EntriesFacts.
Context {A : Type}.
Implicit Types (es : list (string * A)) (n m : string) (v : A).

Lemma get_set_eq n v es : get n (set n v es) = Some v.
Proof.
  induction es as [|[k x] es IH]; simpl.
  - by rewrite decide_True.
  - destruct (decide (k = n)) as [->|Hne]; simpl.
    + by rewrite decide_True.
    + by rewrite decide_False.
Qed.

Lemma get_set_ne n m v es : n ≠ m → get m (set n v es) = get m es.
Proof.
  intros Hne. induction es as [|[k x] es IH]; simpl.
  - by rewrite decide_False.
  - destruct (decide (k = n)) as [->|Hkn]; simpl.
    + by rewrite !decide_False.
    + destruct (decide (k = m)); [done|apply IH].
Qed.

Lemma get_del_eq n es : get n (del n es) = None.
Proof.
  induction es as [|[k x] es IH]; simpl; [done|].
  destruct (decide (k = n)); simpl; [done|]. by rewrite decide_False.
Qed.

Lemma get_del_ne n m es : n ≠ m → get m (del n es) = get m es.
Proof.
  intros Hne. induction es as [|[k x] es IH]; simpl; [done|].
  destruct (decide (k = n)) as [->|Hkn]; simpl.
  - by rewrite decide_False.
  - by rewrite IH.
Qed.

Lemma get_Some_elem n v es : get n es = Some v → n ∈ es.*1.
Proof.
  induction es as [|[k x] es IH]; simpl; [done|].
  destruct (decide (k = n)) as [->|Hkn].
  - intros _. left.
  - intros H. right. by apply IH.
Qed.



Lemma del_notin n es : n ∉ es.*1 → del n es = es.
Proof.
  induction es as [|[k x] es IH]; simpl; [done|].
  rewrite not_elem_of_cons. intros [Hne Hnotin].
  rewrite decide_False by done. by rewrite IH.
Qed.

Lemma del_app n es1 es2 : del n (es1 ++ es2) = del n es1 ++ del n es2.
Proof.
  induction es1 as [|[k x] es1 IH]; simpl; [done|].
  destruct (decide (k = n)); simpl; by rewrite IH.
Qed.
End EntriesFacts.

(** ** Paths *)

Lemma noSlash_nil : noSlash "".
Proof. done. Qed.

Lemma noSlash_cons c s : noSlash (String c s) ↔ c ≠ "/"%char ∧ noSlash s.
Proof.
  unfold noSlash. simpl. case_bool_decide as Hc.
  - split; [done|]. by intros [? _].
  - split; [by intros ?; split|by intros [_ ?]].
Qed.

Lemma noSlash_app s t : noSlash s → noSlash t → noSlash (s +:+ t).
Proof.
  induction s as [|c s IH]; [done|].
  rewrite sapp_cons, !noSlash_cons. intros [Hc Hs] Ht. split; [done|by apply IH].
Qed.

Lemma noSlash_sdrop k s : noSlash s → noSlash (Path.sdrop k s).
Proof.
  revert s. induction k as [|k IH]; intros [|c s]; simpl; try done.
  rewrite noSlash_cons. intros [_ ?]. by apply IH.
Qed.

Lemma noSlash_stake k s : noSlash s → noSlash (Path.stake k s).
Proof.
  revert s. induction k as [|k IH]; intros [|c s]; simpl; try done.
  rewrite !noSlash_cons. intros [? ?]. split; [done|]. by apply IH.
Qed.

Lemma split_slash_noSlash s : Forall noSlash (Js.split_slash s).
Proof.
  induction s as [|c s IH]; simpl.
  - by constructor.
  - case_bool_decide as Hc.
    + by constructor.
    + destruct (Js.split_slash s) as [|h t].
      * constructor; [|done]. by apply noSlash_cons.
      * apply Forall_cons in IH as [Hh Ht].
        constructor; [|done]. by apply noSlash_cons.
Qed.

Lemma split_slash_plain s : noSlash s → Js.split_slash s = [s].
Proof.
  induction s as [|c s IH]; [done|].
  rewrite noSlash_cons. intros [Hc Hs]. simpl.
  rewrite bool_decide_eq_false_2 by done. by rewrite IH.
Qed.

Lemma last_Forall {A} (P : A → Prop) (l : list A) d :
  P d → Forall P l → P (List.last l d).
Proof.
  intros Hd. induction 1 as [|x l Hx Hl IH]; [done|].
  destruct l; [done|]. apply IH.
Qed.

Lemma basenameStr_noSlash s : noSlash (Path.basenameStr s).
Proof.
  unfold Path.basenameStr. apply last_Forall; [done|].
  apply Forall_forall. intros x [_ Hx]%list_elem_of_filter.
  revert x Hx. apply Forall_forall, split_slash_noSlash.
Qed.

Lemma extname_noSlash s : noSlash (Path.extname s).
Proof.
  unfold Path.extname. repeat case_match; try done.
  apply noSlash_sdrop, basenameStr_noSlash.
Qed.

Lemma basenameExt_noSlash s ext : noSlash (Path.basenameExt s ext).
Proof.
  unfold Path.basenameExt. case_match.
  - apply noSlash_stake, basenameStr_noSlash.
  - apply basenameStr_noSlash.
Qed.

Lemma join_plain dir name : plainName name → Path.join dir name = dir ++ [name].
Proof.
  intros (H0 & H1 & H2 & Hs). unfold Path.join.
  rewrite split_slash_plain by done. simpl. unfold Path.push.
  by rewrite !decide_False.
Qed.

(** Decimal numerals contain no separator. *)
Lemma pretty_N_char_noSlash x : pretty_N_char x ≠ "/"%char.
Proof. unfold pretty_N_char. by repeat case_match. Qed.

Lemma pretty_N_go_noSlash x s : noSlash s → noSlash (pretty_N_go x s).
Proof.
  revert s. induction (N.lt_wf_0 x) as [x _ IH]; intros s Hs.
  destruct (decide (x = 0)%N) as [->|Hx].
  - by rewrite pretty_N_go_0.
  - rewrite pretty_N_go_step by lia. apply IH.
    + apply N.div_lt; lia.
    + apply noSlash_cons. split; [apply pretty_N_char_noSlash|done].
Qed.

Lemma pretty_nat_noSlash (i : nat) : noSlash (pretty i).
Proof.
  unfold pretty, pretty_nat, pretty, pretty_N. case_decide; [done|].
  by apply pretty_N_go_noSlash.
Qed.

Lemma numbered_plain base i ext :
  noSlash base → noSlash ext → plainName (numbered base i ext).
Proof.
  intros Hb He.
  assert (Hlen : 3 ≤ String.length (numbered base i ext)).
  { unfold numbered. rewrite !slength_app. simpl. lia. }
  split_and!.
  - intros Heq. rewrite Heq in Hlen. simpl in Hlen. lia.
  - intros Heq. rewrite Heq in Hlen. simpl in Hlen. lia.
  - intros Heq. rewrite Heq in Hlen. simpl in Hlen. lia.
  - unfold numbered. repeat apply noSlash_app; try done.
    apply pretty_nat_noSlash.
Qed.

Lemma numbered_inj base ext i j :
  numbered base i ext = numbered base j ext → i = j.
Proof.
  unfold numbered. intros H.
  apply (inj (String.app base)) in H. apply (inj (String.app " (")) in H.
  apply sapp_inv_tail in H. by apply (inj pretty) in H.
Qed.

(** ** The file system *)

Lemma lookup_app t p q :
  Fs.lookup t (p ++ q) = Fs.lookup t p ≫= λ d, Fs.lookup d q.
Proof.
  revert t. induction p as [|n p IH]; intros t; simpl; [done|].
  destruct t as [c|es]; [done|]. destruct (get n es); [apply IH|done].
Qed.

Lemma lookup_child t dir n :
  Fs.lookup t (dir ++ [n]) =
  match Fs.lookup t dir with
  | Some (Dir es) => get n es
  | _ => None
  end.
Proof.
  rewrite lookup_app. destruct (Fs.lookup t dir) as [[c|es]|]; simpl; try done.
  by destruct (get n es).
Qed.

Lemma existsSync_true t p : Fs.existsSync t p = true ↔ is_Some (Fs.lookup t p).
Proof. unfold Fs.existsSync. apply bool_decide_eq_true. Qed.

Lemma existsSync_false t p : Fs.existsSync t p = false ↔ Fs.lookup t p = None.
Proof.
  unfold Fs.existsSync. rewrite bool_decide_eq_false, eq_None_not_Some. done.
Qed.

Lemma existsSync_child t dir n :
  Fs.existsSync t (dir ++ [n]) = true →
  ∃ es, Fs.lookup t dir = Some (Dir es) ∧ n ∈ es.*1.
Proof.
  rewrite existsSync_true, lookup_child. intros [v Hv].
  destruct (Fs.lookup t dir) as [[c|es]|]; try done.
  exists es. split; [done|]. by eapply get_Some_elem.
Qed.

(** Binding a fresh path leaves every file where it is. *)
Lemma put_keeps_file p v t t' q c :
  Fs.put p v t = Some t' → Fs.lookup t p = None →
  Fs.lookup t q = Some (File c) → Fs.lookup t' q = Some (File c).
Proof.
  revert t t' q. induction p as [|n p IH]; intros t t' q Hput Hfree Hq; [done|].
  destruct t as [c0|es]; [done|]. simpl in Hput, Hfree.
  destruct q as [|m q]; [done|]. simpl in Hq.
  destruct (decide (n = m)) as [->|Hne].
  - destruct (get m es) as [cm|] eqn:Hget; [|done].
    destruct (Fs.put p v cm) as [c'|] eqn:Hsub; [|done].
    injection Hput as <-. simpl. rewrite get_set_eq. eauto.
  - destruct (match get n es with Some c1 => Fs.put p v c1 | None => _ end)
      as [c'|]; [|done].
    injection Hput as <-. simpl. by rewrite get_set_ne.
Qed.

(** Unbinding a path leaves the files that are not below it. *)
Lemma rm_keeps_file p t t' q c :
  Fs.rm p t = Some t' → Path.isPrefix p q = false →
  Fs.lookup t q = Some (File c) → Fs.lookup t' q = Some (File c).
Proof.
  revert t t' q. induction p as [|n p IH]; intros t t' q Hrm Hpre Hq; [done|].
  destruct t as [c0|es]; [done|]. simpl in Hrm.
  destruct q as [|m q]; [done|]. simpl in Hq, Hpre.
  destruct (decide (n = m)) as [->|Hne].
  - rewrite bool_decide_eq_true_2 in Hpre by done. simpl in Hpre.
    destruct p as [|n' p]; [done|].
    destruct (get m es) as [cm|] eqn:Hget; [|done].
    destruct (Fs.rm (n' :: p) cm) as [c'|] eqn:Hsub; [|done].
    injection Hrm as <-. simpl. rewrite get_set_eq. eauto.
  - destruct p as [|n' p].
    + injection Hrm as <-. simpl. by rewrite get_del_ne.
    + destruct (get n es) as [cn|]; [|done].
      destruct (Fs.rm (n' :: p) cn) as [c'|]; [|done].
      injection Hrm as <-. simpl. by rewrite get_set_ne.
Qed.

(** Unbinding creates nothing. *)
Lemma rm_lookup_None p t t' q :
  Fs.rm p t = Some t' → Fs.lookup t q = None → Fs.lookup t' q = None.
Proof.
  revert t t' q. induction p as [|n p IH]; intros t t' q Hrm Hq; [done|].
  destruct t as [c0|es]; [done|]. simpl in Hrm.
  destruct q as [|m q]; [done|]. simpl in Hq.
  destruct p as [|n' p].
  - injection Hrm as <-. simpl. destruct (decide (n = m)) as [->|Hne].
    + by rewrite get_del_eq.
    + by rewrite get_del_ne.
  - destruct (get n es) as [cn|] eqn:Hget; [|done].
    destruct (Fs.rm (n' :: p) cn) as [c'|] eqn:Hsub; [|done].
    injection Hrm as <-. simpl. destruct (decide (n = m)) as [->|Hne].
    + rewrite get_set_eq. rewrite Hget in Hq. eauto.
    + by rewrite get_set_ne.
Qed.

Lemma isPrefix_refl p : Path.isPrefix p p = true.
Proof. induction p; simpl; [done|]. by rewrite bool_decide_eq_true_2. Qed.

Lemma isPrefix_spec p q : Path.isPrefix p q = true ↔ ∃ r, q = p ++ r.
Proof.
  revert q. induction p as [|a p IH]; intros q; simpl.
  - split; [by exists q|done].
  - destruct q as [|b q].
    + split; [done|]. by intros [? ?].
    + rewrite andb_true_iff, bool_decide_eq_true, IH. split.
      * intros [-> [r ->]]. by exists r.
      * intros [r [= -> ->]]. eauto.
Qed.

(** What a successful [renameSync] onto a free path does to the files. *)
Lemma renameSync_keeps_file xd src dest t t' q c :
  Fs.renameSync xd src dest t = Ok t' → Fs.lookup t dest = None →
  Path.isPrefix src q = false →
  Fs.lookup t q = Some (File c) → Fs.lookup t' q = Some (File c).
Proof.
  unfold Fs.renameSync. intros Hren Hfree Hpre Hq.
  destruct (Fs.lookup t src) as [n|]; [|done].
  destruct (Fs.lookup t (Path.dirname dest)) as [[?|?]|]; try done.
  destruct (decide (src = dest)); [by injection Hren as <-|].
  destruct (Path.isPrefix src dest); [done|].
  destruct (xd src dest); [done|]. rewrite Hfree in Hren.
  destruct (Fs.rm src t) as [t1|] eqn:Hrm; [|by destruct n].
  assert (Hput : Fs.put dest n t1 = Some t').
  { destruct n; simpl in Hren;
      destruct (Fs.put dest _ t1); simpl in Hren; by simplify_eq. }
  eapply put_keeps_file; [done| |].
  - by eapply rm_lookup_None.
  - by eapply rm_keeps_file.
Qed.

Lemma copyFileSync_keeps_file src dest t t' q c :
  Fs.copyFileSync src dest t = Ok t' → Fs.lookup t dest = None →
  Fs.lookup t q = Some (File c) → Fs.lookup t' q = Some (File c).
Proof.
  unfold Fs.copyFileSync. intros Hcp Hfree Hq. rewrite Hfree in Hcp.
  destruct (Fs.lookup t src) as [[c0|?]|]; try done.
  destruct (Fs.lookup t (Path.dirname dest)) as [[?|?]|]; try done.
  destruct (Fs.put dest (File c0) t) as [t1|] eqn:Hput; [|done].
  injection Hcp as <-. by eapply put_keeps_file.
Qed.

Lemma unlinkSync_keeps_file p t t' q c :
  Fs.unlinkSync p t = Ok t' → Path.isPrefix p q = false →
  Fs.lookup t q = Some (File c) → Fs.lookup t' q = Some (File c).
Proof.
  unfold Fs.unlinkSync. intros Hun Hpre Hq.
  destruct (Fs.lookup t p) as [[c0|?]|]; try done.
  destruct (Fs.rm p t) as [t1|] eqn:Hrm; [|done].
  injection Hun as <-. by eapply rm_keeps_file.
Qed.

Lemma copyFileSync_src_file src dest t t' :
  Fs.copyFileSync src dest t = Ok t' → ∃ c, Fs.lookup t src = Some (File c).
Proof.
  unfold Fs.copyFileSync. destruct (Fs.lookup t src) as [[c0|?]|]; try done. eauto.
Qed.

(** ** Unique destination paths *)

Lemma uniqueLoop_spec t dir base ext fuel first i :
  ∃ k, k ≤ fuel
    ∧ uniqueLoop fuel t dir base ext first i = candidateAt dir base ext first i k
    ∧ (∀ j, j < k → Fs.existsSync t (candidateAt dir base ext first i j) = true)
    ∧ (k < fuel →
       Fs.existsSync t (candidateAt dir base ext first i k) = false).
Proof.
  revert first i. induction fuel as [|fuel IH]; intros first i.
  - exists 0. split_and!; [done|done|lia|lia].
  - simpl. destruct (Fs.existsSync t first) eqn:Hex.
    + destruct (IH (Path.join dir (numbered base i ext)) (S i))
        as (k & Hk & Heq & Hbelow & Hfree).
      assert (Hshift : ∀ j, candidateAt dir base ext
                (Path.join dir (numbered base i ext)) (S i) j
              = candidateAt dir base ext first i (S j)).
      { intros [|j]; simpl; [by rewrite Nat.add_0_r|].
        by replace (i + S j) with (S (i + j)) by lia. }
      exists (S k). split_and!.
      * lia.
      * by rewrite Heq, Hshift.
      * intros [|j] Hj; [done|]. rewrite <-Hshift. apply Hbelow. lia.
      * intros Hlt. rewrite <-Hshift. apply Hfree. lia.
    + exists 0. split_and!; [lia|done|lia|done].
Qed.

(** A directory with [n] entries cannot hold [n + 1] numbered names. *)
Lemma numbered_pigeonhole t dir base ext i n :
  noSlash base → noSlash ext → entryCount t dir = n →
  ¬ ∀ m, m ≤ n →
      Fs.existsSync t (Path.join dir (numbered base (i + m) ext)) = true.
Proof.
  intros Hb He Hn Hall.
  destruct (existsSync_child t dir (numbered base (i + 0) ext)) as (es & Hdir & _).
  { rewrite <-join_plain by by apply numbered_plain. apply Hall. lia. }
  unfold entryCount in Hn. rewrite Hdir in Hn.
  set (names := (λ m, numbered base (i + m) ext) <$> seq 0 (S n)).
  assert (Hnodup : NoDup names).
  { apply NoDup_fmap_2; [|apply NoDup_seq].
    intros m1 m2 Heq. apply numbered_inj in Heq. lia. }
  assert (Hsub : names ⊆+ es.*1).
  { apply NoDup_submseteq; [done|]. intros x Hx.
    apply list_elem_of_fmap in Hx as (m & -> & Hm).
    apply elem_of_seq in Hm.
    destruct (existsSync_child t dir (numbered base (i + m) ext)) as (es' & Hdir' & Hin).
    { rewrite <-join_plain by by apply numbered_plain. apply Hall. lia. }
    rewrite Hdir in Hdir'. by injection Hdir' as <-. }
  apply submseteq_length in Hsub.
  unfold names in Hsub. rewrite !length_fmap, length_seq in Hsub. lia.
Qed.

Lemma uniqueDestPath_loop_exit t dir file :
  let ext := Path.extname file in
  let base := Path.basenameExt file ext in
  ∃ k, uniqueDestPath t dir file
       = candidateAt dir base ext (Path.join dir file) 2 k
    ∧ (∀ j, j < k →
       Fs.existsSync t (candidateAt dir base ext (Path.join dir file) 2 j) = true)
    ∧ Fs.existsSync t (uniqueDestPath t dir file) = false.
Proof.
  intros ext base. unfold uniqueDestPath. fold ext base.
  destruct (uniqueLoop_spec t dir base ext (2 + entryCount t dir)
              (Path.join dir file) 2) as (k & Hk & Heq & Hbelow & Hfree).
  exists k. split_and!; [done|done|].
  rewrite Heq. apply Hfree.
  destruct (decide (k < 2 + entryCount t dir)) as [|Hge]; [done|].
  exfalso. apply (numbered_pigeonhole t dir base ext 2 (entryCount t dir)).
  - apply basenameExt_noSlash.
  - apply extname_noSlash.
  - done.
  - intros m Hm. apply (Hbelow (S m)). lia.
Qed.

Lemma fsDo_Ok f w w' :
  fsDo f w = (w', Ok tt) → f (w_fs w) = Ok (w_fs w').
Proof.
  unfold fsDo. destruct (f (w_fs w)) as [t|e]; [|done]. by intros [= <-].
Qed.

Lemma fsDo_Throw f w w' e :
  fsDo f w = (w', Throw e) → w' = w ∧ f (w_fs w) = Throw e.
Proof.
  unfold fsDo. destruct (f (w_fs w)) as [t|e']; [done|]. by intros [= <- <-].
Qed.

(** A move or copy onto a free path overwrites no file. *)
Lemma moveOrCopySync_keeps_files E src dest move w w' q c :
  moveOrCopySync E src dest move w = (w', Ok tt) →
  Fs.lookup (w_fs w) dest = None →
  move = false ∨ Path.isPrefix src q = false →
  Fs.lookup (w_fs w) q = Some (File c) →
  Fs.lookup (w_fs w') q = Some (File c).
Proof.
  unfold moveOrCopySync. intros Hrun Hfree Hside Hq. destruct move; simpl in Hrun.
  - destruct Hside as [|Hpre]; [done|].
    unfold tryCatch in Hrun.
    destruct (fsDo (Fs.renameSync (xdev E) src dest) w) as [w1 [[]|e]] eqn:Hren.
    + injection Hrun as <-. apply fsDo_Ok in Hren.
      by eapply renameSync_keeps_file.
    + apply fsDo_Throw in Hren as [-> _].
      destruct (isEXDEV e); [|done].
      unfold mbind, M_bind in Hrun.
      destruct (fsDo (Fs.copyFileSync src dest) w) as [w2 [[]|e2]] eqn:Hcp; [|done].
      apply fsDo_Ok in Hcp. apply fsDo_Ok in Hrun.
      eapply unlinkSync_keeps_file; [done|done|].
      by eapply copyFileSync_keeps_file.
  - apply fsDo_Ok in Hrun. by eapply copyFileSync_keeps_file.
Qed.

(** Claim C1: [uniqueDestPath] returns a path that does not exist when it
    is called: the path asked for when that is free, and else the first
    free one of [base (2)ext], [base (3)ext], ... in increasing order; a
    move or copy through it therefore leaves every file that existed
    (other than a moved source) where it was, with its content. *)
Theorem C1_uniqueDestPath_free t dir file :
  let ext := Path.extname file in
  let base := Path.basenameExt file ext in
  let r := uniqueDestPath t dir file in
  Fs.existsSync t r = false
  ∧ (Fs.existsSync t (Path.join dir file) = false → r = Path.join dir file)
  ∧ (r = Path.join dir file
     ∨ ∃ i, 2 ≤ i
         ∧ r = Path.join dir (numbered base i ext)
         ∧ Fs.existsSync t (Path.join dir file) = true
         ∧ ∀ j, 2 ≤ j < i →
             Fs.existsSync t (Path.join dir (numbered base j ext)) = true)
  ∧ (∀ E src move w w' q c,
       w_fs w = t →
       moveOrCopySync E src r move w = (w', Ok tt) →
       Fs.lookup t q = Some (File c) →
       move = false ∨ Path.isPrefix src q = false →
       Fs.lookup (w_fs w') q = Some (File c))
  ∧ (∀ E src, moveOrCopySyncBpm E src r = moveOrCopySync E src r true).
Proof.
  intros ext base r.
  destruct (uniqueDestPath_loop_exit t dir file) as (k & Heq & Hbelow & Hfree).
  fold ext base r in Heq, Hfree. split_and!.
  - done.
  - intros Hfirst. subst r. unfold uniqueDestPath. simpl. by rewrite Hfirst.
  - destruct k as [|m]; [by left|]. right. exists (2 + m). split_and!.
    + lia.
    + done.
    + apply (Hbelow 0). lia.
    + intros j Hj. specialize (Hbelow (S (j - 2))). simpl in Hbelow.
      replace (S (S (j - 2))) with j in Hbelow by lia. apply Hbelow. lia.
  - intros E src move w w' q c <- Hrun Hq Hside.
    eapply moveOrCopySync_keeps_files; [done| |done|done].
    by apply existsSync_false.
  - done.
Qed.

(** The claim at work: the third name is the first free one, and the two
    files that were there keep their content. *)
Lemma C1_witness :
  let dest := uniqueDestPath libraryTree ["lib"] "a.wav" in
  let w' := (moveOrCopySync plainHost ["in"; "a.wav"] dest true
               (worldOf libraryTree)).1 in
  dest = ["lib"; "a (3).wav"]
  ∧ Fs.existsSync libraryTree dest = false
  ∧ Fs.lookup (w_fs w') ["lib"; "a.wav"] = Some (File "old")
  ∧ Fs.lookup (w_fs w') ["lib"; "a (2).wav"] = Some (File "older").
Proof.
  intros dest w'.
  destruct (C1_uniqueDestPath_free libraryTree ["lib"] "a.wav")
    as (Hfree & _ & _ & Hkeep & _).
  split_and!.
  - vm_compute. reflexivity.
  - exact Hfree.
  - apply (Hkeep plainHost ["in"; "a.wav"] true (worldOf libraryTree));
      [reflexivity|vm_compute; reflexivity|reflexivity|right; reflexivity].
  - apply (Hkeep plainHost ["in"; "a.wav"] true (worldOf libraryTree));
      [reflexivity|vm_compute; reflexivity|reflexivity|right; reflexivity].
Defined.

(** ** Tempo and key folders *)

Lemma digit_not_note c : Js.isDigit c = true → isNoteLetter c = false.
Proof. destruct c as [[] [] [] [] [] [] [] []]; vm_compute; congruence. Qed.

(** No name is a tempo folder and a key folder at once. *)
Lemma bpm_key_disjoint name : isBpmDirName name = true → isKeyDirName name = false.
Proof.
  destruct name as [|c r]; [done|].
  unfold isBpmDirName, matchBpmDir. cbn [spanChars].
  destruct (Js.isDigit c) eqn:Hd.
  - intros _. cbn [isKeyDirName]. by rewrite (digit_not_note c Hd).
  - cbn. by intros ?.
Qed.

(** With a key asked for, the guard of [moveFileToBPMFolder] that leaves a
    placed file alone never holds: outside dry run the file is moved,
    whatever its place. *)
Lemma keyed_placement_always_moves E file bpm key w :
  Js.truthy key = true → Js.truthy (sanitizeKey key) = true →
  moveFileToBPMFolder E file (Some bpm) (Some key) false w =
  (let finalDir :=
     Path.join (Path.join (firstNonBpmAncestorDir file) (pretty bpm +:+ " BPM"))
               (sanitizeKey key) in
   fsDo (Fs.mkdirSync finalDir) ;;
   dest ← fsRead (λ t, uniqueDestPath t finalDir (Path.basename file));
   moveOrCopySyncBpm E file dest ;;
   mret (Some dest)) w.
Proof.
  intros Hk Hs. unfold moveFileToBPMFolder. rewrite Hk, Hs. cbn [negb orb].
  destruct (getParentBpmValue file) as [v|] eqn:Hv; [|done].
  assert (isBpmDirName (Path.basename (Path.dirname file)) = true) as Hb.
  { unfold isBpmDirName, getParentBpmValue in *. apply bool_decide_eq_true.
    destruct (matchBpmDir _); [eauto|done]. }
  rewrite (bpm_key_disjoint _ Hb). by rewrite andb_false_r.
Qed.

Lemma bpmFolderReadsBack_all :
  forallb bpmFolderReadsBack (seq 10 990) = true.
Proof. vm_compute. reflexivity. Qed.

Lemma bpmFolder_facts (bpm : Z) :
  (10 ≤ bpm ≤ 999)%Z →
  matchBpmDir (pretty bpm +:+ " BPM") = Some (pretty bpm)
  ∧ parseDigits (pretty bpm) = bpm
  ∧ plainName (pretty bpm +:+ " BPM").
Proof.
  intros Hrange.
  pose proof bpmFolderReadsBack_all as Hall.
  rewrite forallb_forall in Hall.
  specialize (Hall (Z.to_nat bpm)).
  unfold bpmFolderReadsBack in Hall.
  rewrite Z2Nat.id in Hall by lia.
  rewrite !andb_true_iff, !bool_decide_eq_true in Hall.
  destruct Hall as [[? ?] ?]; [|done].
  apply in_seq. lia.
Qed.

(** Without a key, a file whose parent is the folder [<bpm> BPM] below a
    directory that is no tempo folder is left alone and its path is
    returned. *)
Lemma unkeyed_placement_idempotent E base (bpm : Z) name dry w :
  (10 ≤ bpm ≤ 999)%Z → isBpmDirName (Path.basename base) = false →
  plainName name →
  moveFileToBPMFolder E (base ++ [pretty bpm +:+ " BPM"; name]) (Some bpm) None dry w
  = (w, Ok (Some (base ++ [pretty bpm +:+ " BPM"; name]))).
Proof.
  intros Hrange Hbase Hname.
  destruct (bpmFolder_facts bpm Hrange) as (Hmatch & Hparse & Hplain).
  set (d := pretty bpm +:+ " BPM") in *.
  replace (base ++ [d; name]) with ((base ++ [d]) ++ [name])
    by by rewrite <-app_assoc.
  unfold moveFileToBPMFolder, getParentBpmValue, firstNonBpmAncestorDir,
    Path.dirname, Path.basename.
  rewrite removelast_last, !last_last. fold d. rewrite Hmatch. simpl.
  rewrite Hparse, bool_decide_eq_true_2 by done. simpl.
  unfold isBpmDirName at 1. unfold Path.basename. rewrite last_last, Hmatch.
  rewrite bool_decide_eq_true_2 by eauto.
  unfold Path.dirname. rewrite removelast_last.
  rewrite decide_False.
  2:{ intros Heq. apply (f_equal length) in Heq.
      rewrite length_app in Heq. simpl in Heq. lia. }
  assert (climbBpm (length (base ++ [d])) base = base) as ->.
  { rewrite length_app, Nat.add_comm. simpl. by rewrite Hbase. }
  by rewrite !join_plain.
Qed.

(** The climb of [firstNonBpmAncestorDir] ends on a directory that is no
    tempo folder: its fuel suffices. *)
Lemma climbBpm_stops fuel dir :
  length dir < fuel → isBpmDirName (Path.basename (climbBpm fuel dir)) = false.
Proof.
  revert dir. induction fuel as [|fuel IH]; intros dir Hlen; [lia|].
  simpl. destruct (isBpmDirName (Path.basename dir)) eqn:Hb; [|done].
  destruct dir as [|n dir _] using rev_ind; [done|].
  unfold Path.dirname. rewrite removelast_last.
  rewrite decide_False.
  2:{ intros Heq. apply (f_equal length) in Heq. rewrite length_app in Heq.
      simpl in Heq. lia. }
  apply IH. rewrite length_app in Hlen. simpl in Hlen. lia.
Qed.

Lemma firstNonBpmAncestorDir_stops file :
  isBpmDirName (Path.basename (firstNonBpmAncestorDir file)) = false.
Proof. unfold firstNonBpmAncestorDir. apply climbBpm_stops. lia. Qed.

(** Claim C3 at the failing input: a file that a first call has placed in
    [lib/120 BPM/C Maj] is moved again, two folders deeper, by a second
    call with the same tempo and key. *)
Theorem C3_keyed_placement_moves_again :
  let w0 := worldOf (Dir [("lib", Dir [("a.wav", File "AAA")])]) in
  let first := moveFileToBPMFolder plainHost ["lib"; "a.wav"]
                 (Some 120%Z) (Some "C Maj") false w0 in
  let second := moveFileToBPMFolder plainHost ["lib"; "120 BPM"; "C Maj"; "a.wav"]
                  (Some 120%Z) (Some "C Maj") false first.1 in
  first.2 = Ok (Some ["lib"; "120 BPM"; "C Maj"; "a.wav"])
  ∧ second.2 = Ok (Some ["lib"; "120 BPM"; "C Maj"; "120 BPM"; "C Maj"; "a.wav"])
  ∧ Fs.lookup (w_fs second.1) ["lib"; "120 BPM"; "C Maj"; "a.wav"] = None
  ∧ Fs.lookup (w_fs second.1)
      ["lib"; "120 BPM"; "C Maj"; "120 BPM"; "C Maj"; "a.wav"] = Some (File "AAA").
Proof. vm_compute. done. Qed.

(** ** Frames of effectful code *)

Global Instance sameFs_preorder : PreOrder sameFs.
Proof.
  split; [by intros w|]. intros w1 w2 w3 H12 H23. unfold sameFs in *. congruence.
Qed.

Global Instance sameIndex_preorder : PreOrder sameIndex.
Proof.
  split; [by intros w|]. intros w1 w2 w3 H12 H23. unfold sameIndex in *. congruence.
Qed.

Global Instance indexGrows_preorder : PreOrder indexGrows.
Proof.
  split; [by intros w h p|]. intros w1 w2 w3 H12 H23 h p Hh. by apply H23, H12.
Qed.

Lemma sameIndex_grows w w' : sameIndex w w' → indexGrows w w'.
Proof. intros H h p. unfold sameIndex in H. by rewrite H. Qed.

Section Frames.
Context (R : relation world) `{!PreOrder R}.

Lemma steps_ret {A} (a : A) : steps R (mret a).
Proof. intros w. simpl. reflexivity. Qed.

Lemma steps_throw {A} (e : error) : steps R (mthrow e : M A).
Proof. intros w. simpl. reflexivity. Qed.

Lemma steps_bind {A B} (m : M A) (k : A → M B) :
  steps R m → (∀ a, steps R (k a)) → steps R (m ≫= k).
Proof.
  intros Hm Hk w. unfold mbind, M_bind. specialize (Hm w).
  destruct (m w) as [w1 [a|e]]; simpl in *; [|done].
  etrans; [done|]. apply Hk.
Qed.

Lemma steps_tryCatch {A} (m : M A) (h : error → M A) :
  steps R m → (∀ e, steps R (h e)) → steps R (tryCatch m h).
Proof.
  intros Hm Hh w. unfold tryCatch. specialize (Hm w).
  destruct (m w) as [w1 [a|e]]; simpl in *; [done|].
  etrans; [done|]. apply Hh.
Qed.

Lemma steps_forEach {A} (l : list A) (body : A → M unit) :
  (∀ x, steps R (body x)) → steps R (forEach l body).
Proof.
  intros Hbody. induction l as [|x l IH]; simpl.
  - apply steps_ret.
  - apply steps_bind; [apply Hbody|by intros _].
Qed.

Lemma steps_fsRead {A} (f : node → A) : steps R (fsRead f).
Proof. intros w. simpl. reflexivity. Qed.

Lemma steps_fsTry {A} (f : node → result A) : steps R (fsTry f).
Proof. intros w. simpl. reflexivity. Qed.

Lemma steps_liftResult {A} (r : result A) : steps R (liftResult r).
Proof. intros w. simpl. reflexivity. Qed.

Lemma steps_getCancel : steps R getCancel.
Proof. intros w. simpl. reflexivity. Qed.

Lemma steps_indexGet h : steps R (indexGet h).
Proof. intros w. simpl. reflexivity. Qed.

Lemma steps_getMoved : steps R getMoved.
Proof. intros w. simpl. reflexivity. Qed.

End Frames.

Lemma steps_weaken {A} (R1 R2 : relation world) (m : M A) :
  (∀ w w', R1 w w' → R2 w w') → steps R1 m → steps R2 m.
Proof. intros Himp Hm w. apply Himp, Hm. Qed.

(** What the primitives leave alone. *)
Lemma sameFs_send ev : steps sameFs (send ev).
Proof. by intros w. Qed.
Lemma sameFs_setCancel b : steps sameFs (setCancel b).
Proof. by intros w. Qed.
Lemma sameFs_suspend : steps sameFs suspend.
Proof. intros w. unfold suspend. by destruct (w_inbox w). Qed.
Lemma sameFs_indexSet h p : steps sameFs (indexSet h p).
Proof. by intros w. Qed.
Lemma sameFs_indexNew : steps sameFs indexNew.
Proof. by intros w. Qed.
Lemma sameFs_movedNew : steps sameFs movedNew.
Proof. by intros w. Qed.
Lemma sameFs_movedPush r : steps sameFs (movedPush r).
Proof. intros w. by destruct r. Qed.

Lemma sameIndex_send ev : steps sameIndex (send ev).
Proof. by intros w. Qed.
Lemma sameIndex_setCancel b : steps sameIndex (setCancel b).
Proof. by intros w. Qed.
Lemma sameIndex_suspend : steps sameIndex suspend.
Proof. intros w. unfold suspend. by destruct (w_inbox w). Qed.
Lemma sameIndex_fsDo f : steps sameIndex (fsDo f).
Proof. intros w. unfold fsDo. by destruct (f (w_fs w)). Qed.
Lemma sameIndex_movedNew : steps sameIndex movedNew.
Proof. by intros w. Qed.
Lemma sameIndex_movedPush r : steps sameIndex (movedPush r).
Proof. intros w. by destruct r. Qed.

Create HintDb frame discriminated.

#[export] Hint Resolve steps_ret steps_throw steps_fsRead steps_fsTry
  steps_liftResult steps_getCancel steps_indexGet steps_getMoved
  sameFs_send sameFs_setCancel sameFs_suspend sameFs_indexSet sameFs_indexNew
  sameFs_movedNew sameFs_movedPush
  sameIndex_send sameIndex_setCancel sameIndex_suspend sameIndex_fsDo
  sameIndex_movedNew sameIndex_movedPush : frame.
#[export] Hint Extern 1 (PreOrder _) => apply _ : frame.

Lemma steps_grows_of_same {A} (m : M A) : steps sameIndex m → steps indexGrows m.
Proof. apply steps_weaken, sameIndex_grows. Qed.

#[export] Hint Extern 5 (steps indexGrows _) =>
  apply steps_grows_of_same : frame.

(** Walk down the code of a computation, leaving the calls the hints do
    not know. *)
Ltac frame :=
  repeat first
    [ solve [eauto with frame]
    | match goal with
      | |- steps _ (sendLog _ _) => unfold sendLog
      | |- steps _ (mbind _ _) => apply steps_bind; [apply _| |intros ?]
      | |- steps _ (tryCatch _ _) => apply steps_tryCatch; [apply _| |intros ?]
      | |- steps _ (forEach _ _) => apply steps_forEach; [apply _|intros ?]
      | |- steps _ (if ?b then _ else _) => destruct b
      | |- steps _ (match ?x with _ => _ end) => destruct x
      end ].

(** *** Code that never throws *)

Lemma noThrow_ret {A} (a : A) : noThrow (mret a).
Proof. intros w. by exists a. Qed.

Lemma noThrow_bind {A B} (m : M A) (k : A → M B) :
  noThrow m → (∀ a, noThrow (k a)) → noThrow (m ≫= k).
Proof.
  intros Hm Hk w. unfold mbind, M_bind. destruct (Hm w) as [a Ha].
  destruct (m w) as [w1 r]. simpl in Ha. subst r. apply Hk.
Qed.

Lemma noThrow_tryCatch {A} (m : M A) (h : error → M A) :
  (∀ e, noThrow (h e)) → noThrow (tryCatch m h).
Proof.
  intros Hh w. unfold tryCatch. destruct (m w) as [w1 [a|e]]; [by exists a|].
  apply Hh.
Qed.

Lemma noThrow_fsRead {A} (f : node → A) : noThrow (fsRead f).
Proof. intros w. by eexists. Qed.
Lemma noThrow_send ev : noThrow (send ev).
Proof. intros w. by eexists. Qed.
Lemma noThrow_getCancel : noThrow getCancel.
Proof. intros w. by eexists. Qed.
Lemma noThrow_setCancel b : noThrow (setCancel b).
Proof. intros w. by eexists. Qed.
Lemma noThrow_indexGet h : noThrow (indexGet h).
Proof. intros w. by eexists. Qed.
Lemma noThrow_indexSet h p : noThrow (indexSet h p).
Proof. intros w. by eexists. Qed.
Lemma noThrow_suspend : noThrow suspend.
Proof. intros w. unfold suspend. destruct (w_inbox w); by eexists. Qed.
Lemma noThrow_movedPush r : noThrow (movedPush r).
Proof. intros w. destruct r; by eexists. Qed.
Lemma noThrow_getMoved : noThrow getMoved.
Proof. intros w. by eexists. Qed.

#[export] Hint Resolve noThrow_ret noThrow_fsRead noThrow_send
  noThrow_getCancel noThrow_setCancel noThrow_indexGet noThrow_indexSet
  noThrow_suspend noThrow_movedPush noThrow_getMoved : frame.

Ltac no_throw :=
  repeat first
    [ solve [eauto with frame]
    | match goal with
      | |- noThrow (sendLog _ _) => unfold sendLog
      | |- noThrow (mbind _ _) => apply noThrow_bind; [|intros ?]
      | |- noThrow (tryCatch _ _) => apply noThrow_tryCatch; intros ?
      | |- noThrow (if ?b then _ else _) => destruct b
      | |- noThrow (match ?x with _ => _ end) => destruct x
      end ].

(** ** The pipeline, stage by stage *)

Section PipelineFacts.
Context (E : collaborators).

Lemma computeFileHash_sameFs p a : steps sameFs (computeFileHash E p a).
Proof. unfold computeFileHash. frame. Qed.

Lemma computeFileHash_sameIndex p a : steps sameIndex (computeFileHash E p a).
Proof. unfold computeFileHash. frame. Qed.

Lemma moveOrCopySync_sameIndex src dest move :
  steps sameIndex (moveOrCopySync E src dest move).
Proof. unfold moveOrCopySync. frame. Qed.

Lemma lengthStage_sameFs p n cfg rel : steps sameFs (lengthStage E p n cfg rel).
Proof. unfold lengthStage. frame. Qed.

Lemma lengthStage_sameIndex p n cfg rel : steps sameIndex (lengthStage E p n cfg rel).
Proof. unfold lengthStage. frame. Qed.

Lemma lengthStage_noThrow p n cfg rel : noThrow (lengthStage E p n cfg rel).
Proof. unfold lengthStage. no_throw. Qed.

Lemma placeFile_sameIndex p n cfg target extra :
  steps sameIndex (placeFile E p n cfg target extra).
Proof.
  unfold placeFile. pose proof moveOrCopySync_sameIndex. frame.
Qed.

Lemma placeFile_noThrow p n cfg target extra :
  noThrow (placeFile E p n cfg target extra).
Proof. unfold placeFile. no_throw. Qed.


(** The index is only written at a hash it does not hold yet. *)
Lemma indexInsert_grows {A} h p (found : path → M A) (fresh : M A) :
  (∀ f, steps indexGrows (found f)) → steps indexGrows fresh →
  steps indexGrows
    (firstSeen ← indexGet h;
     match firstSeen with
     | Some f => found f
     | None => indexSet h p ;; fresh
     end).
Proof.
  intros Hfound Hfresh w. unfold mbind, M_bind, indexGet.
  destruct (w_index w !! h) as [f|] eqn:Hh.
  - apply Hfound.
  - unfold indexSet. etrans; [|apply Hfresh].
    intros h' p' Hh'. simpl. rewrite lookup_insert_ne; [done|congruence].
Qed.

Lemma dedupeStage_indexGrows p n cfg d :
  steps indexGrows (dedupeStage E p n cfg d).
Proof.
  unfold dedupeStage, onDuplicate, onHashingFailed.
  pose proof moveOrCopySync_sameIndex.
  pose proof computeFileHash_sameIndex.
  destruct d as [d|]; [|frame]. destruct (negb (enabled d)); [frame|].
  apply steps_bind; [apply _|frame|intros cancel]. destruct cancel; [frame|].
  apply steps_tryCatch; [apply _| |intros e; frame].
  apply steps_bind; [apply _|frame|intros hash].
  apply indexInsert_grows; [intros first|]; frame.
Qed.

Lemma dedupeStage_noThrow p n cfg d : noThrow (dedupeStage E p n cfg d).
Proof. unfold dedupeStage, onHashingFailed. no_throw. Qed.


Lemma categorizeFile_indexGrows p cfg d :
  steps indexGrows (categorizeFile E p cfg d).
Proof.
  unfold categorizeFile. cbv zeta.
  pose proof dedupeStage_indexGrows. pose proof lengthStage_sameIndex.
  pose proof placeFile_sameIndex. frame.
Qed.

Lemma categorizeFile_noThrow p cfg d : noThrow (categorizeFile E p cfg d).
Proof.
  unfold categorizeFile. cbv zeta.
  pose proof dedupeStage_noThrow. pose proof lengthStage_noThrow.
  pose proof placeFile_noThrow. no_throw.
Qed.



Lemma seedLoop_noThrow files cfg d seeded j :
  noThrow (seedLoop E files cfg d seeded j).
Proof.
  revert seeded j. induction files as [|f files IH]; intros seeded j; simpl; no_throw.
Qed.

Lemma extractedLoop_noThrow files cfg d k :
  noThrow (extractedLoop E files cfg d k).
Proof.
  pose proof categorizeFile_noThrow.
  revert k. induction files as [|f files IH]; intros k; simpl; no_throw.
Qed.



Lemma unrar_sameIndex file destination : steps sameIndex (unrar E file destination).
Proof.
  intros w. unfold unrar. destruct (Fs.readFile (w_fs w) file); [|done].
  by destruct (unrarExtract E _ _ _) as [[??]|?].
Qed.

Lemma flattenLoop_sameIndex fuel folder items :
  steps sameIndex (flattenLoop E fuel folder items).
Proof.
  revert items. induction fuel as [|fuel IH]; intros items; simpl; frame.
Qed.

Lemma flattenLoopRar_sameIndex fuel folder items :
  steps sameIndex (flattenLoopRar E fuel folder items).
Proof.
  revert items. induction fuel as [|fuel IH]; intros items; simpl; frame.
Qed.

Lemma extractZip_sameIndex zipPath dest keep :
  steps sameIndex (extractZip E zipPath dest keep).
Proof.
  pose proof flattenLoop_sameIndex.
  unfold extractZip, flattenAndCollect, flattenSingleFolders, walkFiles,
    extractEntry. frame.
Qed.

Lemma extractRarArchive_sameIndex file dest keep :
  steps sameIndex (extractRarArchive E file dest keep).
Proof.
  pose proof flattenLoopRar_sameIndex. pose proof unrar_sameIndex.
  unfold extractRarArchive, flattenSingleFoldersRar. frame.
Qed.

Lemma extractedLoop_indexGrows files cfg d k :
  steps indexGrows (extractedLoop E files cfg d k).
Proof.
  pose proof categorizeFile_indexGrows.
  revert k. induction files as [|f files IH]; intros k; simpl; frame.
Qed.

Lemma organizeArchive_indexGrows p n ext temp cfg d :
  steps indexGrows (organizeArchive E p n ext temp cfg d).
Proof.
  pose proof extractZip_sameIndex. pose proof extractRarArchive_sameIndex.
  pose proof extractedLoop_indexGrows.
  unfold organizeArchive, removeFolderRecursive, getAllFiles. frame.
Qed.

Lemma fileLoop_indexGrows files cfg d i :
  steps indexGrows (fileLoop E files cfg d i).
Proof.
  pose proof categorizeFile_indexGrows. pose proof organizeArchive_indexGrows.
  revert i. induction files as [|f files IH]; intros i; simpl; frame.
Qed.


End PipelineFacts.

(** ** Hashing failures *)

Section Deduplication.
Context (E : collaborators).

Lemma categorizeFile_plain_sameIndex p cfg :
  steps sameIndex (categorizeFile E p cfg None).
Proof.
  unfold categorizeFile, dedupeStage. cbv zeta.
  pose proof (lengthStage_sameIndex E). pose proof (placeFile_sameIndex E). frame.
Qed.



Lemma dedupeStage_fresh fullPath fileName cfg d w w1 h :
  enabled d = true → w_cancel w = false →
  computeFileHash E fullPath (algo d) w = (w1, Ok h) →
  w_index w !! h = None →
  dedupeStage E fullPath fileName cfg (Some d) w
  = (withIndex (<[h := fullPath]> (w_index w)) w1, Ok false).
Proof.
  intros Hen Hcancel Hhash Hfresh. unfold dedupeStage. rewrite Hen. cbn [negb].
  unfold mbind at 1, M_bind at 1. unfold getCancel. rewrite Hcancel.
  pose proof (computeFileHash_sameIndex E fullPath (algo d) w) as Hsame.
  rewrite Hhash in Hsame. unfold sameIndex in Hsame. simpl in Hsame.
  unfold tryCatch, mbind, M_bind. rewrite Hhash.
  unfold indexGet, indexSet. rewrite Hsame, Hfresh. cbn. by rewrite Hsame.
Qed.

Lemma dedupeStage_known fullPath fileName cfg d w w1 h first :
  enabled d = true → w_cancel w = false →
  computeFileHash E fullPath (algo d) w = (w1, Ok h) →
  w_index w !! h = Some first →
  dedupeStage E fullPath fileName cfg (Some d) w
  = tryCatch (onDuplicate E fullPath fileName cfg d first ;; mret true)
             (onHashingFailed fileName) w1.
Proof.
  intros Hen Hcancel Hhash Hknown. unfold dedupeStage. rewrite Hen. cbn [negb].
  unfold mbind at 1, M_bind at 1. unfold getCancel. rewrite Hcancel.
  pose proof (computeFileHash_sameIndex E fullPath (algo d) w) as Hsame.
  rewrite Hhash in Hsame. unfold sameIndex in Hsame. simpl in Hsame.
  unfold tryCatch, mbind, M_bind. rewrite Hhash.
  unfold indexGet. by rewrite Hsame, Hknown.
Qed.

(** Claim C10: a file that hashes to a hash the index does not hold is
    recorded under it before it is placed, and the entry is there after
    [categorizeFile] whatever became of the placement, and stays for the
    rest of the run; a later file with the same hash is handed to the
    duplicate policy with the recorded path as its first occurrence, so
    that it is only reported under dry run and under the policy skip. *)
Theorem C10_recorded_before_placed fullPath cfg d w w1 h :
  isHiddenName (Path.basename fullPath) = false →
  isAcceptedExt fullPath cfg = true →
  enabled d = true → w_cancel w = false →
  computeFileHash E fullPath (algo d) w = (w1, Ok h) →
  w_index w !! h = None →
  let after := categorizeFile E fullPath cfg (Some d) w in
  dedupeStage E fullPath (Path.basename fullPath) cfg (Some d) w
    = (withIndex (<[h := fullPath]> (w_index w)) w1, Ok false)
  ∧ w_index after.1 = <[h := fullPath]> (w_index w)
  ∧ (∀ files i, w_index (fileLoop E files cfg d i after.1).1 !! h = Some fullPath)
  ∧ (∀ later w2 w3,
       w_index w2 !! h = Some fullPath → w_cancel w2 = false →
       computeFileHash E later (algo d) w2 = (w3, Ok h) →
       dedupeStage E later (Path.basename later) cfg (Some d) w2
       = tryCatch
           (onDuplicate E later (Path.basename later) cfg d fullPath ;; mret true)
           (onHashingFailed (Path.basename later)) w3)
  ∧ (∀ later w2 w3,
       w_index w2 !! h = Some fullPath → w_cancel w2 = false →
       computeFileHash E later (algo d) w2 = (w3, Ok h) →
       isHiddenName (Path.basename later) = false →
       isAcceptedExt later cfg = true →
       dryRun cfg = true ∨ mode d = "skip" →
       ∃ notice,
         categorizeFile E later cfg (Some d) w2
         = (withSent (w_sent w3 ++ [OrganizingLog notice "warning"]) w3, Ok None)).
Proof.
  intros Hhidden Hacc Hen Hcancel Hhash Hfresh after.
  pose proof (dedupeStage_fresh fullPath (Path.basename fullPath) cfg d w w1 h
                Hen Hcancel Hhash Hfresh) as Hstage.
  assert (Hafter : w_index after.1 = <[h := fullPath]> (w_index w)).
  { subst after. unfold categorizeFile. cbv zeta. rewrite Hhidden, Hacc. cbn [negb].
    unfold mbind at 1, M_bind at 1. rewrite Hstage.
    pose proof (categorizeFile_plain_sameIndex fullPath cfg
                  (withIndex (<[h := fullPath]> (w_index w)) w1)) as Hsame.
    unfold sameIndex, categorizeFile, dedupeStage in Hsame. cbv zeta in Hsame.
    rewrite Hhidden, Hacc in Hsame. exact Hsame. }
  split_and!.
  - done.
  - done.
  - intros files i. apply (fileLoop_indexGrows E files cfg d i after.1).
    rewrite Hafter. apply lookup_insert_eq.
  - intros later w2 w3 Hknown Hc Hh. by eapply dedupeStage_known.
  - intros later w2 w3 Hknown Hc Hh Hhid Hac Hpolicy.
    pose proof (dedupeStage_known later (Path.basename later) cfg d w2 w3 h
                  fullPath Hen Hc Hh Hknown) as Hd.
    unfold categorizeFile. cbv zeta. rewrite Hhid, Hac. cbn [negb].
    unfold mbind at 1, M_bind at 1. rewrite Hd.
    unfold onDuplicate. destruct Hpolicy as [Hdry|Hskip].
    + rewrite Hdry. eexists. reflexivity.
    + destruct (dryRun cfg); [eexists; reflexivity|].
      rewrite decide_True by done. eexists. reflexivity.
Qed.

End Deduplication.


Lemma C10_witness :
  let w := worldOf blockedTree in
  let d := exampleDedupe "skip" in
  let after := categorizeFile plainHost ["src"; "a.wav"] exampleConfig (Some d) w in
  after.2 = Ok None
  ∧ w_fs after.1 = blockedTree
  ∧ w_index after.1 = <["same" := ["src"; "a.wav"]]> ∅
  ∧ ∃ notice,
      categorizeFile plainHost ["src"; "b.wav"] exampleConfig (Some d) after.1
      = (withSent (w_sent after.1 ++ [OrganizingLog notice "warning"]) after.1,
         Ok None).
Proof.
  intros w d after.
  destruct (C10_recorded_before_placed plainHost ["src"; "a.wav"]
              exampleConfig d w w "same")
    as (_ & Hindex & _ & _ & Hlater);
    [reflexivity|reflexivity|reflexivity|reflexivity|vm_compute; reflexivity
    |reflexivity|].
  split_and!.
  - vm_compute. reflexivity.
  - vm_compute. reflexivity.
  - exact Hindex.
  - apply (Hlater ["src"; "b.wav"] after.1 after.1).
    + vm_compute. reflexivity.
    + vm_compute. reflexivity.
    + vm_compute. reflexivity.
    + reflexivity.
    + reflexivity.
    + right. reflexivity.
Defined.

(** Claim C4 at the failing input: with the policy quarantine and a file in
    the way of the folder [_Duplicates], the second of two files with the
    same content is neither skipped nor quarantined: its failed move is
    logged as a hashing failure and the file is classified and moved like
    the first. *)
Theorem C4_failed_quarantine_is_classified :
  let cfg := setDedupeMode "quarantine" exampleConfig in
  let w' := (startOrganizing plainHost cfg (worldOf quarantineBlockedTree)).1 in
  w_fs w' =
    Dir [("src", Dir []);
         ("dst", Dir [("_Duplicates", File "in the way");
                      ("Miscellaneous",
                       Dir [("a.wav", File "same"); ("b.wav", File "same")])])]
  ∧ w_moved w' =
      [(["src"; "a.wav"], ["dst"; "Miscellaneous"; "a.wav"]);
       (["src"; "b.wav"], ["dst"; "Miscellaneous"; "b.wav"])]
  ∧ w_sent w' !! 5 = Some (OrganizingLog "Hashing failed for <b>b.wav</b>: ENOTDIR" "error")
  ∧ w_sent w' !! 6 = Some (OrganizingLog
      "Moved <b>b.wav</b> → <b>/dst/Miscellaneous/b.wav</b>" "success").
Proof. vm_compute. done. Qed.

(** ** MIDI files and dry runs *)

Section Placement.
Context (E : collaborators).


Lemma uniqueDestPath_shape t dir file :
  uniqueDestPath t dir file = Path.join dir file
  ∨ ∃ i, 2 ≤ i ∧
      uniqueDestPath t dir file
      = Path.join dir (numbered (Path.basenameExt file (Path.extname file)) i
                                (Path.extname file)).
Proof.
  destruct (uniqueDestPath_loop_exit t dir file) as ([|m] & Heq & _).
  - by left.
  - right. exists (2 + m). split; [lia|done].
Qed.

Lemma placeFile_dry p n cfg target extra w :
  dryRun cfg = true →
  placeFile E p n cfg target extra w
  = (withSent (w_sent w ++ [plannedLog cfg n (Path.join target n) extra]) w,
     Ok (Some (p, Path.join target n))).
Proof. intros Hdry. unfold placeFile. rewrite Hdry. reflexivity. Qed.

Lemma placeFile_result p n cfg target extra w w' src dest :
  placeFile E p n cfg target extra w = (w', Ok (Some (src, dest))) →
  src = p ∧
  if dryRun cfg then dest = Path.join target n
  else ∃ t, dest = uniqueDestPath t target n.
Proof.
  destruct (dryRun cfg) eqn:Hdry.
  - rewrite placeFile_dry by done. by intros [= _ <- <-].
  - unfold placeFile. rewrite Hdry. cbn [negb]. unfold tryCatch.
    unfold mbind, M_bind.
    destruct (fsDo (Fs.mkdirSync target) w) as [w1 [[]|e1]]; [|by intros [=]].
    unfold fsRead.
    destruct (moveOrCopySync E p _ (moveFiles cfg) w1) as [w2 [[]|e2]];
      [|by intros [=]].
    intros [= _ <- <-]. split; [done|]. eauto.
Qed.

(** Claim C8: a file with a MIDI extension that is placed while
    [sortMidiToFolder] is on goes into [<midiFolderName>[/<packLabel>]]
    below the destination root, under its own name or a numbered one;
    neither the category rules, nor the parent folder, nor the length
    threshold have a part in the target. *)
Theorem C8_midi_target fullPath cfg dedupe w w' src dest :
  sortMidiToFolder cfg = true →
  getExt fullPath = "mid" ∨ getExt fullPath = "midi" →
  categorizeFile E fullPath cfg dedupe w = (w', Ok (Some (src, dest))) →
  let fileName := Path.basename fullPath in
  let target := midiTarget cfg fullPath in
  src = fullPath
  ∧ (dest = Path.join target fileName
     ∨ ∃ i, 2 ≤ i ∧
         dest = Path.join target
                  (numbered (Path.basenameExt fileName (Path.extname fileName)) i
                            (Path.extname fileName)))
  ∧ (dryRun cfg = true → dest = Path.join target fileName).
Proof.
  intros Hsort Hext Hrun fileName target.
  assert (Hmidi : bool_decide (getExt fullPath = "mid")
                  || bool_decide (getExt fullPath = "midi") = true).
  { destruct Hext as [-> | ->]; reflexivity. }
  unfold categorizeFile in Hrun. cbv zeta in Hrun.
  destruct (isHiddenName (Path.basename fullPath)); [by injection Hrun|].
  destruct (negb (isAcceptedExt fullPath cfg)).
  { unfold mbind, M_bind, sendLog, send in Hrun. by injection Hrun. }
  unfold mbind at 1, M_bind at 1 in Hrun.
  destruct (dedupeStage E fullPath _ cfg dedupe w) as [w1 [[]|e1]];
    [by injection Hrun| |by injection Hrun].
  destruct (baseTarget cfg _ _) as [targetRel0 usedParent].
  unfold mbind at 1, M_bind at 1 in Hrun.
  destruct (lengthStage E fullPath _ cfg targetRel0 w1) as [w2 [targetRel|e2]];
    [|by injection Hrun].
  rewrite Hsort, Hmidi in Hrun. cbn [andb] in Hrun.
  apply placeFile_result in Hrun as [-> Hdest].
  split; [done|]. fold fileName in Hdest.
  change (if Js.truthy _ then _ else _) with target in Hdest.
  destruct (dryRun cfg).
  - split; [by left|done].
  - destruct Hdest as [t ->]. split; [apply uniqueDestPath_shape|done].
Qed.

End Placement.

Lemma C8_witness :
  let cfg := withFlat kickRules exampleConfig in
  let run := categorizeFile plainHost ["src"; "kick_groove.mid"] cfg
               (Some (exampleDedupe "skip")) (worldOf midiTree) in
  run.2 = Ok (Some (["src"; "kick_groove.mid"], ["dst"; "MIDI"; "kick_groove.mid"]))
  ∧ (["dst"; "MIDI"; "kick_groove.mid"] = Path.join (midiTarget cfg ["src"; "kick_groove.mid"]) "kick_groove.mid"
     ∨ ∃ i, 2 ≤ i ∧
         ["dst"; "MIDI"; "kick_groove.mid"]
         = Path.join (midiTarget cfg ["src"; "kick_groove.mid"])
             (numbered "kick_groove" i ".mid")).
Proof.
  intros cfg run.
  assert (Hrun : run = (run.1, Ok (Some (["src"; "kick_groove.mid"],
                                         ["dst"; "MIDI"; "kick_groove.mid"]))))
    by (vm_compute; reflexivity).
  split; [by rewrite Hrun|].
  destruct (C8_midi_target plainHost ["src"; "kick_groove.mid"] cfg
              (Some (exampleDedupe "skip")) (worldOf midiTree) run.1
              ["src"; "kick_groove.mid"] ["dst"; "MIDI"; "kick_groove.mid"])
    as (_ & Hdest & _); [reflexivity|left; reflexivity|exact Hrun|].
  exact Hdest.
Defined.

Section DryRun.
Context (E : collaborators).


Lemma startOrganizing_cases cfg w :
  startOrganizing E cfg w =
  let w0 := withCancel false w in
  if negb (existsStr (w_fs w) (samplesDir cfg)) then
    sendLog ("Error: Samples directory " +:+ bold (samplesDir cfg)
             +:+ " does not exist") "error" w0
  else if negb (Js.truthy (destDir cfg)) then
    sendLog "Error: Destination directory is empty." "error" w0
  else if existsStr (w_fs w) (destDir cfg) then organizeBody E cfg w0
  else
    match Fs.mkdirSync (Path.abs (destDir cfg)) (w_fs w) with
    | Ok t =>
        organizeBody E cfg
          (withSent (w_sent w ++
             [OrganizingLog ("Created destination folder " +:+ bold (destDir cfg)
                             +:+ ".") "info"]) (withFs t w0))
    | Throw e =>
        (withSent (w_sent w ++
           [OrganizingLog ("Error: Could not create destination folder "
                           +:+ bold (destDir cfg) +:+ ": " +:+ message e) "error"])
           w0, Ok tt)
    end.
Proof.
  unfold startOrganizing. cbv zeta.
  unfold mbind at 1, M_bind at 1. cbn [setCancel].
  unfold mbind at 1, M_bind at 1. cbn [fsRead w_fs withCancel].
  destruct (existsStr (w_fs w) (samplesDir cfg)); cbn [negb]; [|done].
  destruct (Js.truthy (destDir cfg)); cbn [negb]; [|done].
  unfold mbind at 1, M_bind at 1. cbn [fsRead w_fs withCancel].
  destruct (existsStr (w_fs w) (destDir cfg)); cbn [negb]; [done|].
  unfold mbind at 1, M_bind at 1. unfold tryCatch.
  unfold mbind at 1, M_bind at 1. unfold fsDo at 1. cbn [w_fs withCancel].
  by destruct (Fs.mkdirSync (Path.abs (destDir cfg)) (w_fs w)).
Qed.


End DryRun.



(** ** Archive expansion: the traversal guard *)

Lemma lookup_nil_file q c : Fs.lookup (Dir []) q ≠ Some (File c).
Proof. by destruct q. Qed.

(** Creating directories neither adds nor removes a file. *)
Lemma mkdirSync_file_iff p t t' q c :
  Fs.mkdirSync p t = Ok t' →
  Fs.lookup t' q = Some (File c) ↔ Fs.lookup t q = Some (File c).
Proof.
  revert t t' q. induction p as [|n p IH]; intros t t' q Hmk.
  - destruct t; simpl in Hmk; [done|]. by injection Hmk as <-.
  - destruct t as [c0|es]; [done|]. simpl in Hmk.
    destruct (Fs.mkdirSync p (default (Dir []) (get n es))) as [c'|e] eqn:Hsub;
      [|done].
    injection Hmk as <-. destruct q as [|m q]; [done|]. simpl.
    destruct (decide (n = m)) as [->|Hne].
    + rewrite get_set_eq. rewrite (IH _ _ q Hsub).
      destruct (get m es) as [cm|]; simpl; [done|].
      split; [|done]. intros H. by apply lookup_nil_file in H.
    + by rewrite get_set_ne.
Qed.

(** Binding a path changes no file that is not at or below it. *)
Lemma put_file_iff p v t t' q c :
  Fs.put p v t = Some t' → Path.isPrefix p q = false →
  Fs.lookup t' q = Some (File c) ↔ Fs.lookup t q = Some (File c).
Proof.
  revert t t' q. induction p as [|n p IH]; intros t t' q Hput Hpre; [done|].
  destruct t as [c0|es]; [done|]. simpl in Hput.
  destruct (match get n es with Some c1 => Fs.put p v c1 | None => _ end)
    as [c'|] eqn:Hsub; [|done].
  injection Hput as <-. destruct q as [|m q]; [done|].
  simpl in Hpre. simpl.
  destruct (decide (n = m)) as [->|Hne].
  - rewrite bool_decide_eq_true_2 in Hpre by done. simpl in Hpre.
    rewrite get_set_eq.
    destruct (get m es) as [cm|]; [by apply IH|].
    destruct p; [done|discriminate].
  - by rewrite get_set_ne.
Qed.

Lemma writeFile_file_iff p data t t' q c :
  Fs.writeFile p data t = Ok t' → Path.isPrefix p q = false →
  Fs.lookup t' q = Some (File c) ↔ Fs.lookup t q = Some (File c).
Proof.
  unfold Fs.writeFile. intros Hw Hpre.
  destruct (Fs.lookup t (Path.dirname p)) as [[?|?]|]; try done.
  assert (Hput : Fs.put p (File data) t = Some t').
  { destruct (Fs.lookup t p) as [[?|?]|]; try done;
      destruct (Fs.put p (File data) t); simpl in Hw; by simplify_eq. }
  by eapply put_file_iff.
Qed.

Lemma isPrefix_trans p q r :
  Path.isPrefix p q = true → Path.isPrefix q r = true → Path.isPrefix p r = true.
Proof.
  rewrite !isPrefix_spec. intros [a ->] [b ->]. exists (a ++ b). by rewrite app_assoc.
Qed.

Lemma startsWithDir_prefix p root :
  startsWithDir p root = true → Path.isPrefix root p = true.
Proof.
  unfold startsWithDir. destruct root; [done|]. by intros [? _]%andb_true_iff.
Qed.

Global Instance sameFilesOutside_preorder root : PreOrder (sameFilesOutside root).
Proof.
  split.
  - by intros w q c.
  - intros w1 w2 w3 H12 H23 q c Hq. by rewrite (H23 q c Hq), (H12 q c Hq).
Qed.

Lemma sameFs_outside root w w' : sameFs w w' → sameFilesOutside root w w'.
Proof. intros H q c _. unfold sameFs in H. by rewrite H. Qed.

(** The guard of [extractZip]: whatever the path of an entry, extracting it
    leaves the files outside the scratch directory as they were, and
    creates none there. *)
Lemma extractEntry_confined destDir entry :
  steps (sameFilesOutside destDir) (extractEntry destDir entry).
Proof.
  destruct entry as [[entryPath isDirectory] data]. unfold extractEntry.
  destruct isDirectory; [apply steps_ret; apply _|].
  destruct (startsWithDir _ destDir) eqn:Hguard; cbn [negb];
    [|apply steps_ret; apply _].
  apply startsWithDir_prefix in Hguard.
  apply steps_bind; [apply _| |intros _].
  { intros w. unfold fsDo.
    destruct (Fs.mkdirSync _ (w_fs w)) as [t|e] eqn:Hmk; [|reflexivity].
    intros q c Hq. by eapply mkdirSync_file_iff. }
  apply steps_bind; [apply _| |intros _].
  { eapply steps_weaken; [apply sameFs_outside|apply sameFs_suspend]. }
  apply steps_bind; [apply _| |intros _].
  { intros w. unfold fsDo.
    destruct (Fs.writeFile _ data (w_fs w)) as [t|e] eqn:Hw; [|reflexivity].
    intros q c Hq. eapply writeFile_file_iff; [done|].
    destruct (Path.isPrefix (Path.resolve _ _) q) eqn:Hpre; [|done].
    by rewrite (isPrefix_trans _ _ _ Hguard Hpre) in Hq. }
  eapply steps_weaken; [apply sameFs_outside|apply sameFs_suspend].
Qed.

Lemma extractZip_entries_confined destDir entries :
  steps (sameFilesOutside destDir) (forEach entries (extractEntry destDir)).
Proof. apply steps_forEach; [apply _|]. apply extractEntry_confined. Qed.


(** ** Flattening an extracted archive *)

Section EntriesMore.
Context {A : Type}.
Implicit Types (es : list (string * A)) (n m : string) (v : A).


Lemma set_set n u v es : set n v (set n u es) = set n v es.
Proof.
  induction es as [|[k x] es IH]; simpl.
  - by rewrite decide_True.
  - destruct (decide (k = n)) as [->|Hne]; simpl.
    + by rewrite decide_True.
    + rewrite decide_False by done. by rewrite IH.
Qed.
End EntriesMore.


Lemma rm_cons n p es :
  p ≠ [] →
  Fs.rm (n :: p) (Dir es) =
  match get n es with
  | Some c =>
      match Fs.rm p c with
      | Some c' => Some (Dir (set n c' es))
      | None => None
      end
  | None => None
  end.
Proof. by destruct p. Qed.

Lemma rm_app dest p t d :
  Fs.lookup t dest = Some d → p ≠ [] →
  Fs.rm (dest ++ p) t = Fs.rm p d ≫= λ d', Fs.put dest d' t.
Proof.
  intros Hd Hp. revert t Hd. induction dest as [|n dest IH]; intros t Hd.
  - simpl in *. injection Hd as ->. by destruct (Fs.rm p d).
  - cbn [app]. simpl in Hd. destruct t as [c0|es]; [done|].
    destruct (get n es) as [c|] eqn:Hget; [|done].
    rewrite rm_cons by (intros [_ ?]%app_eq_nil; done).
    rewrite Hget, (IH c Hd).
    destruct (Fs.rm p d) as [d'|]; simpl; [|done]. by rewrite Hget.
Qed.


Lemma lookup_put_same dest a t t1 :
  Fs.put dest a t = Some t1 → Fs.lookup t1 dest = Some a.
Proof.
  revert t t1. induction dest as [|n dest IH]; intros t t1 Hput; simpl in *.
  - by injection Hput as <-.
  - destruct t as [c0|es]; [done|].
    destruct (match get n es with Some c => Fs.put dest a c | None => _ end)
      as [c'|] eqn:Hsub; [|done].
    injection Hput as <-. simpl. rewrite get_set_eq.
    destruct (get n es) as [c|]; [by eapply IH|].
    destruct dest; [by injection Hsub as <-|done].
Qed.




Section Hoist.
Context (xd : path → path → bool) (Hxd : ∀ a b, xd a b = false).


End Hoist.

Lemma withFs_withFs t1 t2 w : withFs t2 (withFs t1 w) = withFs t2 w.
Proof. done. Qed.

Lemma withFs_same w : withFs (w_fs w) w = w.
Proof. by destruct w. Qed.

Lemma get_size n (es : list (string * node)) c :
  get n es = Some c → nodeSize c ≤ nodeSize (Dir es).
Proof.
  induction es as [|[k x] es IH]; simpl; [done|].
  destruct (decide (k = n)).
  - intros [= ->]. lia.
  - intros H. specialize (IH H). simpl in IH. lia.
Qed.

Lemma lookup_size t p d : Fs.lookup t p = Some d → nodeSize d ≤ nodeSize t.
Proof.
  revert t. induction p as [|n p IH]; intros t; simpl.
  - by intros [= ->].
  - destruct t as [c|es]; [done|].
    destruct (get n es) as [c|] eqn:Hget; [|done].
    intros H. apply IH in H. apply get_size in Hget. lia.
Qed.

Lemma nodeSize_pos d : 1 ≤ nodeSize d.
Proof. destruct d; simpl; lia. Qed.




Section Flatten.
Context (E : collaborators) (Hxd : ∀ a b, xdev E a b = false).



End Flatten.




Section FlattenAndCollect.
Context (E : collaborators).


End FlattenAndCollect.



(** ** Strings: reversal, trimming and filtering *)

Lemma rev_app_spec s acc : String.rev_app s acc = String.rev s +:+ acc.
Proof.
  unfold String.rev. revert acc. induction s as [|c s IH]; intros acc; [done|].
  simpl. rewrite (IH (String c "")), IH. by rewrite sapp_assoc.
Qed.

Lemma srev_cons c s : String.rev (String c s) = String.rev s +:+ String c "".
Proof. unfold String.rev at 1. simpl. apply rev_app_spec. Qed.

Lemma srev_app s t : String.rev (s +:+ t) = String.rev t +:+ String.rev s.
Proof.
  induction s as [|c s IH]; simpl.
  - by rewrite sapp_nil_r.
  - rewrite sapp_cons, !srev_cons, IH. by rewrite sapp_assoc.
Qed.

Lemma srev_involutive s : String.rev (String.rev s) = s.
Proof.
  induction s as [|c s IH]; [done|].
  rewrite srev_cons, srev_app, IH. done.
Qed.

(** [trimStart] drops a prefix of blanks. *)
Lemma trimStart_split s :
  ∃ pre, s = pre +:+ Js.trimStart s ∧ Js.sfilter (λ c, negb (Js.isSpace c)) pre = "".
Proof.
  induction s as [|c s (pre & Hs & Hpre)]; [by exists ""|].
  simpl. destruct (Js.isSpace c) eqn:Hc.
  - exists (String c pre). split; [by rewrite sapp_cons, <- Hs|].
    simpl. by rewrite Hc.
  - by exists "".
Qed.

Lemma trimStart_idemp s : Js.trimStart (Js.trimStart s) = Js.trimStart s.
Proof.
  induction s as [|c s IH]; [done|]. simpl.
  destruct (Js.isSpace c) eqn:Hc; [done|]. simpl. by rewrite Hc.
Qed.

Lemma trimStart_head s :
  match Js.trimStart s with
  | String c _ => Js.isSpace c = false
  | EmptyString => True
  end.
Proof.
  induction s as [|c s IH]; [done|]. simpl.
  destruct (Js.isSpace c) eqn:Hc; [done|]. done.
Qed.

Lemma trimStart_fixed s :
  match s with String c _ => Js.isSpace c = false | EmptyString => True end →
  Js.trimStart s = s.
Proof. destruct s as [|c s]; [done|]. simpl. by intros ->. Qed.
Lemma allChars_app P s t :
  allChars P (s +:+ t) = allChars P s && allChars P t.
Proof.
  induction s as [|c s IH]; [done|]. rewrite sapp_cons. simpl.
  by rewrite IH, andb_assoc.
Qed.

Lemma allChars_rev P s : allChars P (String.rev s) = allChars P s.
Proof.
  induction s as [|c s IH]; [done|].
  rewrite srev_cons, allChars_app, IH. simpl.
  by rewrite andb_true_r, andb_comm.
Qed.

Lemma allChars_impl (P Q : ascii → bool) s :
  (∀ c, P c = true → Q c = true) → allChars P s = true → allChars Q s = true.
Proof.
  intros HPQ. induction s as [|c s IH]; [done|]. simpl.
  intros [Hc Hs]%andb_true_iff. by rewrite (HPQ _ Hc), IH.
Qed.

Lemma allChars_sfilter P s : allChars P (Js.sfilter P s) = true.
Proof.
  induction s as [|c s IH]; [done|]. simpl.
  destruct (P c) eqn:Hc; [|done]. simpl. by rewrite Hc.
Qed.

Lemma sfilter_all P s : allChars P s = true → Js.sfilter P s = s.
Proof.
  induction s as [|c s IH]; [done|]. simpl.
  intros [-> Hs]%andb_true_iff. by rewrite IH.
Qed.

Lemma sfilter_none P s : allChars (λ c, negb (P c)) s = true ↔ Js.sfilter P s = "".
Proof.
  induction s as [|c s IH]; [done|]. simpl.
  destruct (P c); simpl; [|done]. split; [done|]. discriminate.
Qed.

Lemma noSlash_allChars s :
  noSlash s ↔ allChars (λ c, negb (bool_decide (c = "/"%char))) s = true.
Proof. unfold noSlash. symmetry. apply sfilter_none. Qed.

Lemma allChars_trimStart P s : allChars P s = true → allChars P (Js.trimStart s) = true.
Proof.
  induction s as [|c s IH]; [done|]. simpl.
  intros [Hc Hs]%andb_true_iff. destruct (Js.isSpace c); [by apply IH|].
  simpl. by rewrite Hc, Hs.
Qed.

Lemma allChars_trim P s : allChars P s = true → allChars P (Js.trim s) = true.
Proof.
  intros H. unfold Js.trim, Js.trimEnd.
  rewrite allChars_rev. apply allChars_trimStart.
  rewrite allChars_rev. by apply allChars_trimStart.
Qed.

(** What [trimEnd] keeps is a prefix of the string. *)
Lemma trimEnd_prefix s : ∃ post, s = Js.trimEnd s +:+ post.
Proof.
  unfold Js.trimEnd.
  destruct (trimStart_split (String.rev s)) as (pre & Hs & _).
  exists (String.rev pre).
  rewrite <- srev_app, <- Hs. by rewrite srev_involutive.
Qed.

Lemma trimEnd_idemp s : Js.trimEnd (Js.trimEnd s) = Js.trimEnd s.
Proof.
  unfold Js.trimEnd. by rewrite srev_involutive, trimStart_idemp.
Qed.

Lemma trim_head s :
  match Js.trim s with
  | String c _ => Js.isSpace c = false
  | EmptyString => True
  end.
Proof.
  unfold Js.trim.
  destruct (trimEnd_prefix (Js.trimStart s)) as (post & Hpost).
  pose proof (trimStart_head s) as Hhead.
  destruct (Js.trimEnd (Js.trimStart s)) as [|c r]; [done|].
  rewrite Hpost in Hhead. by rewrite sapp_cons in Hhead.
Qed.

Lemma trimStart_trim s : Js.trimStart (Js.trim s) = Js.trim s.
Proof. apply trimStart_fixed, trim_head. Qed.

Lemma trim_idemp s : Js.trim (Js.trim s) = Js.trim s.
Proof.
  unfold Js.trim at 1. rewrite trimStart_trim.
  unfold Js.trim. apply trimEnd_idemp.
Qed.

Lemma trim_nil : Js.trim "" = "".
Proof. reflexivity. Qed.

(** ** Folder names *)

Lemma sanitizeFolderName_legal s :
  allChars (λ c, negb (isIllegalChar c)) (sanitizeFolderName s) = true.
Proof. unfold sanitizeFolderName. apply allChars_trim, allChars_sfilter. Qed.

Lemma sanitizeFolderName_idemp s :
  sanitizeFolderName (sanitizeFolderName s) = sanitizeFolderName s.
Proof.
  unfold sanitizeFolderName at 1.
  rewrite sfilter_all by apply sanitizeFolderName_legal.
  unfold sanitizeFolderName. apply trim_idemp.
Qed.

Lemma sanitizeFolderName_noSlash s : noSlash (sanitizeFolderName s).
Proof.
  apply noSlash_allChars.
  eapply allChars_impl; [|apply sanitizeFolderName_legal].
  intros c Hc. unfold isIllegalChar in Hc.
  destruct (bool_decide (c = "/"%char)) eqn:Hs; [|done].
  apply bool_decide_eq_true in Hs as ->. done.
Qed.

(** ** Directory walks *)

Lemma node_nested_ind (P : node → Prop) :
  (∀ c, P (File c)) →
  (∀ es, Forall (λ e, P e.2) es → P (Dir es)) →
  ∀ t, P t.
Proof.
  intros Hfile Hdir. fix IH 1. intros [c|es]; [apply Hfile|].
  apply Hdir. induction es as [|[n c] es IHes]; constructor; [apply IH|apply IHes].
Qed.

Lemma wfNode_Dir es :
  wfNode (Dir es) = true ↔
  NoDup es.*1 ∧ Forall plainName es.*1 ∧ Forall (λ e, wfNode e.2 = true) es.
Proof.
  simpl. rewrite !andb_true_iff, !bool_decide_eq_true.
  assert ((fix go (es : list (string * node)) : bool :=
             match es with
             | [] => true
             | (_, c) :: r => wfNode c && go r
             end) es = true ↔ Forall (λ e, wfNode e.2 = true) es) as ->.
  { induction es as [|[n c] es IH]; [by split; [constructor|]|].
    rewrite andb_true_iff, Forall_cons, IH. done. }
  tauto.
Qed.

Lemma get_elem_NoDup {A} (n : string) (v : A) (es : list (string * A)) :
  NoDup es.*1 → (n, v) ∈ es → get n es = Some v.
Proof.
  induction es as [|[k x] es IH]; simpl; [by intros _ ?%elem_of_nil|].
  intros [Hk Hnd]%NoDup_cons [Heq|Hin]%elem_of_cons.
  - injection Heq as -> ->. by rewrite decide_True.
  - rewrite decide_False; [by apply IH|].
    intros ->. apply Hk. apply list_elem_of_fmap. by exists (n, v).
Qed.

Lemma get_Some_in {A} (n : string) (v : A) (es : list (string * A)) : get n es = Some v → (n, v) ∈ es.
Proof.
  induction es as [|[k x] es IH]; simpl; [done|].
  destruct (decide (k = n)) as [->|Hne].
  - intros [= ->]. by left.
  - intros H. right. by apply IH.
Qed.

Lemma wfNode_lookup t p d :
  wfNode t = true → Fs.lookup t p = Some d → wfNode d = true.
Proof.
  revert t. induction p as [|n p IH]; intros t Hwf; simpl.
  - by intros [= <-].
  - destruct t as [c|es]; [done|].
    destruct (get n es) as [c|] eqn:Hget; [|done].
    apply IH. apply wfNode_Dir in Hwf as (_ & _ & Hall).
    rewrite Forall_forall in Hall. apply (Hall (n, c)). by apply get_Some_in.
Qed.

Lemma walkDirNode_Dir dir es :
  walkDirNode dir (Dir es) =
  es ≫= λ e, match e.2 with
             | Dir _ => walkDirNode (Path.join dir e.1) e.2
             | File _ => [Path.join dir e.1]
             end.
Proof.
  induction es as [|[n c] es IH]; [done|].
  change (walkDirNode dir (Dir ((n, c) :: es)))
    with (match c with
          | Dir _ => walkDirNode (Path.join dir n) c
          | File _ => [Path.join dir n]
          end ++ walkDirNode dir (Dir es)).
  by rewrite IH.
Qed.

Lemma walkNode_Dir dir es :
  walkNode dir (Dir es) =
  es ≫= λ e, if isHiddenOrJunk e.1 then []
             else match e.2 with
                  | Dir _ => walkNode (Path.join dir e.1) e.2
                  | File _ => [Path.join dir e.1]
                  end.
Proof.
  induction es as [|[n c] es IH]; [done|].
  change (walkNode dir (Dir ((n, c) :: es)))
    with ((if isHiddenOrJunk n then []
           else match c with
                | Dir _ => walkNode (Path.join dir n) c
                | File _ => [Path.join dir n]
                end) ++ walkNode dir (Dir es)).
  by rewrite IH.
Qed.

Lemma allFilesNode_Dir dir es :
  allFilesNode dir (Dir es) =
  es ≫= λ e, if isHiddenName e.1 then []
             else match e.2 with
                  | Dir _ => allFilesNode (Path.join dir e.1) e.2
                  | File _ =>
                      if isHiddenName (Path.basename (Path.join dir e.1))
                      then [] else [Path.join dir e.1]
                  end.
Proof.
  induction es as [|[n c] es IH]; [done|].
  change (allFilesNode dir (Dir ((n, c) :: es)))
    with ((if isHiddenName n then []
           else match c with
                | Dir _ => allFilesNode (Path.join dir n) c
                | File _ =>
                    if isHiddenName (Path.basename (Path.join dir n))
                    then [] else [Path.join dir n]
                end) ++ allFilesNode dir (Dir es)).
  by rewrite IH.
Qed.

(** [walkDir] reaches exactly the files below the directory. *)
Lemma walkDirNode_spec d : ∀ dir p,
  wfNode d = true →
  p ∈ walkDirNode dir d ↔
  ∃ rel c, rel ≠ [] ∧ p = dir ++ rel ∧ Fs.lookup d rel = Some (File c).
Proof.
  induction d as [c0|es IH] using node_nested_ind; intros dir p Hwf.
  - simpl. split; [by intros ?%elem_of_nil|].
    intros (rel & c & Hrel & _ & Hl). by destruct rel.
  - apply wfNode_Dir in Hwf as (Hnd & Hplain & Hsub).
    rewrite walkDirNode_Dir, list_elem_of_bind.
    rewrite Forall_forall in IH, Hsub. split.
    + intros ([n c] & Hp & Hin). simpl in Hp.
      assert (plainName n) as Hn.
      { rewrite Forall_forall in Hplain. apply Hplain.
        apply list_elem_of_fmap. by exists (n, c). }
      rewrite (join_plain _ _ Hn) in Hp.
      pose proof (get_elem_NoDup _ _ _ Hnd Hin) as Hget.
      destruct c as [c|sub].
      * apply list_elem_of_singleton in Hp as ->.
        exists [n], c. split_and!; [done..|]. simpl. by rewrite Hget.
      * apply (IH _ Hin) in Hp as (rel & c & _ & -> & Hl); [|by apply (Hsub _ Hin)].
        exists (n :: rel), c. split_and!; [done|by rewrite <- app_assoc|].
        simpl. by rewrite Hget.
    + intros (rel & c & _ & -> & Hl). destruct rel as [|n rel]; [done|].
      simpl in Hl. destruct (get n es) as [sub|] eqn:Hget; [|done].
      pose proof (get_Some_in _ _ _ Hget) as Hin.
      assert (plainName n) as Hn.
      { rewrite Forall_forall in Hplain. apply Hplain.
        apply list_elem_of_fmap. by exists (n, sub). }
      exists (n, sub). split; [|done]. simpl. rewrite (join_plain _ _ Hn).
      destruct sub as [c'|sub].
      * destruct rel; [|done]. apply list_elem_of_singleton. done.
      * apply (IH _ Hin); [by apply (Hsub _ Hin)|].
        exists rel, c. split_and!; [|by rewrite <- app_assoc|done].
        intros ->. done.
Qed.

Lemma walkDirNode_NoDup d : ∀ dir, wfNode d = true → NoDup (walkDirNode dir d).
Proof.
  induction d as [c0|es IH] using node_nested_ind; intros dir Hwf.
  - constructor.
  - pose proof Hwf as (Hnd & Hplain & Hsub)%wfNode_Dir.
    rewrite walkDirNode_Dir. rewrite Forall_forall in IH. rewrite Forall_forall in Hsub.
    rewrite Forall_forall in Hplain.
    assert (∀ e, e ∈ es → plainName e.1) as Hname.
    { intros e He. apply Hplain. apply list_elem_of_fmap. by exists e. }
    apply NoDup_bind.
    + intros [n1 c1] [n2 c2] p H1 H2 Hp1 Hp2. simpl in *.
      assert (∀ n c, (n, c) ∈ es →
                p ∈ match c with
                    | Dir _ => walkDirNode (Path.join dir n) c
                    | File _ => [Path.join dir n]
                    end → ∃ rel, p = dir ++ n :: rel) as Hshape.
      { intros n c Hin Hp. rewrite (join_plain _ _ (Hname _ Hin)) in Hp.
        destruct c as [c|sub].
        - apply list_elem_of_singleton in Hp as ->. by exists [].
        - apply walkDirNode_spec in Hp as (rel & _ & _ & -> & _);
            [|by apply (Hsub _ Hin)].
          exists rel. by rewrite <- app_assoc. }
      destruct (Hshape _ _ H1 Hp1) as (r1 & ->).
      destruct (Hshape _ _ H2 Hp2) as (r2 & [= -> _]%app_inv_head).
      pose proof (get_elem_NoDup _ _ _ Hnd H1) as G1.
      pose proof (get_elem_NoDup _ _ _ Hnd H2) as G2. congruence.
    + intros [n c] Hin. simpl. destruct c as [c|sub].
      * apply NoDup_singleton.
      * apply (IH _ Hin), (Hsub _ Hin).
    + by apply NoDup_fmap_1 in Hnd.
Qed.

(** The two tests for hidden names are one. *)
Lemma isHiddenOrJunk_isHiddenName name : isHiddenOrJunk name = isHiddenName name.
Proof.
  unfold isHiddenOrJunk, isHiddenName.
  destruct name as [|c s]; [done|].
  change (negb (Js.truthy (String c s))) with false. cbv iota.
  generalize (Js.startsWith (String c s) "." || Js.startsWith (String c s) "._").
  generalize (bool_decide (String c s = "__MACOSX")).
  generalize (bool_decide (Js.toLowerCase (String c s) = "thumbs.db")).
  generalize (bool_decide (Js.toLowerCase (String c s) = "desktop.ini")).
  by intros [] [] [] [].
Qed.

Lemma basename_snoc dir n : Path.basename (dir ++ [n]) = n.
Proof. unfold Path.basename. apply last_last. Qed.

Lemma dirname_snoc dir n : Path.dirname (dir ++ [n]) = dir.
Proof. unfold Path.dirname. apply removelast_last. Qed.

(** [getAllFiles] and [walkFiles] walk alike. *)
Lemma allFilesNode_walkNode d : ∀ dir,
  wfNode d = true → allFilesNode dir d = walkNode dir d.
Proof.
  induction d as [c0|es IH] using node_nested_ind; intros dir Hwf; [done|].
  apply wfNode_Dir in Hwf as (_ & Hplain & Hsub).
  rewrite allFilesNode_Dir, walkNode_Dir.
  induction es as [|[n c] es IHes]; [done|].
  apply Forall_cons in IH as [IHc IH]. apply Forall_cons in Hsub as [Hc Hsub].
  apply Forall_cons in Hplain as [Hn Hplain].
  change ((?e :: ?l) ≫= ?f) with (f e ++ (l ≫= f)).
  rewrite (IHes IH Hplain Hsub). f_equal. cbn [fst snd] in *.
  rewrite isHiddenOrJunk_isHiddenName.
  destruct (isHiddenName n) eqn:Hhid; [done|].
  destruct c as [c|sub]; [|by apply IHc].
  by rewrite (join_plain _ _ Hn), basename_snoc, Hhid.
Qed.

Lemma filter_ext_elem {A} (P Q : A → Prop) `{!∀ x, Decision (P x)}
    `{!∀ x, Decision (Q x)} (l : list A) :
  (∀ x, x ∈ l → P x ↔ Q x) → filter P l = filter Q l.
Proof.
  induction l as [|x l IH]; intros Hext; [done|].
  rewrite !filter_cons. rewrite IH by (intros y Hy; apply Hext; by right).
  destruct (decide (P x)) as [HP|HP], (decide (Q x)) as [HQ|HQ]; try done.
  - destruct HQ. apply Hext; [by left|done].
  - destruct HP. apply Hext; [by left|done].
Qed.

Lemma filter_none {A} (P : A → Prop) `{!∀ x, Decision (P x)} (l : list A) :
  (∀ x, x ∈ l → ¬ P x) → filter P l = [].
Proof.
  induction l as [|x l IH]; intros Hnone; [done|].
  rewrite filter_cons, decide_False by (apply Hnone; by left).
  apply IH. intros y Hy. apply Hnone. by right.
Qed.

Lemma visibleBelow_cons dir n rel :
  visibleBelow dir (dir ++ n :: rel)
  = negb (isHiddenName n) && visibleBelow (dir ++ [n]) (dir ++ n :: rel).
Proof.
  unfold visibleBelow. rewrite drop_app_length.
  replace (dir ++ n :: rel) with ((dir ++ [n]) ++ rel) by by rewrite <- app_assoc.
  by rewrite drop_app_length.
Qed.

(** [walkFiles] keeps, of what [walkDir] visits, the files without a hidden
    segment. *)
Lemma walkNode_filter d : ∀ dir,
  wfNode d = true →
  walkNode dir d = filter (λ p, visibleBelow dir p = true) (walkDirNode dir d).
Proof.
  induction d as [c0|es IH] using node_nested_ind; intros dir Hwf; [done|].
  apply wfNode_Dir in Hwf as (_ & Hplain & Hsub).
  rewrite walkNode_Dir, walkDirNode_Dir.
  induction es as [|[n c] es IHes]; [done|].
  apply Forall_cons in IH as [IHc IH]. apply Forall_cons in Hsub as [Hc Hsub].
  apply Forall_cons in Hplain as [Hn Hplain].
  change ((?e :: ?l) ≫= ?f) with (f e ++ (l ≫= f)).
  rewrite filter_app, (IHes IH Hplain Hsub). f_equal. cbn [fst snd] in *.
  rewrite isHiddenOrJunk_isHiddenName, (join_plain _ _ Hn).
  assert (∀ p, p ∈ match c with
                   | Dir _ => walkDirNode (dir ++ [n]) c
                   | File _ => [dir ++ [n]]
                   end → ∃ rel, p = dir ++ n :: rel) as Hshape.
  { intros p Hp. destruct c as [c|sub].
    - apply list_elem_of_singleton in Hp as ->. by exists [].
    - apply walkDirNode_spec in Hp as (rel & _ & _ & -> & _); [|done].
      exists rel. by rewrite <- app_assoc. }
  destruct (isHiddenName n) eqn:Hhid.
  - symmetry. apply filter_none. intros p (rel & ->)%Hshape.
    rewrite visibleBelow_cons, Hhid. done.
  - transitivity (filter (λ p, visibleBelow (dir ++ [n]) p = true)
                    match c with
                    | Dir _ => walkDirNode (dir ++ [n]) c
                    | File _ => [dir ++ [n]]
                    end).
    + destruct c as [c|sub]; [|by apply IHc].
      rewrite filter_cons, decide_True; [done|].
      unfold visibleBelow. by rewrite drop_all.
    + apply filter_ext_elem. intros p (rel & ->)%Hshape.
      by rewrite visibleBelow_cons, Hhid.
Qed.

Lemma visibleBelow_app dir rel :
  visibleBelow dir (dir ++ rel) = true ↔ Forall (λ s, isHiddenName s = false) rel.
Proof.
  unfold visibleBelow. rewrite drop_app_length, forallb_forall, Forall_forall.
  split; intros H s Hs.
  - apply list_elem_of_In, H in Hs. by destruct (isHiddenName s).
  - apply list_elem_of_In, H in Hs. by rewrite Hs.
Qed.

Lemma dirAt_Dir t dir es : Fs.lookup t dir = Some (Dir es) → dirAt t dir = Ok (Dir es).
Proof. unfold dirAt. by intros ->. Qed.

(** Property X1: on a directory of a well-formed tree, [getAllFiles] returns,
    each once, exactly the files below the directory none of whose path
    segments below it is a hidden or system name. *)
Theorem getAllFiles_lists_visible_files dir es w :
  wfNode (w_fs w) = true →
  Fs.lookup (w_fs w) dir = Some (Dir es) →
  ∃ l, getAllFiles dir w = (w, Ok l) ∧ NoDup l ∧
    ∀ p, p ∈ l ↔
      ∃ rel c, p = dir ++ rel
        ∧ Fs.lookup (w_fs w) p = Some (File c)
        ∧ Forall (λ s, isHiddenName s = false) rel.
Proof.
  intros Hwf Hdir. pose proof (wfNode_lookup _ _ _ Hwf Hdir) as Hwfd.
  exists (allFilesNode dir (Dir es)). split_and!.
  - unfold getAllFiles, fsTry, mbind, M_bind. by rewrite (dirAt_Dir _ _ _ Hdir).
  - rewrite allFilesNode_walkNode, walkNode_filter by done.
    apply NoDup_filter. by apply walkDirNode_NoDup.
  - intros p. rewrite allFilesNode_walkNode, walkNode_filter by done.
    rewrite list_elem_of_filter, walkDirNode_spec by done. split.
    + intros (Hvis & rel & c & _ & -> & Hl). exists rel, c. split_and!; [done| |].
      * by rewrite lookup_app, Hdir.
      * by apply (visibleBelow_app dir).
    + intros (rel & c & -> & Hl & Hvis). split; [by apply (visibleBelow_app dir)|].
      exists rel, c. rewrite lookup_app, Hdir in Hl. split_and!; [|done..].
      intros ->. simpl in Hl. congruence.
Qed.

Lemma getAllFiles_lists_visible_files_witness :
  ∃ l, getAllFiles ["dst"] (worldOf junkTree) = (worldOf junkTree, Ok l) ∧ NoDup l ∧
    ∀ p, p ∈ l ↔
      ∃ rel c, p = ["dst"] ++ rel
        ∧ Fs.lookup junkTree p = Some (File c)
        ∧ Forall (λ s, isHiddenName s = false) rel.
Proof.
  eapply (getAllFiles_lists_visible_files ["dst"] _ (worldOf junkTree));
    [vm_compute; reflexivity|reflexivity].
Defined.

(** Property X2: [walkFiles] of extractZip.js and [getAllFiles] of
    organizer.js give the same result on every directory of a well-formed
    tree, the two tests for hidden names being the same test; so the scan
    the organizer falls back on when [extractZip] returned no file finds
    none either. *)
Theorem walkFiles_is_getAllFiles dir w :
  wfNode (w_fs w) = true →
  walkFiles dir w = getAllFiles dir w
  ∧ (∀ name, isHiddenOrJunk name = isHiddenName name)
  ∧ (walkFiles dir w = (w, Ok []) → getAllFiles dir w = (w, Ok [])).
Proof.
  intros Hwf.
  assert (walkFiles dir w = getAllFiles dir w) as Heq.
  { unfold walkFiles, getAllFiles, fsTry, mbind, M_bind, dirAt.
    destruct (Fs.lookup (w_fs w) dir) as [[c|es]|] eqn:Hdir; [done| |done].
    cbv beta iota. rewrite allFilesNode_walkNode; [done|].
    by apply (wfNode_lookup _ _ _ Hwf Hdir). }
  split_and!; [done|apply isHiddenOrJunk_isHiddenName|by rewrite Heq].
Qed.

Lemma walkFiles_is_getAllFiles_witness :
  walkFiles ["dst"] (worldOf junkTree) = getAllFiles ["dst"] (worldOf junkTree)
  ∧ (getAllFiles ["dst"] (worldOf junkTree)).2
    = Ok [["dst"; "Kick"; "k.wav"]; ["dst"; "loop.wav"]].
Proof.
  split; [|reflexivity].
  apply (walkFiles_is_getAllFiles ["dst"] (worldOf junkTree)). reflexivity.
Defined.

(** Property X3: on a directory of a well-formed tree, [walkDir] calls back,
    each once, exactly the files below the directory, hidden ones included;
    [walkFiles] returns those of them without a hidden segment, in the same
    order. *)
Theorem walkDir_reaches_every_file dir es w :
  wfNode (w_fs w) = true →
  Fs.lookup (w_fs w) dir = Some (Dir es) →
  ∃ l, walkDir dir w = (w, Ok l) ∧ NoDup l
    ∧ (∀ p, p ∈ l ↔
         Path.isPrefix dir p = true ∧ ∃ c, Fs.lookup (w_fs w) p = Some (File c))
    ∧ walkFiles dir w = (w, Ok (filter (λ p, visibleBelow dir p = true) l)).
Proof.
  intros Hwf Hdir. pose proof (wfNode_lookup _ _ _ Hwf Hdir) as Hwfd.
  exists (walkDirNode dir (Dir es)). split_and!.
  - unfold walkDir, fsTry, mbind, M_bind. by rewrite (dirAt_Dir _ _ _ Hdir).
  - by apply walkDirNode_NoDup.
  - intros p. rewrite walkDirNode_spec by done. split.
    + intros (rel & c & _ & -> & Hl). split; [apply isPrefix_spec; by exists rel|].
      exists c. by rewrite lookup_app, Hdir.
    + intros ((rel & ->)%isPrefix_spec & c & Hl). exists rel, c.
      rewrite lookup_app, Hdir in Hl. split_and!; [|done..].
      intros ->. simpl in Hl. congruence.
  - unfold walkFiles, fsTry, mbind, M_bind. rewrite (dirAt_Dir _ _ _ Hdir).
    cbv beta iota. by rewrite walkNode_filter.
Qed.

Lemma walkDir_reaches_every_file_witness :
  ∃ l, walkDir ["dst"] (worldOf junkTree) = (worldOf junkTree, Ok l) ∧ NoDup l
    ∧ (∀ p, p ∈ l ↔
         Path.isPrefix ["dst"] p = true ∧ ∃ c, Fs.lookup junkTree p = Some (File c))
    ∧ walkFiles ["dst"] (worldOf junkTree)
      = (worldOf junkTree, Ok (filter (λ p, visibleBelow ["dst"] p = true) l)).
Proof.
  eapply (walkDir_reaches_every_file ["dst"] _ (worldOf junkTree));
    [vm_compute; reflexivity|reflexivity].
Defined.

(** ** Tempo folders *)

Lemma insideBpmLoop_spec dir : ∀ fuel,
  length dir < fuel →
  insideBpmLoop fuel dir = Some (existsb isBpmDirName dir).
Proof.
  induction dir as [|n dir IH] using rev_ind; intros fuel Hlen.
  - destruct fuel as [|fuel]; [simpl in Hlen; lia|]. reflexivity.
  - destruct fuel as [|fuel]; [lia|]. simpl.
    rewrite basename_snoc, dirname_snoc, existsb_app. simpl.
    rewrite orb_false_r.
    destruct (isBpmDirName n) eqn:Hn; [by rewrite orb_true_r|].
    rewrite orb_false_r, decide_False.
    + apply IH. rewrite length_app in Hlen. simpl in Hlen. lia.
    + intros Heq. apply (f_equal length) in Heq. rewrite length_app in Heq.
      simpl in Heq. lia.
Qed.

Lemma isInsideBpmFolder_existsb file :
  isInsideBpmFolder file = existsb isBpmDirName (Path.dirname file).
Proof. unfold isInsideBpmFolder. cbv zeta. rewrite insideBpmLoop_spec by lia. done. Qed.

Lemma existsb_elem {A} (f : A → bool) l :
  existsb f l = true ↔ ∃ x, x ∈ l ∧ f x = true.
Proof.
  rewrite existsb_exists. split; intros (x & Hx & Hf); exists x; split; try done;
    by apply list_elem_of_In.
Qed.

Lemma basename_elem dir : dir ≠ [] → Path.basename dir ∈ dir.
Proof.
  destruct dir as [|n dir _] using rev_ind; [done|]. intros _.
  rewrite basename_snoc. apply elem_of_app. right. by left.
Qed.

Lemma climbBpm_fixed fuel dir :
  isBpmDirName (Path.basename dir) = false → climbBpm fuel dir = dir.
Proof. destruct fuel; [done|]. simpl. by intros ->. Qed.

(** Property X4: [isInsideBpmFolder] tells whether one of the directories
    on the way to the file has the name of a tempo folder, and its loop ends
    within the fuel; for a file that is not inside a tempo folder
    [getParentBpmValue] is [null] and [firstNonBpmAncestorDir] is the
    directory of the file. *)
Theorem isInsideBpmFolder_spec file :
  insideBpmLoop (S (length (Path.dirname file))) (Path.dirname file)
  = Some (isInsideBpmFolder file)
  ∧ (isInsideBpmFolder file = true ↔
     ∃ seg, seg ∈ Path.dirname file ∧ isBpmDirName seg = true)
  ∧ (isInsideBpmFolder file = false →
     getParentBpmValue file = None
     ∧ firstNonBpmAncestorDir file = Path.dirname file).
Proof.
  split_and!.
  - rewrite isInsideBpmFolder_existsb. apply insideBpmLoop_spec. lia.
  - rewrite isInsideBpmFolder_existsb. apply existsb_elem.
  - rewrite isInsideBpmFolder_existsb. intros Hout.
    assert (isBpmDirName (Path.basename (Path.dirname file)) = false) as Hparent.
    { destruct (Path.dirname file) as [|n dir] eqn:Hdir; [done|].
      destruct (isBpmDirName (Path.basename (n :: dir))) eqn:Hb; [|done].
      rewrite <- Hout. symmetry. apply existsb_elem.
      exists (Path.basename (n :: dir)). split; [|done]. by apply basename_elem. }
    split.
    + unfold getParentBpmValue. unfold isBpmDirName in Hparent.
      apply bool_decide_eq_false in Hparent.
      destruct (matchBpmDir _); [|done]. destruct Hparent. by eexists.
    + unfold firstNonBpmAncestorDir. cbv zeta. by apply climbBpm_fixed.
Qed.

(** *** Inversion of computations *)

Lemma bind_inv_Ok {A B} (m : M A) (k : A → M B) w w' b :
  (m ≫= k) w = (w', Ok b) → ∃ a w0, m w = (w0, Ok a) ∧ k a w0 = (w', Ok b).
Proof.
  unfold mbind, M_bind. destruct (m w) as [w0 [a|e]]; [|done]. by exists a, w0.
Qed.

Lemma ret_inv_Ok {A} (a b : A) w w' :
  (mret a : M A) w = (w', Ok b) → w' = w ∧ b = a.
Proof. by intros [= -> ->]. Qed.

Lemma fsRead_inv {A} (f : node → A) w w' a :
  fsRead f w = (w', Ok a) → w' = w ∧ a = f (w_fs w).
Proof. by intros [= -> ->]. Qed.

Lemma uniqueDestPath_snoc t dir name :
  plainName name →
  ∃ name', plainName name' ∧ uniqueDestPath t dir name = dir ++ [name'].
Proof.
  intros Hname. destruct (uniqueDestPath_shape t dir name) as [->|(i & _ & ->)].
  - exists name. by rewrite join_plain.
  - eexists. split; [|by apply join_plain, numbered_plain;
      [apply basenameExt_noSlash|apply extname_noSlash]].
    apply numbered_plain; [apply basenameExt_noSlash|apply extname_noSlash].
Qed.

Lemma path_snoc (p : path) : p ≠ [] → p = Path.dirname p ++ [Path.basename p].
Proof. intros Hp. by apply app_removelast_last. Qed.

(** Where [moveFileToBPMFolder] says the file is: in the folder of the
    tempo, and of the key when there is one, under its name or a numbered
    one. *)
Lemma moveFileToBPMFolder_result E file bpm key dry w w1 r :
  moveFileToBPMFolder E file (Some bpm) key dry w = (w1, Ok (Some r)) →
  let keyFolder :=
    match key with
    | Some k => if Js.truthy k then sanitizeKey k else ""
    | None => ""
    end in
  let bpmDir := Path.join (firstNonBpmAncestorDir file) (pretty bpm +:+ " BPM") in
  let finalDir := if Js.truthy keyFolder then Path.join bpmDir keyFolder else bpmDir in
  r = Path.join finalDir (Path.basename file)
  ∨ ∃ t, r = uniqueDestPath t finalDir (Path.basename file).
Proof.
  unfold moveFileToBPMFolder. cbv zeta.
  set (finalDir := if Js.truthy _ then _ else _).
  destruct (_ && _); [intros [= _ <-]; by left|].
  destruct dry; [intros [= _ <-]; by left|].
  intros (_ & w2 & _ & (dest & w3 & (-> & ->)%fsRead_inv & Hm)%bind_inv_Ok)%bind_inv_Ok.
  apply bind_inv_Ok in Hm as (_ & w4 & _ & [= _ <-]).
  right. by eexists.
Qed.

(** Property X5: once [moveFileToBPMFolder] has put a file into the folder
    of a tempo of two or three digits, no key asked for, the file is read
    back as being in a tempo folder with that tempo, and a second call with
    the same tempo returns the same path and leaves everything as it is. *)
Theorem tempo_placement_settles E file (bpm : Z) dry w w1 r :
  (10 ≤ bpm ≤ 999)%Z → file ≠ [] → plainName (Path.basename file) →
  moveFileToBPMFolder E file (Some bpm) None false w = (w1, Ok (Some r)) →
  getParentBpmValue r = Some bpm
  ∧ isInsideBpmFolder r = true
  ∧ moveFileToBPMFolder E r (Some bpm) None dry w1 = (w1, Ok (Some r)).
Proof.
  intros Hbpm Hfile Hname Hrun.
  destruct (bpmFolder_facts bpm Hbpm) as (Hmatch & Hparse & Hplain).
  apply moveFileToBPMFolder_result in Hrun. cbv zeta in Hrun.
  change (Js.truthy "") with false in Hrun. cbv iota in Hrun.
  rewrite (join_plain _ _ Hplain) in Hrun.
  set (base := firstNonBpmAncestorDir file) in *.
  assert (∃ name', plainName name' ∧ r = base ++ [pretty bpm +:+ " BPM"; name'])
    as (name' & Hname' & ->).
  { destruct Hrun as [->|(t & ->)].
    - exists (Path.basename file). split; [done|].
      by rewrite (join_plain _ _ Hname), <- app_assoc.
    - destruct (uniqueDestPath_snoc t (base ++ [pretty bpm +:+ " BPM"]) _ Hname)
        as (name' & Hname' & ->).
      exists name'. by rewrite <- app_assoc. }
  split_and!.
  - unfold getParentBpmValue.
    replace (base ++ [pretty bpm +:+ " BPM"; name'])
      with ((base ++ [pretty bpm +:+ " BPM"]) ++ [name']) by by rewrite <- app_assoc.
    by rewrite dirname_snoc, basename_snoc, Hmatch; simpl; rewrite Hparse.
  - rewrite isInsideBpmFolder_existsb. apply existsb_elem.
    exists (pretty bpm +:+ " BPM"). split.
    + replace (base ++ [pretty bpm +:+ " BPM"; name'])
        with ((base ++ [pretty bpm +:+ " BPM"]) ++ [name']) by by rewrite <- app_assoc.
      rewrite dirname_snoc. apply elem_of_app. right. by left.
    + unfold isBpmDirName. rewrite Hmatch. by apply bool_decide_eq_true.
  - apply unkeyed_placement_idempotent; [done| |done].
    apply firstNonBpmAncestorDir_stops.
Qed.

Lemma tempo_placement_settles_witness :
  let w := worldOf (Dir [("lib", Dir [("a.wav", File "AAA")])]) in
  let first := moveFileToBPMFolder plainHost ["lib"; "a.wav"] (Some 120%Z) None false w in
  first.2 = Ok (Some ["lib"; "120 BPM"; "a.wav"])
  ∧ getParentBpmValue ["lib"; "120 BPM"; "a.wav"] = Some 120%Z
  ∧ isInsideBpmFolder ["lib"; "120 BPM"; "a.wav"] = true
  ∧ moveFileToBPMFolder plainHost ["lib"; "120 BPM"; "a.wav"] (Some 120%Z) None false
      first.1 = (first.1, Ok (Some ["lib"; "120 BPM"; "a.wav"])).
Proof.
  intros w first. split; [reflexivity|].
  apply (tempo_placement_settles plainHost ["lib"; "a.wav"] 120 false w first.1);
    [lia|done|vm_compute; by repeat split|reflexivity].
Defined.

(** ** Key folders *)

Lemma isKeyDirName_plain k : isKeyDirName k = true → noSlash k → plainName k.
Proof.
  intros Hk Hs. split_and!; [| | |done]; intros ->; vm_compute in Hk; congruence.
Qed.

Lemma sanitizeKey_noSlash k : noSlash (sanitizeKey k).
Proof. apply sanitizeFolderName_noSlash. Qed.

(** Property X6: where [moveFileToKeyFolder] has put a file, the file is in
    a key folder, and every further call, with that key or another one,
    returns the same path and leaves everything as it is: a file in a key
    folder is never moved to the folder of another key. *)
Theorem key_placement_settles E file key key' dry w w1 r :
  file ≠ [] → plainName (Path.basename file) →
  moveFileToKeyFolder E file key false w = (w1, Ok (Some r)) →
  isKeyDirName (sanitizeKey key') = true →
  isKeyDirName (Path.basename (Path.dirname r)) = true
  ∧ moveFileToKeyFolder E r key' dry w1 = (w1, Ok (Some r)).
Proof.
  intros Hfile Hname Hrun Hkey'.
  assert (∃ dir name', plainName name' ∧ r = dir ++ [name']
                       ∧ isKeyDirName (Path.basename dir) = true)
    as (dir & name' & Hname' & -> & Hdir).
  { unfold moveFileToKeyFolder in Hrun. cbv zeta in Hrun.
    destruct (negb (Js.truthy (sanitizeKey key)) || negb (isKeyDirName (sanitizeKey key)))
      eqn:Hguard; [done|].
    apply orb_false_iff in Hguard as [_ Hkey%negb_false_iff].
    pose proof (isKeyDirName_plain _ Hkey (sanitizeKey_noSlash key)) as Hplain.
    destruct (isKeyDirName (Path.basename (Path.dirname file))) eqn:Hparent.
    - injection Hrun as _ <-. exists (Path.dirname file), (Path.basename file).
      by rewrite (join_plain _ _ Hname).
    - apply bind_inv_Ok in Hrun as (_ & w2 & _ & Hrun).
      apply bind_inv_Ok in Hrun as (dest & w3 & (-> & ->)%fsRead_inv & Hrun).
      apply bind_inv_Ok in Hrun as (_ & w4 & _ & [= _ <-]).
      rewrite (join_plain _ _ Hplain).
      destruct (uniqueDestPath_snoc (w_fs w2)
                  (Path.dirname file ++ [sanitizeKey key]) _ Hname)
        as (name' & Hname' & ->).
      exists (Path.dirname file ++ [sanitizeKey key]), name'.
      by rewrite basename_snoc. }
  rewrite dirname_snoc. split; [done|].
  unfold moveFileToKeyFolder. cbv zeta.
  rewrite Hkey', dirname_snoc, basename_snoc, Hdir.
  assert (Js.truthy (sanitizeKey key') = true) as ->.
  { destruct (sanitizeKey key'); [done|done]. }
  simpl. by rewrite (join_plain _ _ Hname').
Qed.

Lemma key_placement_settles_witness :
  let w := worldOf (Dir [("lib", Dir [("a.wav", File "AAA")])]) in
  let first := moveFileToKeyFolder plainHost ["lib"; "a.wav"] "C Maj" false w in
  first.2 = Ok (Some ["lib"; "C Maj"; "a.wav"])
  ∧ Fs.lookup (w_fs first.1) ["lib"; "C Maj"; "a.wav"] = Some (File "AAA")
  ∧ isKeyDirName (Path.basename (Path.dirname ["lib"; "C Maj"; "a.wav"])) = true
  ∧ moveFileToKeyFolder plainHost ["lib"; "C Maj"; "a.wav"] "D Min" false first.1
    = (first.1, Ok (Some ["lib"; "C Maj"; "a.wav"])).
Proof.
  intros w first. split; [reflexivity|]. split; [reflexivity|].
  apply (key_placement_settles plainHost ["lib"; "a.wav"] "C Maj" "D Min" false
           w first.1);
    [done|vm_compute; by repeat split|reflexivity|reflexivity].
Defined.

(** ** Paths as strings *)

Lemma show_cons s p : Path.show (s :: p) = "/" +:+ s +:+ showTail p.
Proof. reflexivity. Qed.

Lemma startsWith_nil_l k : Js.startsWith "" k = bool_decide (k = "").
Proof. by destruct k. Qed.

Lemma includes_skip s T k :
  noSlash s → Js.includes (s +:+ T) (String "/" k) = Js.includes T (String "/" k).
Proof.
  induction s as [|c s IH]; [done|]. intros [Hc Hs]%noSlash_cons.
  rewrite sapp_cons. simpl. rewrite bool_decide_eq_false_2 by done.
  simpl. by apply IH.
Qed.

(** A name followed by a separator starts the text [s T] of a segment and
    what follows it only when the name is the segment. *)
Lemma startsWith_cons a s b k :
  Js.startsWith (String a s) (String b k) = bool_decide (b = a) && Js.startsWith s k.
Proof. reflexivity. Qed.

Lemma startsWith_segment s T k :
  noSlash s → noSlash k → (T = "" ∨ ∃ T', T = String "/" T') →
  Js.startsWith (s +:+ T) (k +:+ "/") = true ↔ s = k ∧ T ≠ "".
Proof.
  revert k. induction s as [|c s IH]; intros k Hs Hk HT.
  - rewrite sapp_nil_l. destruct k as [|a k].
    + rewrite sapp_nil_l. destruct HT as [->|(T' & ->)].
      * split; [done|]. by intros [_ ?].
      * rewrite startsWith_cons, bool_decide_eq_true_2 by done.
        destruct T'; simpl; (split; [by intros _; split|done]).
    + apply noSlash_cons in Hk as [Ha Hk]. rewrite sapp_cons.
      destruct HT as [->|(T' & ->)].
      * split; [done|]. by intros [? _].
      * rewrite startsWith_cons, bool_decide_eq_false_2 by done.
        split; [done|]. by intros [? _].
  - apply noSlash_cons in Hs as [Hc Hs]. rewrite sapp_cons.
    destruct k as [|a k].
    + rewrite sapp_nil_l, startsWith_cons.
      rewrite bool_decide_eq_false_2 by (intros ?; by subst).
      split; [done|]. by intros [? _].
    + apply noSlash_cons in Hk as [Ha Hk]. rewrite sapp_cons, startsWith_cons.
      rewrite andb_true_iff, bool_decide_eq_true, (IH k Hs Hk HT).
      split; [by intros [-> [-> ?]]|]. by intros [[= -> ->] ?].
Qed.

Lemma showTail_shape p : showTail p = "" ∨ ∃ T', showTail p = String "/" T'.
Proof. destruct p; [by left|]. right. by eexists. Qed.

Lemma showTail_nil p : showTail p = "" ↔ p = [].
Proof. destruct p; [done|]. by split. Qed.

Lemma includes_showTail p :
  Forall noSlash p →
  Js.includes (showTail p) "/_Duplicates/" = true ↔ "_Duplicates" ∈ removelast p.
Proof.
  induction p as [|s p IH]; intros Hp.
  - simpl. split; [done|]. by intros ?%elem_of_nil.
  - apply Forall_cons in Hp as [Hs Hp].
    change (showTail (s :: p)) with (String "/" (s +:+ showTail p)).
    change (Js.includes (String "/" ?X) ?K)
      with (Js.startsWith (String "/" X) K || Js.includes X K).
    change (Js.startsWith (String "/" ?X) "/_Duplicates/")
      with (bool_decide ("/"%char = "/"%char) && Js.startsWith X ("_Duplicates" +:+ "/")).
    rewrite bool_decide_eq_true_2 by done. rewrite andb_true_l.
    rewrite orb_true_iff, (includes_skip _ _ _ Hs), (IH Hp).
    rewrite (startsWith_segment s (showTail p) "_Duplicates" Hs)
      by (done || apply showTail_shape).
    rewrite showTail_nil. destruct p as [|s' p]; simpl.
    + split; [by intros [[_ ?]|?%elem_of_nil]|]. by intros ?%elem_of_nil.
    + rewrite elem_of_cons. split.
      * intros [[-> _]|H]; [by left|by right].
      * intros [->|H]; [by left|by right].
Qed.

Lemma push_noSlash p seg :
  Forall noSlash p → noSlash seg → Forall noSlash (Path.push p seg).
Proof.
  intros Hp Hseg. unfold Path.push. repeat case_decide; try done.
  - destruct p as [|a p _] using rev_ind; [done|].
    rewrite removelast_last. by apply Forall_app in Hp as [? _].
  - apply Forall_app. split; [done|]. by constructor.
Qed.

Lemma join_noSlash p s : Forall noSlash p → Forall noSlash (Path.join p s).
Proof.
  unfold Path.join. pose proof (split_slash_noSlash s) as Hsegs.
  revert p. induction Hsegs as [|seg segs Hseg _ IH]; intros p Hp; [done|].
  simpl. apply IH. by apply push_noSlash.
Qed.

Lemma abs_noSlash s : Forall noSlash (Path.abs s).
Proof. apply join_noSlash. constructor. Qed.

Lemma isDuplicatesPath_elem p :
  Forall noSlash p → isDuplicatesPath p = true ↔ "_Duplicates" ∈ Path.dirname p.
Proof.
  intros Hp. unfold isDuplicatesPath, Path.dirname.
  rewrite orb_true_iff, bool_decide_eq_true.
  assert (Js.includes (Path.show p) "/_Duplicates/" = true
          ↔ "_Duplicates" ∈ removelast p) as ->.
  { destruct p as [|s p]; [simpl; split; [done|by intros ?%elem_of_nil]|].
    by apply (includes_showTail (s :: p)). }
  split; [|by left]. intros [H|H]; [done|].
  destruct (removelast p) as [|a l] eqn:Hl; [done|].
  rewrite <- H. by apply basename_elem.
Qed.

(** Property X7: on a normalised absolute path, [isDuplicatesPath] tells
    whether one of the directories on the way to the file is named
    [_Duplicates], its second test adding nothing to the first; the path the
    organizer picks for a quarantined duplicate is such a path. *)
Theorem isDuplicatesPath_spec p t destDir name :
  Forall noSlash p → plainName name →
  (isDuplicatesPath p = true ↔ "_Duplicates" ∈ Path.dirname p)
  ∧ isDuplicatesPath p = Js.includes (Path.show p) "/_Duplicates/"
  ∧ isDuplicatesPath
      (uniqueDestPath t (Path.join (Path.abs destDir) "_Duplicates") name) = true.
Proof.
  intros Hp Hname. split_and!.
  - by apply isDuplicatesPath_elem.
  - destruct (isDuplicatesPath p) eqn:Hdup.
    + apply isDuplicatesPath_elem in Hdup; [|done]. symmetry.
      destruct p as [|s p]; [by apply elem_of_nil in Hdup|].
      by apply (includes_showTail (s :: p)).
    + unfold isDuplicatesPath in Hdup. by apply orb_false_iff in Hdup as [-> _].
  - rewrite join_plain by (by vm_compute).
    destruct (uniqueDestPath_snoc t (Path.abs destDir ++ ["_Duplicates"]) _ Hname)
      as (name' & [_ [_ [_ Hname']]] & ->).
    apply isDuplicatesPath_elem.
    + repeat (apply Forall_app; split); try by repeat constructor.
      apply abs_noSlash.
    + rewrite dirname_snoc. apply elem_of_app. right. by left.
Qed.

Lemma isDuplicatesPath_spec_witness :
  (isDuplicatesPath ["dst"; "_Duplicates"; "a.wav"] = true
   ↔ "_Duplicates" ∈ Path.dirname ["dst"; "_Duplicates"; "a.wav"])
  ∧ isDuplicatesPath ["dst"; "_Duplicates"; "a.wav"]
    = Js.includes (Path.show ["dst"; "_Duplicates"; "a.wav"]) "/_Duplicates/"
  ∧ isDuplicatesPath
      (uniqueDestPath quarantineBlockedTree
         (Path.join (Path.abs "/dst") "_Duplicates") "b.wav") = true.
Proof.
  apply (isDuplicatesPath_spec ["dst"; "_Duplicates"; "a.wav"]);
    [by repeat constructor|vm_compute; by repeat split].
Defined.

Lemma join_noSlash_cases dir name :
  noSlash name →
  Path.join dir name = Path.push dir name.
Proof. intros Hs. unfold Path.join. by rewrite split_slash_plain. Qed.

(** Property X8: [sanitizeFolderName] (and [sanitizeKey], the same function)
    returns a name without any of the characters it strips and without
    blanks at its ends; sanitising twice is sanitising once; joined to a
    directory the name adds one segment, unless it is empty or one of the
    two dot names, which sanitising lets through. *)
Theorem sanitizeFolderName_spec s dir :
  allChars (λ c, negb (isIllegalChar c)) (sanitizeFolderName s) = true
  ∧ Js.trim (sanitizeFolderName s) = sanitizeFolderName s
  ∧ sanitizeFolderName (sanitizeFolderName s) = sanitizeFolderName s
  ∧ sanitizeKey s = sanitizeFolderName s
  ∧ (sanitizeFolderName s ∉ [""; "."; ".."] →
     Path.join dir (sanitizeFolderName s) = dir ++ [sanitizeFolderName s])
  ∧ sanitizeFolderName " ?..* " = "..".
Proof.
  split_and!.
  - apply sanitizeFolderName_legal.
  - unfold sanitizeFolderName. apply trim_idemp.
  - apply sanitizeFolderName_idemp.
  - done.
  - intros Hne. apply join_plain. split_and!.
    + intros Heq. apply Hne. rewrite Heq. by left.
    + intros Heq. apply Hne. rewrite Heq. right. by left.
    + intros Heq. apply Hne. rewrite Heq. right. right. by left.
    + apply sanitizeFolderName_noSlash.
  - reflexivity.
Qed.

(** ** Moving and copying *)

Lemma rm_is_Some p t : p ≠ [] → is_Some (Fs.lookup t p) → is_Some (Fs.rm p t).
Proof.
  revert t. induction p as [|n p IH]; intros t Hp Hl; [done|].
  destruct t as [c|es]; [by destruct Hl|]. simpl in Hl.
  destruct p as [|m p]; [by eexists|].
  rewrite rm_cons by done.
  destruct (get n es) as [c|]; [|by destruct Hl].
  destruct (IH c) as [c' Hc']; [done|done|]. rewrite Hc'. by eexists.
Qed.

Lemma lookup_rm_eq p t t' : Fs.rm p t = Some t' → Fs.lookup t' p = None.
Proof.
  revert t t'. induction p as [|n p IH]; intros t t' Hrm; [done|].
  destruct t as [c|es]; [done|].
  destruct p as [|m p].
  - injection Hrm as <-. simpl. by rewrite get_del_eq.
  - rewrite rm_cons in Hrm by done.
    destruct (get n es) as [c|]; [|done].
    destruct (Fs.rm (m :: p) c) as [c'|] eqn:Hc'; [|done].
    injection Hrm as <-. change (Fs.lookup (Dir ?es) (n :: ?p))
      with (match get n es with Some c => Fs.lookup c p | None => None end).
    rewrite get_set_eq. by apply (IH c).
Qed.

Lemma put_is_Some p v t es :
  p ≠ [] → Fs.lookup t (Path.dirname p) = Some (Dir es) → is_Some (Fs.put p v t).
Proof.
  unfold Path.dirname. revert t es.
  induction p as [|n p IH]; intros t es Hp Hl; [done|].
  destruct p as [|m p].
  - simpl in Hl. injection Hl as ->. simpl.
    destruct (get n es); by eexists.
  - change (removelast (n :: m :: p)) with (n :: removelast (m :: p)) in Hl.
    destruct t as [c|es0]; [done|].
    change (Fs.lookup (Dir es0) (n :: ?q))
      with (match get n es0 with Some c => Fs.lookup c q | None => None end) in Hl.
    change (Fs.put (n :: m :: p) v (Dir es0))
      with (match (match get n es0 with
                   | Some c => Fs.put (m :: p) v c
                   | None => None
                   end) with
            | Some c' => Some (Dir (set n c' es0))
            | None => None
            end).
    destruct (get n es0) as [c|]; [|done].
    destruct (IH c es) as [c' ->]; [done|done|]. by eexists.
Qed.

(** Below a file there is nothing. *)
Lemma lookup_below_file t p c q :
  Fs.lookup t p = Some (File c) → Path.isPrefix p q = true →
  q = p ∨ Fs.lookup t q = None.
Proof.
  intros Hp (r & ->)%isPrefix_spec. destruct r as [|n r].
  - left. by rewrite app_nil_r.
  - right. by rewrite lookup_app, Hp.
Qed.

(** Below a path that is free there is nothing. *)
Lemma lookup_below_None t p q :
  Fs.lookup t p = None → Path.isPrefix p q = true → Fs.lookup t q = None.
Proof. intros Hp (r & ->)%isPrefix_spec. by rewrite lookup_app, Hp. Qed.

Lemma isPrefix_dirname p q :
  Path.isPrefix p q = true → q ≠ p → Path.isPrefix p (Path.dirname q) = true.
Proof.
  intros (r & ->)%isPrefix_spec Hne. apply isPrefix_spec.
  destruct r as [|n r _] using rev_ind; [by rewrite app_nil_r in Hne|].
  exists r. unfold Path.dirname. by rewrite app_assoc, removelast_last.
Qed.

Lemma file_not_prefix t src c dest es :
  Fs.lookup t src = Some (File c) →
  Fs.lookup t (Path.dirname dest) = Some (Dir es) →
  dest ≠ src → Path.isPrefix src dest = false.
Proof.
  intros Hsrc Hdir Hne. destruct (Path.isPrefix src dest) eqn:Hpre; [|done].
  pose proof (isPrefix_dirname _ _ Hpre Hne) as Hpre'.
  destruct (lookup_below_file _ _ _ _ Hsrc Hpre') as [Heq|Hnone]; congruence.
Qed.

Lemma put_lookup_None p v t t' q :
  Fs.put p v t = Some t' → Path.isPrefix p q = false →
  Fs.lookup t q = None → Fs.lookup t' q = None.
Proof.
  revert t t' q. induction p as [|n p IH]; intros t t' q Hput Hpre Hq; [done|].
  destruct t as [c0|es]; [done|]. simpl in Hput.
  destruct (match get n es with Some c1 => Fs.put p v c1 | None => _ end)
    as [c'|] eqn:Hsub; [|done].
  injection Hput as <-. destruct q as [|m q]; [done|].
  simpl in Hpre, Hq |- *.
  destruct (decide (n = m)) as [->|Hne].
  - rewrite bool_decide_eq_true_2 in Hpre by done. simpl in Hpre.
    rewrite get_set_eq. destruct (get m es) as [c1|] eqn:Hget.
    + by apply (IH c1).
    + destruct p; [done|done].
  - by rewrite get_set_ne.
Qed.

(** A directory that is not at or below the removed path stays a
    directory. *)
Lemma rm_dir_stays p t t' q es :
  Fs.rm p t = Some t' → Path.isPrefix p q = false →
  Fs.lookup t q = Some (Dir es) → ∃ es', Fs.lookup t' q = Some (Dir es').
Proof.
  revert t t' q es. induction p as [|n p IH]; intros t t' q es Hrm Hpre Hq; [done|].
  destruct t as [c0|es0]; [done|].
  destruct q as [|m q].
  - destruct p as [|k p].
    + injection Hrm as <-. by eexists.
    + rewrite rm_cons in Hrm by done.
      destruct (get n es0) as [c|]; [|done].
      destruct (Fs.rm (k :: p) c); [|done]. injection Hrm as <-. by eexists.
  - simpl in Hpre, Hq.
    destruct (decide (n = m)) as [->|Hne].
    + rewrite bool_decide_eq_true_2 in Hpre by done. simpl in Hpre.
      destruct p as [|k p]; [done|].
      rewrite rm_cons in Hrm by done.
      destruct (get m es0) as [c|] eqn:Hget; [|done].
      destruct (Fs.rm (k :: p) c) as [c'|] eqn:Hc'; [|done].
      injection Hrm as <-. simpl. rewrite get_set_eq. by apply (IH c _ _ es).
    + destruct p as [|k p].
      * injection Hrm as <-. simpl. rewrite get_del_ne by done. by eexists.
      * rewrite rm_cons in Hrm by done.
        destruct (get n es0) as [c|] eqn:Hget; [|done].
        destruct (Fs.rm (k :: p) c) as [c'|] eqn:Hc'; [|done].
        injection Hrm as <-. simpl. rewrite get_set_ne by done. by eexists.
Qed.

Lemma file_other_not_below t src c q c' :
  Fs.lookup t src = Some (File c) → Fs.lookup t q = Some (File c') → q ≠ src →
  Path.isPrefix src q = false.
Proof.
  intros Hsrc Hq Hne. destruct (Path.isPrefix src q) eqn:Hpre; [|done].
  destruct (lookup_below_file _ _ _ _ Hsrc Hpre); congruence.
Qed.

(** [rename] of a file onto a free name in a directory, on one device. *)
Lemma renameSync_file xd src dest t c es :
  Fs.lookup t src = Some (File c) →
  Fs.lookup t (Path.dirname dest) = Some (Dir es) →
  Fs.lookup t dest = None → xd src dest = false →
  ∃ t', Fs.renameSync xd src dest t = Ok t'
    ∧ Fs.lookup t' dest = Some (File c)
    ∧ Fs.lookup t' src = None.
Proof.
  intros Hsrc Hdir Hfree Hxd.
  assert (dest ≠ src) as Hne by congruence.
  assert (dest ≠ []) as Hnil by (intros ->; done).
  assert (src ≠ []) as Hsnil.
  { intros ->. simpl in Hsrc. injection Hsrc as ->.
    by destruct (Path.dirname dest). }
  pose proof (file_not_prefix _ _ _ _ _ Hsrc Hdir Hne) as Hpre.
  unfold Fs.renameSync. rewrite Hsrc, Hdir, Hfree, Hpre, Hxd.
  rewrite decide_False by done.
  destruct (rm_is_Some src t Hsnil) as [t1 Hrm]; [by rewrite Hsrc|]. rewrite Hrm.
  assert (Path.isPrefix src (Path.dirname dest) = false) as Hpre'.
  { destruct (Path.isPrefix src (Path.dirname dest)) eqn:Hp; [|done].
    destruct (lookup_below_file _ _ _ _ Hsrc Hp); congruence. }
  destruct (rm_dir_stays _ _ _ _ _ Hrm Hpre' Hdir) as [es' Hdir'].
  destruct (put_is_Some dest (File c) t1 es' Hnil Hdir') as [t2 Hput].
  rewrite Hput. exists t2. split_and!; [done| |].
  - by apply (lookup_put_same _ _ _ _ Hput).
  - apply (put_lookup_None _ _ _ _ _ Hput).
    + destruct (Path.isPrefix dest src) eqn:Hp; [|done].
      pose proof (lookup_below_None _ _ _ Hfree Hp). congruence.
    + by apply (lookup_rm_eq _ _ _ Hrm).
Qed.

(** [copyFile] onto a free name in a directory, followed or not by the
    [unlink] of the source. *)
Lemma copyFileSync_file src dest t c es :
  Fs.lookup t src = Some (File c) →
  Fs.lookup t (Path.dirname dest) = Some (Dir es) →
  Fs.lookup t dest = None →
  ∃ t1, Fs.copyFileSync src dest t = Ok t1
    ∧ Fs.lookup t1 dest = Some (File c)
    ∧ Fs.lookup t1 src = Some (File c)
    ∧ ∃ t2, Fs.unlinkSync src t1 = Ok t2
        ∧ Fs.lookup t2 dest = Some (File c)
        ∧ Fs.lookup t2 src = None.
Proof.
  intros Hsrc Hdir Hfree.
  assert (dest ≠ src) as Hne by congruence.
  assert (dest ≠ []) as Hnil by (intros ->; done).
  assert (src ≠ []) as Hsnil.
  { intros ->. simpl in Hsrc. injection Hsrc as ->.
    by destruct (Path.dirname dest). }
  unfold Fs.copyFileSync. rewrite Hsrc, Hdir, Hfree.
  destruct (put_is_Some dest (File c) t es Hnil Hdir) as [t1 Hput].
  rewrite Hput. exists t1.
  pose proof (put_keeps_file _ _ _ _ _ _ Hput Hfree Hsrc) as Hsrc1.
  pose proof (lookup_put_same _ _ _ _ Hput) as Hdest1.
  split_and!; [done..|].
  unfold Fs.unlinkSync. rewrite Hsrc1.
  destruct (rm_is_Some src t1 Hsnil) as [t2 Hrm]; [by rewrite Hsrc1|].
  rewrite Hrm. exists t2. split_and!; [done| |by apply (lookup_rm_eq _ _ _ Hrm)].
  apply (rm_keeps_file _ _ _ _ _ Hrm); [|done].
  apply (file_not_prefix t src c dest es); try done.
Qed.

Lemma moveOrCopySync_file E src dest move w c es :
  Fs.lookup (w_fs w) src = Some (File c) →
  Fs.lookup (w_fs w) (Path.dirname dest) = Some (Dir es) →
  Fs.lookup (w_fs w) dest = None →
  ∃ t', moveOrCopySync E src dest move w = (withFs t' w, Ok tt)
    ∧ Fs.lookup t' dest = Some (File c)
    ∧ Fs.lookup t' src = (if move then None else Some (File c)).
Proof.
  intros Hsrc Hdir Hfree.
  destruct (copyFileSync_file _ _ _ _ _ Hsrc Hdir Hfree)
    as (t1 & Hcopy & Hd1 & Hs1 & t2 & Hunlink & Hd2 & Hs2).
  unfold moveOrCopySync. destruct move; simpl.
  - unfold tryCatch. destruct (xdev E src dest) eqn:Hxd.
    + assert (Fs.renameSync (xdev E) src dest (w_fs w) = Throw (SysError EXDEV)) as Hren.
      { assert (dest ≠ src) as Hne by congruence.
        unfold Fs.renameSync. rewrite Hsrc, Hdir, Hxd.
        rewrite decide_False by done.
        by rewrite (file_not_prefix _ _ _ _ _ Hsrc Hdir Hne). }
      unfold fsDo at 1. rewrite Hren. simpl.
      unfold mbind, M_bind, fsDo. rewrite Hcopy. simpl. rewrite Hunlink.
      exists t2. by rewrite withFs_withFs.
    + destruct (renameSync_file (xdev E) _ _ _ _ _ Hsrc Hdir Hfree Hxd)
        as (t' & Hren & Hd & Hs).
      unfold fsDo. rewrite Hren. by exists t'.
  - unfold fsDo. rewrite Hcopy. by exists t1.
Qed.

(** Property X9: moving or copying a file onto a free name in a directory
    that exists succeeds on every host, whether [rename] works or fails
    across devices: afterwards the destination holds the content of the
    source, the source is gone after a move and still there after a copy,
    and every other file is as it was. *)
Theorem moveOrCopySync_succeeds E src dest move w c es :
  Fs.lookup (w_fs w) src = Some (File c) →
  Fs.lookup (w_fs w) (Path.dirname dest) = Some (Dir es) →
  Fs.lookup (w_fs w) dest = None →
  ∃ t', moveOrCopySync E src dest move w = (withFs t' w, Ok tt)
    ∧ Fs.lookup t' dest = Some (File c)
    ∧ Fs.lookup t' src = (if move then None else Some (File c))
    ∧ (∀ q c', q ≠ src → Fs.lookup (w_fs w) q = Some (File c') →
         Fs.lookup t' q = Some (File c'))
    ∧ moveOrCopySyncBpm E src dest w = moveOrCopySync E src dest true w.
Proof.
  intros Hsrc Hdir Hfree.
  destruct (moveOrCopySync_file E _ _ move _ _ _ Hsrc Hdir Hfree)
    as (t' & Hrun & Hd & Hs).
  exists t'. split_and!; [done..| |done].
  intros q c' Hne Hq.
  apply (moveOrCopySync_keeps_files E src dest move w (withFs t' w) q c');
    [done|done| |done].
  right. by apply (file_other_not_below _ _ _ _ _ Hsrc Hq).
Qed.

Lemma moveOrCopySync_succeeds_witness :
  ∃ t', moveOrCopySync plainHost ["in"; "a.wav"] ["lib"; "a (3).wav"] true
          (worldOf libraryTree) = (withFs t' (worldOf libraryTree), Ok tt)
    ∧ Fs.lookup t' ["lib"; "a (3).wav"] = Some (File "new")
    ∧ Fs.lookup t' ["in"; "a.wav"] = None
    ∧ (∀ q c', q ≠ ["in"; "a.wav"] → Fs.lookup libraryTree q = Some (File c') →
         Fs.lookup t' q = Some (File c'))
    ∧ moveOrCopySyncBpm plainHost ["in"; "a.wav"] ["lib"; "a (3).wav"]
        (worldOf libraryTree)
      = moveOrCopySync plainHost ["in"; "a.wav"] ["lib"; "a (3).wav"] true
          (worldOf libraryTree).
Proof.
  eapply (moveOrCopySync_succeeds plainHost ["in"; "a.wav"] ["lib"; "a (3).wav"]
            true (worldOf libraryTree)); reflexivity.
Defined.

(** After a copy across devices the source is still a file, so its removal
    goes through: a move or copy that throws has changed nothing. *)
Lemma moveOrCopySync_Throw_same E src dest move w w' e :
  moveOrCopySync E src dest move w = (w', Throw e) → w' = w.
Proof.
  unfold moveOrCopySync. destruct move; simpl.
  - unfold tryCatch.
    destruct (fsDo (Fs.renameSync (xdev E) src dest) w) as [w1 [[]|e1]] eqn:Hren;
      [done|].
    apply fsDo_Throw in Hren as [-> Hren].
    destruct (isEXDEV e1); [|by intros [= <- _]].
    unfold mbind, M_bind.
    destruct (fsDo (Fs.copyFileSync src dest) w) as [w2 [[]|e2]] eqn:Hcopy.
    + pose proof (fsDo_Ok _ _ _ Hcopy) as Hcopy'.
      destruct (copyFileSync_src_file _ _ _ _ Hcopy') as [c Hsrc].
      assert (Fs.lookup (w_fs w2) src = Some (File c)) as Hsrc2.
      { unfold Fs.copyFileSync in Hcopy'. rewrite Hsrc in Hcopy'.
        destruct (Fs.lookup (w_fs w) (Path.dirname dest)) as [[|es]|]; try done.
        destruct (decide (src = dest)) as [->|Hne].
        - destruct (Fs.lookup (w_fs w) dest) as [[|]|]; try done;
            destruct (Fs.put dest (File c) (w_fs w)) as [t1|] eqn:Hput; try done;
            injection Hcopy' as <-; by apply (lookup_put_same _ _ _ _ Hput).
        - assert (Path.isPrefix dest src = false) as Hpre.
          { destruct (Path.isPrefix dest src) eqn:Hp; [|done].
            destruct (Fs.lookup (w_fs w) dest) as [[c'|es']|] eqn:Hdest; [| done |].
            - destruct (lookup_below_file _ _ _ _ Hdest Hp); congruence.
            - pose proof (lookup_below_None _ _ _ Hdest Hp). congruence. }
          assert (∃ t1, Fs.put dest (File c) (w_fs w) = Some t1 ∧ w_fs w2 = t1)
            as (t1 & Hput & ->).
          { destruct (Fs.lookup (w_fs w) dest) as [[|]|]; try done;
              destruct (Fs.put dest (File c) (w_fs w)) as [t1|]; try done;
              injection Hcopy' as <-; by eexists. }
          by apply (put_file_iff _ _ _ _ _ _ Hput Hpre). }
      unfold fsDo, Fs.unlinkSync. rewrite Hsrc2.
      destruct (rm_is_Some src (w_fs w2)) as [t2 ->]; [|by rewrite Hsrc2|done].
      intros ->. simpl in Hsrc. injection Hsrc as Hw.
      unfold Fs.copyFileSync in Hcopy'. rewrite Hw in Hcopy'. simpl in Hcopy'.
      by destruct (Path.dirname dest).
    + apply fsDo_Throw in Hcopy as [-> _]. by intros [= <- _].
  - intros [-> _]%fsDo_Throw. done.
Qed.

(** Property X10: a move or copy that throws has changed nothing, in
    organizer.js and in bpmutils.js alike.  The calls of the file-system
    model fail for a missing path, a node of the wrong kind or a rename
    across devices; with these, the removal that follows a copy across
    devices cannot fail, so no copy is left behind by a move that throws. *)
Theorem moveOrCopySync_all_or_nothing E src dest move w w' e :
  moveOrCopySync E src dest move w = (w', Throw e)
  ∨ moveOrCopySyncBpm E src dest w = (w', Throw e) →
  w' = w.
Proof.
  intros [Hrun|Hrun].
  - by apply (moveOrCopySync_Throw_same E src dest move w w' e).
  - by apply (moveOrCopySync_Throw_same E src dest true w w' e).
Qed.

Lemma moveOrCopySync_all_or_nothing_witness :
  let w := worldOf libraryTree in
  let run := moveOrCopySync crossDeviceHost ["in"; "a.wav"] ["lib"] true w in
  run.2 = Throw (SysError EISDIR) ∧ run.1 = w.
Proof.
  intros w run. split; [reflexivity|].
  apply (moveOrCopySync_all_or_nothing crossDeviceHost ["in"; "a.wav"] ["lib"] true
           w run.1 (SysError EISDIR)).
  left. reflexivity.
Defined.

(** ** What a placement leaves alone *)

Global Instance keepsFiles_preorder keep : PreOrder (keepsFiles keep).
Proof.
  split.
  - by intros w q c _.
  - intros w1 w2 w3 H12 H23 q c Hk Hq. by apply H23, H12.
Qed.

Lemma sameFs_keepsFiles keep w w' : sameFs w w' → keepsFiles keep w w'.
Proof. intros H q c _. unfold sameFs in H. by rewrite H. Qed.

Lemma steps_keeps_of_same {A} keep (m : M A) :
  steps sameFs m → steps (keepsFiles keep) m.
Proof. apply steps_weaken, sameFs_keepsFiles. Qed.

#[export] Hint Extern 5 (steps (keepsFiles _) _) =>
  apply steps_keeps_of_same : frame.

Lemma keepsFiles_mkdirSync keep p : steps (keepsFiles keep) (fsDo (Fs.mkdirSync p)).
Proof.
  intros w q c _ Hq. unfold fsDo.
  destruct (Fs.mkdirSync p (w_fs w)) as [t|e] eqn:Hmk; [|done].
  by apply (mkdirSync_file_iff _ _ _ _ _ Hmk).
Qed.

#[export] Hint Resolve keepsFiles_mkdirSync : frame.

Lemma keepsFiles_weaken (keep1 keep2 : path → Prop) w w' :
  (∀ q, keep2 q → keep1 q) → keepsFiles keep1 w w' → keepsFiles keep2 w w'.
Proof. intros Himp H q c Hk. apply H, Himp, Hk. Qed.

(** Tracing a computation by its result. *)
Lemma tryCatch_inv {A} (m : M A) (h : error → M A) w r :
  tryCatch m h w = r →
  (∃ w1 a, m w = (w1, Ok a) ∧ r = (w1, Ok a))
  ∨ (∃ w1 e, m w = (w1, Throw e) ∧ r = h e w1).
Proof.
  unfold tryCatch. destruct (m w) as [w1 [a|e]]; intros <-.
  - left. by exists w1, a.
  - right. by exists w1, e.
Qed.

Lemma bind_inv_Throw {A B} (m : M A) (k : A → M B) w w' e :
  (m ≫= k) w = (w', Throw e) →
  m w = (w', Throw e) ∨ ∃ a w0, m w = (w0, Ok a) ∧ k a w0 = (w', Throw e).
Proof.
  unfold mbind, M_bind. destruct (m w) as [w0 [a|e0]].
  - right. by exists a, w0.
  - intros [= -> ->]. by left.
Qed.

Section Bystanders.
Context (E : collaborators).

(** A move or copy onto a name that is free leaves the bystanders alone;
    when it throws, it leaves every file alone. *)
Lemma moveOrCopySync_fresh src dest move w :
  Fs.lookup (w_fs w) dest = None →
  keepsFiles (bystander move src) w (moveOrCopySync E src dest move w).1
  ∧ (∀ e, (moveOrCopySync E src dest move w).2 = Throw e →
       (moveOrCopySync E src dest move w).1 = w).
Proof.
  intros Hfree. destruct (moveOrCopySync E src dest move w) as [w' [[]|e]] eqn:Hrun.
  - split; [|done]. intros q c Hk Hq.
    by apply (moveOrCopySync_keeps_files E src dest move w w' q c).
  - apply moveOrCopySync_Throw_same in Hrun as ->.
    split; [reflexivity|done].
Qed.

(** The two statements [dest = uniqueDestPath(dir, name);
    moveOrCopySync(src, dest, move)] and what follows them. *)
Lemma keepsFiles_fresh_dest {A} keep dir name src move (rest : path → M A) :
  (∀ q, keep q → bystander move src q) →
  (∀ dest, steps (keepsFiles keep) (rest dest)) →
  steps (keepsFiles keep)
    (dest ← fsRead (λ t, uniqueDestPath t dir name);
     moveOrCopySync E src dest move ;; rest dest).
Proof.
  intros Hkeep Hrest w. unfold mbind at 1, M_bind at 1. cbn [fsRead].
  set (dest := uniqueDestPath (w_fs w) dir name).
  assert (Fs.lookup (w_fs w) dest = None) as Hfree.
  { apply existsSync_false.
    by destruct (uniqueDestPath_loop_exit (w_fs w) dir name) as (_ & _ & _ & ?). }
  destruct (moveOrCopySync_fresh src dest move w Hfree) as [Hk Hthrow].
  unfold mbind, M_bind.
  destruct (moveOrCopySync E src dest move w) as [w1 [[]|e]] eqn:Hrun.
  - etransitivity; [|apply Hrest]. by apply (keepsFiles_weaken _ _ _ _ Hkeep).
  - by apply (keepsFiles_weaken _ _ _ _ Hkeep).
Qed.

Lemma onDuplicate_keeps fullPath fileName cfg d first :
  steps (keepsFiles (bystander (moveFiles cfg) fullPath))
        (onDuplicate E fullPath fileName cfg d first).
Proof.
  unfold onDuplicate. cbv zeta.
  destruct (dryRun cfg); [frame|].
  destruct (decide (mode d = "skip")); [frame|].
  destruct (decide (mode d = "quarantine")); [|frame].
  apply steps_bind; [apply _|frame|intros exq].
  apply steps_bind; [apply _|frame|intros _].
  apply keepsFiles_fresh_dest; [done|]. intros dest. frame.
Qed.

Lemma placeFile_keeps fullPath fileName cfg target extra :
  steps (keepsFiles (bystander (moveFiles cfg) fullPath))
        (placeFile E fullPath fileName cfg target extra).
Proof.
  unfold placeFile. cbv zeta.
  apply steps_tryCatch; [apply _| |intros e; frame].
  destruct (dryRun cfg); simpl; [frame|].
  apply steps_bind; [apply _|frame|intros _].
  apply keepsFiles_fresh_dest; [done|]. intros dest. frame.
Qed.

Lemma dedupeStage_keeps fullPath fileName cfg dedupe :
  steps (keepsFiles (bystander (moveFiles cfg) fullPath))
        (dedupeStage E fullPath fileName cfg dedupe).
Proof.
  unfold dedupeStage. destruct dedupe as [d|]; [|frame].
  destruct (enabled d); simpl; [|frame].
  apply steps_bind; [apply _|frame|intros cancel].
  destruct cancel; [frame|].
  apply steps_tryCatch; [apply _| |intros e; unfold onHashingFailed; frame].
  apply steps_bind; [apply _| |intros h].
  { apply steps_keeps_of_same, computeFileHash_sameFs. }
  apply steps_bind; [apply _|frame|intros [first|]]; [|frame].
  apply steps_bind; [apply _|apply onDuplicate_keeps|intros _]. frame.
Qed.

Lemma categorizeFile_keeps fullPath cfg dedupe :
  steps (keepsFiles (bystander (moveFiles cfg) fullPath))
        (categorizeFile E fullPath cfg dedupe).
Proof.
  unfold categorizeFile. cbv zeta.
  destruct (isHiddenName _); [frame|].
  destruct (negb (isAcceptedExt _ _)); [frame|].
  apply steps_bind; [apply _|apply dedupeStage_keeps|intros stop].
  destruct stop; [frame|].
  destruct (baseTarget _ _ _) as [targetRel0 used].
  apply steps_bind; [apply _| |intros targetRel].
  { apply steps_keeps_of_same, lengthStage_sameFs. }
  destruct (_ && _); apply placeFile_keeps.
Qed.

End Bystanders.

Section BystandersOfLoops.
Context (E : collaborators).

Lemma fileLoop_keeps cfg d q : ∀ files i,
  Forall (λ p, isArchive p = false) files →
  moveFiles cfg = false ∨ Forall (λ p, Path.isPrefix p q = false) files →
  steps (keepsFiles (λ q', q' = q)) (fileLoop E files cfg d i).
Proof.
  induction files as [|p files IH]; intros i Hplain Hby; [simpl; frame|].
  apply Forall_cons in Hplain as [Hp Hplain].
  assert (bystander (moveFiles cfg) p q) as Hq.
  { destruct Hby as [?|[? _]%Forall_cons]; [by left|by right]. }
  assert (moveFiles cfg = false ∨ Forall (λ p, Path.isPrefix p q = false) files)
    as Hby'.
  { destruct Hby as [?|[_ ?]%Forall_cons]; [by left|by right]. }
  simpl. apply steps_bind; [apply _|frame|intros cancel].
  destruct cancel; [frame|].
  unfold isArchive in Hp. rewrite Hp.
  apply steps_bind; [apply _| |intros r].
  { eapply steps_weaken; [|apply (categorizeFile_keeps E)].
    intros w w'. apply keepsFiles_weaken. by intros ? ->. }
  apply steps_bind; [apply _|frame|intros _].
  apply steps_bind; [apply _|frame|intros _].
  by apply IH.
Qed.

End BystandersOfLoops.

(** Property X11: whatever [categorizeFile] does with a file, be it
    placed, quarantined as a duplicate, skipped or failed, it leaves every
    other file where it is, with its content; when files are copied, the
    file itself as well.  The same holds of the main loop over files that
    are no archives. *)
Theorem categorizeFile_spares_other_files E fullPath cfg dedupe w q c :
  moveFiles cfg = false ∨ Path.isPrefix fullPath q = false →
  Fs.lookup (w_fs w) q = Some (File c) →
  Fs.lookup (w_fs (categorizeFile E fullPath cfg dedupe w).1) q = Some (File c)
  ∧ (∀ files d i w0,
       Forall (λ p, isArchive p = false) files →
       moveFiles cfg = false ∨ Forall (λ p, Path.isPrefix p q = false) files →
       Fs.lookup (w_fs w0) q = Some (File c) →
       Fs.lookup (w_fs (fileLoop E files cfg d i w0).1) q = Some (File c)).
Proof.
  intros Hby Hq. split.
  - by apply (categorizeFile_keeps E fullPath cfg dedupe w q c).
  - intros files d i w0 Harch Hby' Hq0.
    by apply (fileLoop_keeps E cfg d q files i Harch Hby' w0 q c).
Qed.

Lemma categorizeFile_spares_other_files_witness :
  let w := worldOf libraryTree in
  let cfg := withFlat kickRules exampleConfig in
  Fs.lookup (w_fs (categorizeFile plainHost ["in"; "a.wav"] cfg None w).1)
    ["lib"; "a.wav"] = Some (File "old")
  ∧ Fs.lookup (w_fs (fileLoop plainHost [["in"; "a.wav"]] cfg
                       (exampleDedupe "skip") 0 w).1)
      ["lib"; "a (2).wav"] = Some (File "older").
Proof.
  intros w cfg.
  destruct (categorizeFile_spares_other_files plainHost ["in"; "a.wav"] cfg None w
              ["lib"; "a.wav"] "old") as [H1 _]; [by right|reflexivity|].
  destruct (categorizeFile_spares_other_files plainHost ["in"; "a.wav"] cfg None w
              ["lib"; "a (2).wav"] "older") as [_ H2]; [by right|reflexivity|].
  split; [exact H1|].
  apply H2; [by repeat constructor|right; by repeat constructor|reflexivity].
Defined.

(** ** Where the content of a placed file is *)

Section Content.
Context (E : collaborators).

Lemma copyFileSync_Ok_dir src dest t t' :
  Fs.copyFileSync src dest t = Ok t' →
  ∃ es, Fs.lookup t (Path.dirname dest) = Some (Dir es).
Proof.
  unfold Fs.copyFileSync. destruct (Fs.lookup t src) as [[c|]|]; try done.
  destruct (Fs.lookup t (Path.dirname dest)) as [[|es]|]; try done. by eexists.
Qed.

Lemma renameSync_Ok_dir xd src dest t t' :
  Fs.renameSync xd src dest t = Ok t' →
  ∃ es, Fs.lookup t (Path.dirname dest) = Some (Dir es).
Proof.
  unfold Fs.renameSync. destruct (Fs.lookup t src); try done.
  destruct (Fs.lookup t (Path.dirname dest)) as [[|es]|]; try done. by eexists.
Qed.

Lemma moveOrCopySync_Ok_dir src dest move w w' :
  moveOrCopySync E src dest move w = (w', Ok tt) →
  ∃ es, Fs.lookup (w_fs w) (Path.dirname dest) = Some (Dir es).
Proof.
  unfold moveOrCopySync. destruct move; simpl.
  - intros [(w1 & [] & Hren & _)|(w1 & e & Hren & Hh)]%tryCatch_inv.
    + apply fsDo_Ok in Hren. by apply renameSync_Ok_dir in Hren.
    + apply fsDo_Throw in Hren as [-> _]. destruct (isEXDEV e); [|done].
      symmetry in Hh. apply bind_inv_Ok in Hh as ([] & w2 & Hcopy & _).
      apply fsDo_Ok in Hcopy. by apply copyFileSync_Ok_dir in Hcopy.
  - intros Hcopy. apply fsDo_Ok in Hcopy. by apply copyFileSync_Ok_dir in Hcopy.
Qed.

(** What a move or copy that succeeded onto a free name has done. *)
Lemma moveOrCopySync_Ok_effect src dest move w w' c :
  moveOrCopySync E src dest move w = (w', Ok tt) →
  Fs.lookup (w_fs w) src = Some (File c) →
  Fs.lookup (w_fs w) dest = None →
  Fs.lookup (w_fs w') dest = Some (File c)
  ∧ Fs.lookup (w_fs w') src = (if move then None else Some (File c)).
Proof.
  intros Hrun Hsrc Hfree.
  destruct (moveOrCopySync_Ok_dir _ _ _ _ _ Hrun) as [es Hdir].
  destruct (moveOrCopySync_file E _ _ move _ _ _ Hsrc Hdir Hfree)
    as (t' & Hrun' & Hd & Hs).
  rewrite Hrun in Hrun'. injection Hrun' as ->. done.
Qed.

(** A de-duplication step that sends the file on to classification has
    left every file alone. *)
Lemma dedupeStage_false_keeps fullPath fileName cfg dedupe w w1 :
  dedupeStage E fullPath fileName cfg dedupe w = (w1, Ok false) →
  keepsFiles (λ _, True) w w1.
Proof.
  unfold dedupeStage. destruct dedupe as [d|]; [|by intros [= <-]].
  destruct (enabled d); simpl; [|by intros [= <-]].
  unfold mbind at 1, M_bind at 1. cbn [getCancel].
  destruct (w_cancel w); [done|].
  intros [(w2 & b & Hbody & [= <- <-])|(w2 & e & Hbody & Hh)]%tryCatch_inv.
  - apply bind_inv_Ok in Hbody as (h & w3 & Hhash & Hbody).
    pose proof (computeFileHash_sameFs E fullPath (algo d) w) as Hfs.
    rewrite Hhash in Hfs. simpl in Hfs.
    apply bind_inv_Ok in Hbody as (firstSeen & w4 & [= <- <-] & Hbody).
    destruct (w_index w3 !! h) as [first|].
    + apply bind_inv_Ok in Hbody as (? & w5 & _ & Hret). by injection Hret.
    + injection Hbody as <-. apply sameFs_keepsFiles. by unfold sameFs in *.
  - unfold onHashingFailed in Hh. injection Hh as ->.
    assert (keepsFiles (λ _, True) w w2) as Hk; [|by intros q c ? ?; apply Hk].
    apply bind_inv_Throw in Hbody as [Hhash|(h & w3 & Hhash & Hbody)].
    + pose proof (computeFileHash_sameFs E fullPath (algo d) w) as Hfs.
      rewrite Hhash in Hfs. by apply sameFs_keepsFiles.
    + pose proof (computeFileHash_sameFs E fullPath (algo d) w) as Hfs.
      rewrite Hhash in Hfs. simpl in Hfs.
      etransitivity; [by apply sameFs_keepsFiles|].
      apply bind_inv_Throw in Hbody as [Hget|(firstSeen & w4 & [= <- <-] & Hbody)];
        [done|].
      destruct (w_index w3 !! h) as [first|]; [|done].
      apply bind_inv_Throw in Hbody as [Hdup|(? & w5 & _ & Hret)]; [|done].
      unfold onDuplicate in Hdup. cbv zeta in Hdup.
      destruct (dryRun cfg); [done|].
      destruct (decide (mode d = "skip")); [done|].
      destruct (decide (mode d = "quarantine")); [|done].
      apply bind_inv_Throw in Hdup as [Hex|(exq & w5 & [= <- <-] & Hdup)]; [done|].
      apply bind_inv_Throw in Hdup as [Hmk|([] & w6 & Hmk & Hdup)].
      * destruct (negb _); [|done]. apply fsDo_Throw in Hmk as [-> _]. reflexivity.
      * assert (keepsFiles (λ _, True) w3 w6) as Hk6.
        { destruct (negb _); [|by injection Hmk as <-].
          pose proof (keepsFiles_mkdirSync (λ _, True) (quarantineDir d) w3) as Hk.
          by rewrite Hmk in Hk. }
        etransitivity; [exact Hk6|].
        apply bind_inv_Throw in Hdup as [Hread|(dest & w7 & [= <- <-] & Hdup)];
          [done|].
        apply bind_inv_Throw in Hdup as [Hmove|([] & w8 & _ & Hlog)]; [|done].
        apply moveOrCopySync_Throw_same in Hmove as ->. reflexivity.
Qed.

(** What [placeFile] returns outside dry run is where the content of the
    file is. *)
Lemma placeFile_content fullPath fileName cfg target extra w w' src dest c :
  dryRun cfg = false →
  Fs.lookup (w_fs w) fullPath = Some (File c) →
  placeFile E fullPath fileName cfg target extra w = (w', Ok (Some (src, dest))) →
  src = fullPath
  ∧ Fs.lookup (w_fs w') dest = Some (File c)
  ∧ Fs.lookup (w_fs w') fullPath = (if moveFiles cfg then None else Some (File c))
  ∧ (∀ c0, Fs.lookup (w_fs w) dest ≠ Some (File c0)).
Proof.
  intros Hdry Hsrc. unfold placeFile. cbv zeta. rewrite Hdry. simpl.
  intros [(w1 & r & Hbody & [= <- <-])|(w1 & e & _ & Hh)]%tryCatch_inv; [|done].
  apply bind_inv_Ok in Hbody as ([] & w2 & Hmk & Hbody).
  apply bind_inv_Ok in Hbody as (dest' & w3 & [= <- <-] & Hbody).
  apply bind_inv_Ok in Hbody as ([] & w4 & Hmove & Hbody).
  apply bind_inv_Ok in Hbody as ([] & w5 & [= <-] & [= <- <- <-]).
  apply fsDo_Ok in Hmk.
  assert (Fs.lookup (w_fs w2) (uniqueDestPath (w_fs w2) target fileName) = None)
    as Hfree.
  { apply existsSync_false.
    by destruct (uniqueDestPath_loop_exit (w_fs w2) target fileName) as (_ & _ & _ & ?). }
  assert (Fs.lookup (w_fs w2) fullPath = Some (File c)) as Hsrc2.
  { by apply (mkdirSync_file_iff _ _ _ _ _ Hmk). }
  destruct (moveOrCopySync_Ok_effect _ _ _ _ _ _ Hmove Hsrc2 Hfree) as [Hd Hs].
  split_and!; [done..|].
  intros c0 Hc0. apply (mkdirSync_file_iff _ _ _ _ _ Hmk) in Hc0. congruence.
Qed.

End Content.

(** Property X12: outside dry run, the destination [categorizeFile] returns
    holds the content the file had; the file is gone from its place after a
    move and still there after a copy; and no file was at the destination
    before. *)
Theorem categorizeFile_places_content E fullPath cfg dedupe w w' src dest c :
  dryRun cfg = false →
  Fs.lookup (w_fs w) fullPath = Some (File c) →
  categorizeFile E fullPath cfg dedupe w = (w', Ok (Some (src, dest))) →
  src = fullPath
  ∧ Fs.lookup (w_fs w') dest = Some (File c)
  ∧ Fs.lookup (w_fs w') fullPath = (if moveFiles cfg then None else Some (File c))
  ∧ (∀ c0, Fs.lookup (w_fs w) dest ≠ Some (File c0)).
Proof.
  intros Hdry Hsrc. unfold categorizeFile. cbv zeta.
  destruct (isHiddenName _); [done|].
  destruct (negb (isAcceptedExt _ _)).
  { intros (? & ? & _ & [=])%bind_inv_Ok. }
  intros (stop & w1 & Hstage & Hrest)%bind_inv_Ok.
  destruct stop; [done|].
  pose proof (dedupeStage_false_keeps E _ _ _ _ _ _ Hstage) as Hk1.
  destruct (baseTarget _ _ _) as [targetRel0 used].
  apply bind_inv_Ok in Hrest as (targetRel & w2 & Hlen & Hplace).
  pose proof (lengthStage_sameFs E fullPath (Path.basename fullPath) cfg targetRel0 w1)
    as Hfs.
  rewrite Hlen in Hfs. unfold sameFs in Hfs. simpl in Hfs.
  assert (Fs.lookup (w_fs w2) fullPath = Some (File c)) as Hsrc2.
  { rewrite Hfs. by apply Hk1. }
  assert (∀ target extra,
    placeFile E fullPath (Path.basename fullPath) cfg target extra w2
      = (w', Ok (Some (src, dest))) →
    src = fullPath
    ∧ Fs.lookup (w_fs w') dest = Some (File c)
    ∧ Fs.lookup (w_fs w') fullPath = (if moveFiles cfg then None else Some (File c))
    ∧ (∀ c0, Fs.lookup (w_fs w) dest ≠ Some (File c0))) as Hfinal.
  { intros target extra Hp.
    destruct (placeFile_content E _ _ _ _ _ _ _ _ _ _ Hdry Hsrc2 Hp)
      as (? & ? & ? & Hnew).
    split_and!; [done..|]. intros c0 Hc0. apply (Hnew c0).
    rewrite Hfs. by apply Hk1. }
  destruct (_ && _); by apply Hfinal in Hplace.
Qed.

Lemma categorizeFile_places_content_witness :
  let w := worldOf libraryTree in
  let cfg := withFlat kickRules exampleConfig in
  let run := categorizeFile plainHost ["in"; "a.wav"] cfg None w in
  run.2 = Ok (Some (["in"; "a.wav"], ["dst"; "Miscellaneous"; "a.wav"]))
  ∧ Fs.lookup (w_fs run.1) ["dst"; "Miscellaneous"; "a.wav"] = Some (File "new")
  ∧ Fs.lookup (w_fs run.1) ["in"; "a.wav"] = None.
Proof.
  intros w cfg run. split; [reflexivity|].
  destruct (categorizeFile_places_content plainHost ["in"; "a.wav"] cfg None w run.1
              ["in"; "a.wav"] ["dst"; "Miscellaneous"; "a.wav"] "new")
    as (_ & Hd & Hs & _); [reflexivity..|].
  by split.
Defined.

(** ** The destination root *)

Lemma pretty_Z_noSlash (z : Z) : noSlash (pretty z).
Proof.
  assert (∀ n : N, noSlash (pretty n)) as HN.
  { intros n. unfold pretty, pretty_N. case_decide; [done|].
    by apply pretty_N_go_noSlash. }
  destruct z as [|p|p]; [done|apply (HN (Npos p))|].
  apply (noSlash_app "-"); [done|apply (HN (Npos p))].
Qed.

Lemma relJoin_noSlash r s : noSlash s → Path.relJoin r s = Path.relPush r s.
Proof. intros Hs. unfold Path.relJoin. by rewrite split_slash_plain. Qed.

Lemma relJoin_plain r s : plainName s → Path.relJoin r s = r ++ [s].
Proof.
  intros (H1 & H2 & H3 & H4). rewrite relJoin_noSlash by done.
  unfold Path.relPush. by rewrite !decide_False.
Qed.

Lemma joinRel_plain p r : Forall plainName r → Path.joinRel p r = p ++ r.
Proof.
  unfold Path.joinRel. revert p.
  induction r as [|s r IH]; intros p Hr; [by rewrite app_nil_r|].
  apply Forall_cons in Hr as [(H1 & H2 & H3 & H4) Hr]. simpl.
  rewrite IH by done. unfold Path.push. rewrite !decide_False by done.
  by rewrite <- app_assoc.
Qed.

(** A relative target of plain segments, and what the pack label makes of
    it: one level more, the same, or one level less. *)
Lemma relJoin_label r x :
  Forall plainName r → r ≠ [] → noSlash x →
  Forall plainName (Path.relJoin r x).
Proof.
  intros Hr Hne Hx. rewrite relJoin_noSlash by done. unfold Path.relPush.
  repeat case_decide; try done.
  - destruct r as [|a r _] using rev_ind; [done|].
    apply Forall_app in Hr as [_ [(_ & _ & Ha & _) _]%Forall_cons].
    rewrite last_last in *. done.
  - destruct r as [|a r _] using rev_ind; [done|].
    rewrite removelast_last. by apply Forall_app in Hr as [? _].
  - apply Forall_app. split; [done|]. constructor; [done|constructor].
Qed.

Lemma join_prefix dir name :
  noSlash name → name ≠ ".." → Path.isPrefix dir (Path.join dir name) = true.
Proof.
  intros Hs Hne. rewrite join_noSlash_cases by done. unfold Path.push.
  repeat case_decide; try done; try apply isPrefix_refl.
  apply isPrefix_spec. by eexists.
Qed.

Lemma join_label_prefix root dir x :
  noSlash x → Path.isPrefix root dir = true → dir ≠ root →
  Path.isPrefix root (Path.join dir x) = true.
Proof.
  intros Hx Hpre Hne. rewrite join_noSlash_cases by done. unfold Path.push.
  repeat case_decide; try done.
  - by apply isPrefix_dirname.
  - apply (isPrefix_trans _ dir); [done|]. apply isPrefix_spec. by eexists.
Qed.

Lemma uniqueDestPath_prefix t dir name :
  noSlash name → name ≠ ".." →
  Path.isPrefix dir (uniqueDestPath t dir name) = true.
Proof.
  intros Hs Hne. destruct (uniqueDestPath_shape t dir name) as [->|(i & _ & ->)].
  - by apply join_prefix.
  - rewrite join_plain.
    + apply isPrefix_spec. by eexists.
    + apply numbered_plain; [apply basenameExt_noSlash|apply extname_noSlash].
Qed.

Lemma firstMatch_elem spec hay e : firstMatch spec hay = Some e → e ∈ spec.
Proof.
  intros (before & after & -> & _)%firstMatch_spec.
  apply elem_of_app. right. by left.
Qed.

(** The name a rule stands for, as a relative target. *)
Lemma ruleTarget_plain e :
  (main e = "" ∨ plainName (main e)) → plainName (category e) →
  ruleTarget e ≠ [] ∧ Forall plainName (ruleTarget e).
Proof.
  intros Hmain Hcat. unfold ruleTarget.
  destruct Hmain as [->|Hmain].
  - change (Js.truthy "") with false. cbv iota.
    rewrite relJoin_plain by done. simpl. split; [done|].
    constructor; [done|constructor].
  - assert (Js.truthy (main e) = true) as ->.
    { destruct Hmain as [? _]. by destruct (main e). }
    rewrite !relJoin_plain by done. simpl. split; [done|].
    constructor; [done|]. constructor; [done|constructor].
Qed.

Lemma baseTarget_plain cfg fileName parentFolder :
  Forall (λ e, (main e = "" ∨ plainName (main e)) ∧ plainName (category e))
         (_flatCategories cfg) →
  (baseTarget cfg fileName parentFolder).1 ≠ []
  ∧ Forall plainName (baseTarget cfg fileName parentFolder).1.
Proof.
  intros Hrules. rewrite Forall_forall in Hrules.
  unfold baseTarget. cbv zeta. cbn [fst].
  destruct (firstMatch (_flatCategories cfg) (Js.toLowerCase fileName)) as [e|] eqn:H1.
  - apply firstMatch_elem, Hrules in H1 as [? ?]. by apply ruleTarget_plain.
  - destruct (checkParentFolder cfg && Js.truthy parentFolder).
    + destruct (firstMatch _ (normalizeString parentFolder)) as [e|] eqn:H2.
      * apply firstMatch_elem, Hrules in H2 as [? ?]. by apply ruleTarget_plain.
      * split; [done|]. constructor; [by vm_compute|constructor].
    + split; [done|]. constructor; [by vm_compute|constructor].
Qed.

Lemma last_elem {A} (l : list A) d : l ≠ [] → List.last l d ∈ l.
Proof.
  destruct l as [|a l _] using rev_ind; [done|]. intros _.
  rewrite last_last. apply elem_of_app. right. by left.
Qed.

Section Confinement.
Context (E : collaborators).

(** The length step keeps the target or adds one folder to it. *)
Lemma lengthStage_plain fullPath fileName cfg rel w w' rel' :
  lengthStage E fullPath fileName cfg rel w = (w', Ok rel') →
  rel ≠ [] → Forall plainName rel →
  rel' ≠ [] ∧ Forall plainName rel'.
Proof.
  intros Hrun Hne Hrel. unfold lengthStage in Hrun.
  destruct (checkLength cfg); [|by injection Hrun as _ <-].
  cbv zeta in Hrun.
  destruct (0 <? lengthThreshold cfg)%Z; [|by injection Hrun as _ <-].
  apply tryCatch_inv in Hrun as [(w1 & a & Hbody & [= <- <-])|(w1 & e & _ & Hh)].
  - apply bind_inv_Ok in Hbody as ([] & w2 & _ & Hbody).
    apply bind_inv_Ok in Hbody as (content & w3 & _ & Hbody).
    apply bind_inv_Ok in Hbody as (duration & w4 & _ & Hbody).
    destruct duration as [dur|]; [|by injection Hbody as _ <-].
    destruct (exceeds dur (lengthThreshold cfg)); [|by injection Hbody as _ <-].
    destruct (negb _); [|by injection Hbody as _ <-].
    injection Hbody as _ <-.
    assert (plainName (List.last rel "" +:+ " - Over "
                       +:+ pretty (lengthThreshold cfg) +:+ " seconds")) as Hplain.
    { pose proof (last_elem rel "" Hne) as Hin.
      rewrite Forall_forall in Hrel. destruct (Hrel _ Hin) as (Hl & _ & _ & Hs).
      assert (∀ x, 3 ≤ String.length (List.last rel "" +:+ " - Over " +:+ x)) as Hlen.
      { intros x. rewrite slength_app. simpl. lia. }
      split_and!.
      - intros Heq. specialize (Hlen (pretty (lengthThreshold cfg) +:+ " seconds")).
        rewrite Heq in Hlen. simpl in Hlen. lia.
      - intros Heq. specialize (Hlen (pretty (lengthThreshold cfg) +:+ " seconds")).
        rewrite Heq in Hlen. simpl in Hlen. lia.
      - intros Heq. specialize (Hlen (pretty (lengthThreshold cfg) +:+ " seconds")).
        rewrite Heq in Hlen. simpl in Hlen. lia.
      - apply noSlash_app; [done|]. apply (noSlash_app " - Over "); [done|].
        apply noSlash_app; [apply pretty_Z_noSlash|done]. }
    rewrite relJoin_plain by done. split; [by destruct rel|].
    apply Forall_app. split; [done|]. constructor; [done|constructor].
  - symmetry in Hh. apply bind_inv_Ok in Hh as ([] & w2 & _ & [= _ <-]). done.
Qed.

End Confinement.

Lemma packLabelFromSamples_noSlash absFile samplesDir :
  noSlash (packLabelFromSamples absFile samplesDir).
Proof.
  unfold packLabelFromSamples. destruct (negb (Js.truthy samplesDir)); [done|].
  cbv zeta. destruct (negb (startsWithDir _ _)); [done|].
  destruct (filter _ _) as [|s0 rest]; [done|].
  destruct (Js.truthy _); [|apply sanitizeFolderName_noSlash].
  apply noSlash_app; [apply sanitizeFolderName_noSlash|].
  apply (noSlash_app " ("); [done|].
  apply noSlash_app; [|done].
  destruct rest as [|s1 [|s2 rest]]; try done. apply sanitizeFolderName_noSlash.
Qed.

Lemma packLabelFromTemp_noSlash absFile destDir :
  noSlash (packLabelFromTemp absFile destDir).
Proof.
  unfold packLabelFromTemp. cbv zeta. destruct (negb (startsWithDir _ _)); [done|].
  destruct (_ && _); [apply sanitizeFolderName_noSlash|done].
Qed.

Lemma packLabelOf_noSlash cfg fullPath : noSlash (packLabelOf cfg fullPath).
Proof.
  unfold packLabelOf. destruct (keepPackSubfolder cfg); [|done].
  unfold Js.orElse. destruct (Js.truthy _);
    [apply packLabelFromSamples_noSlash|apply packLabelFromTemp_noSlash].
Qed.

Lemma placeFile_prefix E p n cfg target extra w w' src dest root :
  placeFile E p n cfg target extra w = (w', Ok (Some (src, dest))) →
  noSlash n → n ≠ ".." → Path.isPrefix root target = true →
  Path.isPrefix root dest = true.
Proof.
  intros [_ Hdest]%placeFile_result Hn Hne Hroot.
  apply (isPrefix_trans _ target); [done|].
  destruct (dryRun cfg).
  - subst dest. by apply join_prefix.
  - destruct Hdest as [t ->]. by apply uniqueDestPath_prefix.
Qed.

Lemma basename_noSlash p : Forall noSlash p → noSlash (Path.basename p).
Proof. intros Hp. unfold Path.basename. by apply last_Forall. Qed.

(** Property X13: with rules whose names are single path segments, and a
    MIDI folder name that is one, every destination [categorizeFile]
    returns lies in the destination root, whatever the names of the file,
    of its folders and of its pack are. *)
Theorem categorizeFile_stays_in_destination E fullPath cfg dedupe w w' src dest :
  Forall noSlash fullPath →
  Forall (λ e, (main e = "" ∨ plainName (main e)) ∧ plainName (category e))
         (_flatCategories cfg) →
  Js.trim (midiFolderName cfg) = "" ∨ plainName (Js.trim (midiFolderName cfg)) →
  categorizeFile E fullPath cfg dedupe w = (w', Ok (Some (src, dest))) →
  Path.isPrefix (Path.abs (destDir cfg)) dest = true.
Proof.
  intros Hpath Hrules Hmidi. unfold categorizeFile. cbv zeta.
  destruct (isHiddenName (Path.basename fullPath)) eqn:Hhid; [done|].
  assert (Path.basename fullPath ≠ "..") as Hne by (by intros Heq; rewrite Heq in Hhid).
  pose proof (basename_noSlash _ Hpath) as Hname.
  destruct (negb (isAcceptedExt _ _)).
  { intros (? & ? & _ & [=])%bind_inv_Ok. }
  intros (stop & w1 & _ & Hrest)%bind_inv_Ok.
  destruct stop; [done|].
  destruct (baseTarget_plain cfg (Path.basename fullPath)
              match removelast (Path.relative (Path.abs (samplesDir cfg)) fullPath) with
              | [] => "."
              | (_ :: _) as l => List.last l ""
              end Hrules) as [Hne0 Hplain0].
  destruct (baseTarget _ _ _) as [targetRel0 used]. cbn [fst] in Hne0, Hplain0.
  apply bind_inv_Ok in Hrest as (targetRel & w2 & Hlen & Hplace).
  destruct (lengthStage_plain E _ _ _ _ _ _ _ Hlen Hne0 Hplain0) as [Hne1 Hplain1].
  fold (packLabelOf cfg fullPath) in Hplace.
  pose proof (packLabelOf_noSlash cfg fullPath) as Hpack.
  destruct (_ && _).
  - apply (placeFile_prefix _ _ _ _ _ _ _ _ _ _ (Path.abs (destDir cfg))) in Hplace;
      [done..|].
    assert (plainName (Js.orElse (Js.trim (Js.orElse (midiFolderName cfg) "MIDI")) "MIDI"))
      as Hroot.
    { unfold Js.orElse at 2. destruct (midiFolderName cfg) as [|c s] eqn:Hm.
      - by vm_compute.
      - change (Js.truthy (String c s)) with true. cbv iota.
        destruct Hmidi as [->|Hm']; [by vm_compute|].
        unfold Js.orElse. destruct Hm' as [Hm1 ?].
        destruct (Js.trim (String c s)); [done|]. by split. }
    rewrite (join_plain _ _ Hroot).
    destruct (Js.truthy (packLabelOf cfg fullPath)).
    + apply join_label_prefix; [done| |].
      * apply isPrefix_spec. by eexists.
      * intros Heq. apply (f_equal length) in Heq. rewrite length_app in Heq.
        simpl in Heq. lia.
    + apply isPrefix_spec. by eexists.
  - apply (placeFile_prefix _ _ _ _ _ _ _ _ _ _ (Path.abs (destDir cfg))) in Hplace;
      [done..|].
    rewrite joinRel_plain.
    + apply isPrefix_spec. by eexists.
    + destruct (_ && _); [|done].
      apply relJoin_label; [done..|apply sanitizeFolderName_noSlash].
Qed.

Lemma categorizeFile_stays_in_destination_witness :
  let cfg := withFlat kickRules exampleConfig in
  let run := categorizeFile plainHost ["src"; "kick_01.wav"] cfg None
               (worldOf noDestTree) in
  run.2 = Ok (Some (["src"; "kick_01.wav"], ["dst"; "Kick"; "kick_01.wav"]))
  ∧ Path.isPrefix (Path.abs "/dst") ["dst"; "Kick"; "kick_01.wav"] = true.
Proof.
  intros cfg run. split; [reflexivity|].
  apply (categorizeFile_stays_in_destination plainHost ["src"; "kick_01.wav"] cfg
           None (worldOf noDestTree) run.1 ["src"; "kick_01.wav"]).
  - by repeat constructor.
  - repeat (constructor; [split; [by left|by vm_compute]|]). constructor.
  - right. by vm_compute.
  - reflexivity.
Defined.

(** ** The events of a run *)

Global Instance logsOnly_preorder : PreOrder logsOnly.
Proof.
  split.
  - intros w. exists []. by rewrite app_nil_r.
  - intros w1 w2 w3 (l1 & H1 & Hl1) (l2 & H2 & Hl2). exists (l1 ++ l2).
    split; [by rewrite H2, H1, app_assoc|by apply Forall_app].
Qed.

Lemma logsOnly_same w w' : w_sent w' = w_sent w → logsOnly w w'.
Proof. intros H. exists []. by rewrite app_nil_r. Qed.

Lemma logsOnly_sendLog msg severity : steps logsOnly (sendLog msg severity).
Proof. intros w. exists [OrganizingLog msg severity]. split; [done|]. by repeat constructor. Qed.
Lemma logsOnly_fsDo f : steps logsOnly (fsDo f).
Proof. intros w. apply logsOnly_same. unfold fsDo. by destruct (f (w_fs w)). Qed.
Lemma logsOnly_setCancel b : steps logsOnly (setCancel b).
Proof. intros w. by apply logsOnly_same. Qed.
Lemma logsOnly_suspend : steps logsOnly suspend.
Proof. intros w. apply logsOnly_same. unfold suspend. by destruct (w_inbox w). Qed.
Lemma logsOnly_indexSet h p : steps logsOnly (indexSet h p).
Proof. intros w. by apply logsOnly_same. Qed.
Lemma logsOnly_indexNew : steps logsOnly indexNew.
Proof. intros w. by apply logsOnly_same. Qed.
Lemma logsOnly_movedNew : steps logsOnly movedNew.
Proof. intros w. by apply logsOnly_same. Qed.
Lemma logsOnly_movedPush r : steps logsOnly (movedPush r).
Proof. intros w. apply logsOnly_same. by destruct r. Qed.

#[export] Hint Resolve logsOnly_sendLog logsOnly_fsDo logsOnly_setCancel
  logsOnly_suspend logsOnly_indexSet logsOnly_indexNew logsOnly_movedNew
  logsOnly_movedPush : frame.

Section Events.
Context (E : collaborators).

Lemma logsOnly_unrar file destination : steps logsOnly (unrar E file destination).
Proof.
  intros w. apply logsOnly_same. unfold unrar.
  destruct (Fs.readFile (w_fs w) file); [|done].
  by destruct (unrarExtract E _ _ _) as [[??]|?].
Qed.

Lemma logsOnly_flattenLoop fuel folder items :
  steps logsOnly (flattenLoop E fuel folder items).
Proof.
  revert items. induction fuel as [|fuel IH]; intros items; simpl; frame.
Qed.

Lemma logsOnly_flattenLoopRar fuel folder items :
  steps logsOnly (flattenLoopRar E fuel folder items).
Proof.
  revert items. induction fuel as [|fuel IH]; intros items; simpl; frame.
Qed.

Lemma logsOnly_extractZip zipPath dest keep :
  steps logsOnly (extractZip E zipPath dest keep).
Proof.
  pose proof logsOnly_flattenLoop.
  unfold extractZip, flattenAndCollect, flattenSingleFolders, walkFiles,
    extractEntry. frame.
Qed.

Lemma logsOnly_extractRarArchive file dest keep :
  steps logsOnly (extractRarArchive E file dest keep).
Proof.
  pose proof logsOnly_flattenLoopRar. pose proof logsOnly_unrar.
  unfold extractRarArchive, flattenSingleFoldersRar. frame.
Qed.

Lemma logsOnly_categorizeFile p cfg d : steps logsOnly (categorizeFile E p cfg d).
Proof.
  unfold categorizeFile, dedupeStage, onDuplicate, onHashingFailed, lengthStage,
    placeFile, moveOrCopySync, computeFileHash. cbv zeta. frame.
Qed.

Lemma logsOnly_seedLoop files cfg d seeded j :
  steps logsOnly (seedLoop E files cfg d seeded j).
Proof.
  revert seeded j. induction files as [|f files IH]; intros seeded j; simpl;
    unfold computeFileHash; frame.
Qed.

Lemma logsOnly_extractedLoop files cfg d k :
  steps logsOnly (extractedLoop E files cfg d k).
Proof.
  pose proof logsOnly_categorizeFile.
  revert k. induction files as [|f files IH]; intros k; simpl; frame.
Qed.

Lemma logsOnly_organizeArchive p n ext temp cfg d :
  steps logsOnly (organizeArchive E p n ext temp cfg d).
Proof.
  pose proof logsOnly_extractZip. pose proof logsOnly_extractRarArchive.
  pose proof logsOnly_extractedLoop.
  unfold organizeArchive, removeFolderRecursive, getAllFiles. frame.
Qed.

Lemma logsOnly_fileLoop files cfg d i : steps logsOnly (fileLoop E files cfg d i).
Proof.
  pose proof logsOnly_categorizeFile. pose proof logsOnly_organizeArchive.
  revert i. induction files as [|f files IH]; intros i; simpl; frame.
Qed.

Lemma logsOnly_seedFromDestination cfg d :
  steps logsOnly (seedFromDestination E cfg d).
Proof.
  unfold seedFromDestination, getAllFiles. pose proof logsOnly_seedLoop. frame.
Qed.

End Events.

Lemma reportsOnce_logs cfg w w' : logsOnly w w' → reportsOnce cfg w w'.
Proof. intros (logs & H & Hl). exists logs. split; [done|by left]. Qed.

Lemma reportsOnce_after cfg w w1 w' :
  logsOnly w w1 → reportsOnce cfg w1 w' → reportsOnce cfg w w'.
Proof.
  intros (l1 & H1 & Hl1) (l2 & Hl2 & [H2|(moved & H2)]); exists (l1 ++ l2);
    (split; [by apply Forall_app|]).
  - left. by rewrite H2, H1, app_assoc.
  - right. exists moved. by rewrite H2, H1, !app_assoc.
Qed.

Lemma reportsOnce_bind cfg {A B} (m : M A) (k : A → M B) :
  steps logsOnly m → (∀ a w1, reportsOnce cfg w1 (k a w1).1) →
  ∀ w, reportsOnce cfg w ((m ≫= k) w).1.
Proof.
  intros Hm Hk w. unfold mbind, M_bind. specialize (Hm w).
  destruct (m w) as [w1 [a|e]]; simpl in Hm.
  - apply (reportsOnce_after _ _ w1); [done|apply Hk].
  - by apply reportsOnce_logs.
Qed.

Lemma reportsOnce_done cfg moved w :
  reportsOnce cfg w (send (OrganizingDone (destDir cfg) (dryRun cfg) moved) w).1.
Proof. exists []. split; [constructor|]. right. by exists moved. Qed.

Global Instance sameMoved_preorder : PreOrder sameMoved.
Proof.
  split; [by intros w|]. intros w1 w2 w3 H12 H23. unfold sameMoved in *. congruence.
Qed.

Lemma sameMoved_send ev : steps sameMoved (send ev).
Proof. by intros w. Qed.
Lemma sameMoved_fsDo f : steps sameMoved (fsDo f).
Proof. intros w. unfold fsDo. by destruct (f (w_fs w)). Qed.
Lemma sameMoved_indexNew : steps sameMoved indexNew.
Proof. by intros w. Qed.

#[export] Hint Resolve sameMoved_send sameMoved_fsDo sameMoved_indexNew : frame.

Section Reports.
Context (E : collaborators).

Lemma organizeBody_reportsOnce cfg w : reportsOnce cfg w (organizeBody E cfg w).1.
Proof.
  unfold organizeBody. cbv zeta. revert w.
  apply reportsOnce_bind; [frame|intros _].
  apply reportsOnce_bind; [frame|intros _].
  apply reportsOnce_bind; [frame|intros _].
  apply reportsOnce_bind; [apply logsOnly_seedFromDestination|intros proceed].
  destruct proceed; simpl; [|intros w; by apply reportsOnce_logs].
  apply reportsOnce_bind; [frame|intros _].
  apply reportsOnce_bind; [unfold getAllFiles; frame|intros files].
  apply reportsOnce_bind; [frame|intros _].
  destruct files as [|f files].
  - apply reportsOnce_bind; [frame|intros _]. apply (reportsOnce_done cfg).
  - apply reportsOnce_bind; [apply logsOnly_fileLoop|intros _].
    apply reportsOnce_bind; [frame|intros moved]. apply (reportsOnce_done cfg).
Qed.

Lemma send_inv ev w w' :
  send ev w = (w', Ok tt) → w' = withSent (w_sent w ++ [ev]) w.
Proof. by intros [= <-]. Qed.

Lemma steps_at {A} (R : relation world) (m : M A) w w' r :
  steps R m → m w = (w', r) → R w w'.
Proof. intros Hm Hrun. specialize (Hm w). by rewrite Hrun in Hm. Qed.

(** Without the seeding of the index, a run that comes to its end has
    sent its completion last. *)
Lemma organizeBody_done_last cfg w w' :
  dedupeEnabled cfg && dedupePreferDest cfg = false →
  organizeBody E cfg w = (w', Ok tt) →
  last (w_sent w') = Some (OrganizingDone (destDir cfg) (dryRun cfg) (w_moved w')).
Proof.
  intros Hseed. unfold organizeBody. cbv zeta.
  intros ([] & w1 & [= <-] & Hrun)%bind_inv_Ok.
  apply bind_inv_Ok in Hrun as ([] & w2 & [= <-] & Hrun).
  apply bind_inv_Ok in Hrun as ([] & w3 & H3 & Hrun).
  apply (steps_at sameMoved) in H3; [|frame].
  apply bind_inv_Ok in Hrun as (proceed & w4 & Hproceed & Hrun).
  unfold seedFromDestination in Hproceed. cbn [enabled preferDest] in Hproceed.
  change (dedupeEnabled (withFlat ?f cfg)) with (dedupeEnabled cfg) in Hproceed.
  change (dedupePreferDest (withFlat ?f cfg)) with (dedupePreferDest cfg) in Hproceed.
  rewrite Hseed in Hproceed. injection Hproceed as <- <-. simpl in Hrun.
  apply bind_inv_Ok in Hrun as ([] & w5 & H5 & Hrun).
  apply (steps_at sameMoved) in H5; [|frame].
  apply bind_inv_Ok in Hrun as (files & w6 & H6 & Hrun).
  apply (steps_at sameMoved) in H6; [|unfold getAllFiles; frame].
  apply bind_inv_Ok in Hrun as ([] & w7 & H7 & Hrun).
  apply (steps_at sameMoved) in H7; [|frame].
  assert (∀ moved w8, w_moved w8 = moved →
    send (OrganizingDone (destDir cfg) (dryRun cfg) moved) w8 = (w', Ok tt) →
    last (w_sent w') = Some (OrganizingDone (destDir cfg) (dryRun cfg) (w_moved w')))
    as Hend.
  { intros moved w8 Hmoved ->%send_inv. simpl. by rewrite last_snoc, Hmoved. }
  destruct files as [|f files].
  - apply bind_inv_Ok in Hrun as ([] & w8 & H8 & Hrun).
    apply (steps_at sameMoved) in H8; [|frame].
    apply (Hend [] w8); [|done].
    unfold sameMoved in *. by rewrite H8, H7, H6, H5, H3.
  - apply bind_inv_Ok in Hrun as ([] & w8 & _ & Hrun).
    apply bind_inv_Ok in Hrun as (moved & w9 & [= <- <-] & Hrun).
    by apply (Hend (w_moved w8) w8).
Qed.

End Reports.

(** Property X14: whatever happens in a run, what [startOrganizing] sends
    is a sequence of log lines followed, at most once and as the very last
    event, by the completion of the run; and when the two directories are
    there, the index is not seeded from the destination, and the run comes
    to its end, also after a cancel request, the completion is sent, with
    the list of the files placed. *)
Theorem startOrganizing_reports_once E cfg w :
  let run := startOrganizing E cfg w in
  reportsOnce cfg w run.1
  ∧ (existsStr (w_fs w) (samplesDir cfg) = true →
     existsStr (w_fs w) (destDir cfg) = true →
     dedupeEnabled cfg && dedupePreferDest cfg = false →
     run.2 = Ok tt →
     last (w_sent run.1)
     = Some (OrganizingDone (destDir cfg) (dryRun cfg) (w_moved run.1))).
Proof.
  intros run. subst run. rewrite startOrganizing_cases. cbv zeta. split.
  - destruct (existsStr (w_fs w) (samplesDir cfg)); simpl.
    2:{ apply reportsOnce_logs. apply (logsOnly_sendLog _ _ (withCancel false w)). }
    destruct (Js.truthy (destDir cfg)); simpl.
    2:{ apply reportsOnce_logs. apply (logsOnly_sendLog _ _ (withCancel false w)). }
    destruct (existsStr (w_fs w) (destDir cfg)).
    + apply (organizeBody_reportsOnce E cfg (withCancel false w)).
    + destruct (Fs.mkdirSync _ _) as [t|e].
      * eapply reportsOnce_after; [|apply (organizeBody_reportsOnce E cfg)].
        eexists [_]. split; [done|]. by repeat constructor.
      * apply reportsOnce_logs. eexists [_]. split; [done|]. by repeat constructor.
  - intros -> Hdest Hseed. simpl.
    assert (Js.truthy (destDir cfg) = true) as ->.
    { unfold existsStr in Hdest. by apply andb_true_iff in Hdest as [? _]. }
    rewrite Hdest. simpl.
    destruct (organizeBody E cfg (withCancel false w)) as [w' [[]|e]] eqn:Hrun; [|done].
    intros _. by apply (organizeBody_done_last E cfg _ _ Hseed Hrun).
Qed.

Lemma startOrganizing_reports_once_witness :
  let run := startOrganizing plainHost noDedupeConfig (worldOf midiTree) in
  reportsOnce noDedupeConfig (worldOf midiTree) run.1
  ∧ last (w_sent run.1)
    = Some (OrganizingDone "/dst" false
              [(["src"; "kick_groove.mid"], ["dst"; "MIDI"; "kick_groove.mid"])]).
Proof.
  intros run.
  destruct (startOrganizing_reports_once plainHost noDedupeConfig (worldOf midiTree))
    as [Hshape Hdone].
  split; [exact Hshape|]. subst run. rewrite Hdone by reflexivity. reflexivity.
Defined.

(** ** Seeding the index from the destination *)

Lemma suspend_calm w :
  calm w →
  ∃ w1, suspend w = (w1, Ok tt) ∧ calm w1
    ∧ w_fs w1 = w_fs w ∧ w_index w1 = w_index w.
Proof.
  intros [Hc Hin]. unfold suspend. destruct (w_inbox w) as [|b rest] eqn:Hbox.
  - exists w. by repeat split; try rewrite Hbox.
  - apply Forall_cons in Hin as [-> Hrest]. eexists. split; [done|].
    repeat split; simpl; try done. by rewrite Hc.
Qed.

Section Seeding.
Context (E : collaborators).

Lemma computeFileHash_calm f a w :
  calm w →
  ∃ w1, (computeFileHash E f a w).1 = w1 ∧ calm w1
    ∧ w_fs w1 = w_fs w ∧ w_index w1 = w_index w
    ∧ ∀ digest c, createHash E a = Some digest →
        Fs.lookup (w_fs w) f = Some (File c) →
        (computeFileHash E f a w).2 = Ok (digest c).
Proof.
  intros Hcalm. destruct (suspend_calm w Hcalm) as (w1 & Hs & Hcalm1 & Hfs & Hidx).
  exists w1. unfold computeFileHash, mbind, M_bind. rewrite Hs.
  destruct (createHash E a) as [digest|].
  2:{ split_and!; [done|done|done|done|]. by intros ?? [=]. }
  unfold fsTry, Fs.readFile.
  destruct (Fs.lookup (w_fs w1) f) as [[c|es]|] eqn:Hf; simpl;
    (split_and!; [done|done|done|done|]);
    intros digest' c' [= <-] Hc'; rewrite <- Hfs in Hc'; congruence.
Qed.

Lemma seedLoop_indexes cfg d digest :
  createHash E (algo d) = Some digest →
  ∀ files seeded j w w' r,
    calm w →
    seedLoop E files cfg d seeded j w = (w', r) →
    calm w' ∧ w_fs w' = w_fs w ∧ indexGrows w w'
    ∧ ∀ f c, f ∈ files → isAcceptedExt f cfg = true →
        Fs.lookup (w_fs w) f = Some (File c) →
        is_Some (w_index w' !! digest c).
Proof.
  intros Hhash. induction files as [|f files IH]; intros seeded j w w' r Hcalm Hrun.
  - injection Hrun as <- _. split_and!; [done|done|reflexivity|].
    intros f c Hf. by apply elem_of_nil in Hf.
  - simpl in Hrun. unfold mbind at 1, M_bind at 1 in Hrun. cbn [getCancel] in Hrun.
    destruct Hcalm as [Hc Hin]. rewrite Hc in Hrun.
    destruct (isAcceptedExt f cfg) eqn:Hacc; cbn [negb] in Hrun.
    2:{ destruct (IH seeded j w w' r (conj Hc Hin) Hrun) as (H1 & H2 & H3 & H4).
        split_and!; [done..|].
        intros g c Hg Hg' Hl. apply elem_of_cons in Hg as [->|Hg]; [congruence|].
        by apply (H4 g c). }
    destruct (computeFileHash_calm f (algo d) w (conj Hc Hin))
      as (w1 & Hw1 & Hcalm1 & Hfs1 & Hidx1 & Hres).
    assert (∃ w2 fresh,
      tryCatch
        (h ← computeFileHash E f (algo d);
         known ← indexGet h;
         match known with
         | None => indexSet h f ;; mret true
         | Some _ => mret false
         end) (λ _, mret false) w = (w2, Ok fresh)
      ∧ calm w2 ∧ w_fs w2 = w_fs w ∧ indexGrows w w2
      ∧ ∀ c, Fs.lookup (w_fs w) f = Some (File c) → is_Some (w_index w2 !! digest c))
      as (w2 & fresh & Hbody & Hcalm2 & Hfs2 & Hgrow2 & Hin2).
    { unfold tryCatch, mbind at 1, M_bind at 1.
      destruct (computeFileHash E f (algo d) w) as [w1' [h|e]] eqn:Hhashed;
        simpl in Hw1; subst w1'.
      - unfold mbind at 1, M_bind at 1. cbn [indexGet].
        destruct (w_index w1 !! h) as [g|] eqn:Hg.
        + exists w1, false. split_and!; [done..| |].
          * intros h' p' Hh'. by rewrite Hidx1.
          * intros c Hc'. specialize (Hres digest c Hhash Hc'). simpl in Hres.
            injection Hres as ->. by rewrite Hg.
        + exists (withIndex (<[h := f]> (w_index w1)) w1), true.
          split_and!; [done|by destruct Hcalm1|done| |].
          * intros h' p' Hh'. simpl. rewrite lookup_insert_ne; [by rewrite Hidx1|].
            intros ->. rewrite <- Hidx1 in Hh'. congruence.
          * intros c Hc'. specialize (Hres digest c Hhash Hc'). simpl in Hres.
            injection Hres as ->. simpl. by rewrite lookup_insert_eq.
      - exists w1, false. split_and!; [done..| |].
        + intros h' p' Hh'. by rewrite Hidx1.
        + intros c Hc'. specialize (Hres digest c Hhash Hc'). simpl in Hres. done. }
    unfold mbind at 1, M_bind at 1 in Hrun. rewrite Hbody in Hrun.
    assert (∃ w3, (if everyFifty (S j) then suspend else mret tt) w2 = (w3, Ok tt)
                  ∧ calm w3 ∧ w_fs w3 = w_fs w2 ∧ w_index w3 = w_index w2)
      as (w3 & Hsus & Hcalm3 & Hfs3 & Hidx3).
    { destruct (everyFifty (S j)); [by apply suspend_calm|]. by exists w2. }
    unfold mbind at 1, M_bind at 1 in Hrun. rewrite Hsus in Hrun.
    destruct (IH _ _ _ _ _ Hcalm3 Hrun) as (H1 & H2 & H3 & H4).
    split_and!; [done| | |].
    + by rewrite H2, Hfs3.
    + intros h p Hh. apply H3. rewrite Hidx3. by apply Hgrow2.
    + intros g c Hg Hg' Hl. apply elem_of_cons in Hg as [->|Hg].
      * destruct (Hin2 c Hl) as [p Hp]. exists p. apply H3. by rewrite Hidx3.
      * apply (H4 g c); [done..|]. by rewrite Hfs3, Hfs2.
Qed.

End Seeding.

(** Property X15: when no cancel request comes and the digest is known to
    the platform, seeding the index from the destination leaves the file
    system as it is, keeps every entry the index had, and leaves in the
    index the digest of every file of the destination that [getAllFiles]
    lists and whose extension is accepted; the run goes on. *)
Theorem seeding_indexes_destination E cfg d digest w files :
  enabled d = true → preferDest d = true →
  calm w → createHash E (algo d) = Some digest →
  (getAllFiles (Path.abs (destDir cfg)) w).2 = Ok files →
  let run := seedFromDestination E cfg d w in
  run.2 = Ok true
  ∧ w_fs run.1 = w_fs w
  ∧ indexGrows w run.1
  ∧ ∀ f c, f ∈ files → isAcceptedExt f cfg = true →
      Fs.lookup (w_fs w) f = Some (File c) →
      is_Some (w_index run.1 !! digest c).
Proof.
  intros Hen Hpref Hcalm Hhash Hfiles run.
  assert (∃ w1 seeded,
    seedLoop E files cfg d 0 0
      (withSent (w_sent w ++ [OrganizingLog
         "Indexing destination files for duplicate detection." "info"]) w)
    = (w1, Ok seeded)
    ∧ run = (withSent (w_sent w1 ++ [OrganizingLog
               ("Indexed " +:+ pretty seeded
                +:+ " destination files for duplicate detection.") "warning"]) w1,
             Ok true)) as (w1 & seeded & Hloop & ->).
  { subst run. unfold seedFromDestination. rewrite Hen, Hpref. cbn [andb].
    unfold mbind at 1, M_bind at 1. cbn [sendLog send].
    set (w0 := withSent _ w).
    assert (calm w0) as Hcalm0 by (destruct Hcalm; by split).
    unfold mbind at 1, M_bind at 1.
    assert (getAllFiles (Path.abs (destDir cfg)) w0 = (w0, Ok files)) as ->.
    { unfold getAllFiles, mbind, M_bind, fsTry in Hfiles |- *.
      change (w_fs w0) with (w_fs w).
      destruct (dirAt (w_fs w) (Path.abs (destDir cfg))); simpl in Hfiles |- *;
        [by injection Hfiles as ->|done]. }
    unfold mbind at 1, M_bind at 1.
    pose proof (seedLoop_noThrow E files cfg d 0 0 w0) as [seeded Hok].
    destruct (seedLoop E files cfg d 0 0 w0) as [w1 r] eqn:Hrun.
    simpl in Hok. subst r. exists w1, seeded. split; [done|].
    destruct (seedLoop_indexes E cfg d digest Hhash files 0 0 w0 w1 _ Hcalm0 Hrun)
      as ([Hc1 _] & _).
    unfold mbind at 1, M_bind at 1. cbn [getCancel]. by rewrite Hc1. }
  assert (calm (withSent (w_sent w ++ [OrganizingLog
            "Indexing destination files for duplicate detection." "info"]) w))
    as Hcalm0 by (destruct Hcalm; by split).
  destruct (seedLoop_indexes E cfg d digest Hhash files 0 0 _ w1 _ Hcalm0 Hloop)
    as (Hcalm1 & Hfs1 & Hgrow1 & Hin1).
  simpl. split_and!; [done|done| |done].
  intros h p Hh. by apply Hgrow1.
Qed.

Lemma seeding_indexes_destination_witness :
  let run := seedFromDestination plainHost exampleConfig (exampleDedupe "skip")
               (worldOf libraryTreeInDest) in
  run.2 = Ok true
  ∧ w_index run.1 !! "old" = Some ["dst"; "a.wav"].
Proof.
  intros run.
  destruct (seeding_indexes_destination plainHost exampleConfig (exampleDedupe "skip")
              (λ c, c) (worldOf libraryTreeInDest)
              [["dst"; "a.wav"]; ["dst"; "a (2).wav"]])
    as (Hok & _ & _ & _); [done|done|by split|done|reflexivity|].
  split; [exact Hok|reflexivity].
Defined.

(** ** The entries of a ZIP archive *)

Lemma writeFile_stores p data t t' :
  Fs.writeFile p data t = Ok t' → Fs.lookup t' p = Some (File data).
Proof.
  unfold Fs.writeFile.
  destruct (Fs.lookup t (Path.dirname p)) as [[|es]|]; try done.
  destruct (Fs.lookup t p) as [[|]|]; try done;
    destruct (Fs.put p (File data) t) as [t1|] eqn:Hput; try done;
    intros [= <-]; by apply (lookup_put_same _ _ _ _ Hput).
Qed.

(** Property X16: [extractZip] passes over an entry that is a directory or
    whose path leads out of the scratch directory without touching anything;
    any other entry it has dealt with is a file at the place its path
    resolves to, strictly below the scratch directory, with the data of the
    entry, and no file outside the scratch directory has changed. *)
Theorem extractEntry_stores_or_skips destDir entryPath isDirectory data w w' :
  let target := Path.resolve destDir (stripLeadingSlashes entryPath) in
  extractEntry destDir (entryPath, isDirectory, data) w = (w', Ok tt) →
  (isDirectory = true ∨ startsWithDir target destDir = false → w' = w)
  ∧ (isDirectory = false → startsWithDir target destDir = true →
     Fs.lookup (w_fs w') target = Some (File data)
     ∧ Path.isPrefix destDir target = true ∧ target ≠ destDir)
  ∧ (∀ q c, Path.isPrefix destDir q = false →
       Fs.lookup (w_fs w') q = Some (File c) ↔ Fs.lookup (w_fs w) q = Some (File c)).
Proof.
  intros target Hrun. split_and!.
  - intros Hskip. unfold extractEntry in Hrun. fold target in Hrun.
    destruct isDirectory; [by injection Hrun as <-|].
    destruct Hskip as [?|Hout]; [done|]. rewrite Hout in Hrun.
    by injection Hrun as <-.
  - intros -> Hin. unfold extractEntry in Hrun. fold target in Hrun.
    rewrite Hin in Hrun. cbn [negb] in Hrun.
    apply bind_inv_Ok in Hrun as ([] & w1 & _ & Hrun).
    apply bind_inv_Ok in Hrun as ([] & w2 & _ & Hrun).
    apply bind_inv_Ok in Hrun as ([] & w3 & Hwrite & Hrun).
    apply fsDo_Ok, writeFile_stores in Hwrite.
    pose proof (sameFs_suspend w3) as Hfs. rewrite Hrun in Hfs.
    unfold sameFs in Hfs. simpl in Hfs. rewrite Hfs.
    split_and!; [done|by apply startsWithDir_prefix|].
    unfold startsWithDir in Hin. destruct destDir; [done|].
    apply andb_true_iff in Hin as [_ Hne%negb_true_iff].
    by apply bool_decide_eq_false in Hne.
  - intros q c Hq.
    pose proof (extractEntry_confined destDir (entryPath, isDirectory, data) w) as Hc.
    rewrite Hrun in Hc. by apply Hc.
Qed.

Lemma extractEntry_stores_or_skips_witness :
  let w := worldOf (Dir [("dst", Dir [("_temp_pack", Dir [])])]) in
  let run := extractEntry ["dst"; "_temp_pack"] ("/Pack/a.wav", false, "A") w in
  Fs.lookup (w_fs run.1) ["dst"; "_temp_pack"; "Pack"; "a.wav"] = Some (File "A")
  ∧ (extractEntry ["dst"; "_temp_pack"] ("../evil.wav", false, "EVIL") w).1 = w.
Proof.
  intros w run. split.
  - destruct (extractEntry_stores_or_skips ["dst"; "_temp_pack"] "/Pack/a.wav" false
                "A" w run.1) as (_ & Hstore & _); [reflexivity|].
    by destruct Hstore as (Hfile & _).
  - destruct (extractEntry_stores_or_skips ["dst"; "_temp_pack"] "../evil.wav" false
                "EVIL" w (extractEntry ["dst"; "_temp_pack"]
                            ("../evil.wav", false, "EVIL") w).1)
      as (Hskip & _); [reflexivity|].
    apply Hskip. by right.
Defined.

(** ** Normalised strings *)

Lemma singleBlanks_squeeze inrun s :
  singleBlanks inrun (Js.squeeze Js.isSpace inrun s) = true.
Proof.
  revert inrun. induction s as [|c s IH]; intros inrun; [done|]. simpl.
  destruct (Js.isSpace c) eqn:Hc.
  - destruct inrun; [apply IH|]. simpl. apply IH.
  - simpl. rewrite Hc. apply IH.
Qed.

Lemma squeeze_singleBlanks inrun s :
  singleBlanks inrun s = true → Js.squeeze Js.isSpace inrun s = s.
Proof.
  revert inrun. induction s as [|c s IH]; intros inrun; [done|]. simpl.
  destruct (Js.isSpace c) eqn:Hc.
  - intros [[->%bool_decide_eq_true ->%negb_true_iff]%andb_true_iff Hs]%andb_true_iff.
    by rewrite IH.
  - intros Hs. by rewrite IH.
Qed.

Lemma singleBlanks_trimStart inrun s :
  singleBlanks inrun s = true → singleBlanks false (Js.trimStart s) = true.
Proof.
  revert inrun. induction s as [|c s IH]; intros inrun; [done|]. simpl.
  destruct (Js.isSpace c) eqn:Hc.
  - intros [_ Hs]%andb_true_iff. by apply (IH true).
  - intros Hs. simpl. by rewrite Hc.
Qed.

Lemma singleBlanks_prefix inrun s t :
  singleBlanks inrun (s +:+ t) = true → singleBlanks inrun s = true.
Proof.
  revert inrun. induction s as [|c s IH]; intros inrun; [done|].
  rewrite sapp_cons. simpl. destruct (Js.isSpace c).
  - intros [-> Hs]%andb_true_iff. simpl. by apply IH.
  - apply IH.
Qed.

Lemma singleBlanks_trim s :
  singleBlanks false s = true → singleBlanks false (Js.trim s) = true.
Proof.
  intros Hs. unfold Js.trim.
  destruct (trimEnd_prefix (Js.trimStart s)) as [post Hpost].
  apply (singleBlanks_prefix _ _ post). rewrite <- Hpost.
  by apply (singleBlanks_trimStart false).
Qed.

Lemma allChars_squeeze_keeps (P Q : ascii → bool) inrun s :
  Q " "%char = true → allChars Q s = true → allChars Q (Js.squeeze P inrun s) = true.
Proof.
  intros Hblank. revert inrun. induction s as [|c s IH]; intros inrun; [done|].
  simpl. intros [Hc Hs]%andb_true_iff. destruct (P c).
  - destruct inrun; [by apply IH|]. simpl. by rewrite Hblank, IH.
  - simpl. by rewrite Hc, IH.
Qed.

Lemma allChars_squeeze_drops (P : ascii → bool) inrun s :
  P " "%char = false → allChars (λ c, negb (P c)) (Js.squeeze P inrun s) = true.
Proof.
  intros Hblank. revert inrun. induction s as [|c s IH]; intros inrun; [done|].
  simpl. destruct (P c) eqn:Hc.
  - destruct inrun; [by apply IH|]. simpl. by rewrite Hblank, IH.
  - simpl. by rewrite Hc, IH.
Qed.

Lemma squeeze_none (P : ascii → bool) inrun s :
  allChars (λ c, negb (P c)) s = true → Js.squeeze P inrun s = s.
Proof.
  revert inrun. induction s as [|c s IH]; intros inrun; [done|]. simpl.
  intros [Hc%negb_true_iff Hs]%andb_true_iff. rewrite Hc. by rewrite IH.
Qed.

Lemma lowerChar_not_upper c : Js.isUpper (Js.lowerChar c) = false.
Proof. destruct c as [[] [] [] [] [] [] [] []]; reflexivity. Qed.

Lemma allChars_toLowerCase s :
  allChars (λ c, negb (Js.isUpper c)) (Js.toLowerCase s) = true.
Proof.
  unfold Js.toLowerCase. induction s as [|c s IH]; [done|]. simpl.
  by rewrite lowerChar_not_upper, IH.
Qed.

Lemma toLowerCase_fixed s :
  allChars (λ c, negb (Js.isUpper c)) s = true → Js.toLowerCase s = s.
Proof.
  unfold Js.toLowerCase. induction s as [|c s IH]; [done|]. simpl.
  intros [Hc%negb_true_iff Hs]%andb_true_iff.
  rewrite IH by done. unfold Js.lowerChar. by rewrite Hc.
Qed.

(** What [normalizeString] returns: no capital letter, no dash or
    underscore, no white space but single blanks between other
    characters. *)
Lemma normalizeString_normal s :
  allChars (λ c, negb (Js.isUpper c)) (normalizeString s) = true
  ∧ allChars (λ c, negb (isDashOrUnderscore c)) (normalizeString s) = true
  ∧ singleBlanks false (normalizeString s) = true
  ∧ Js.trim (normalizeString s) = normalizeString s.
Proof.
  unfold normalizeString. split_and!.
  - apply allChars_trim. apply allChars_squeeze_keeps; [done|].
    apply allChars_squeeze_keeps; [done|]. apply allChars_toLowerCase.
  - apply allChars_trim. apply allChars_squeeze_keeps; [done|].
    by apply allChars_squeeze_drops.
  - apply singleBlanks_trim, singleBlanks_squeeze.
  - apply trim_idemp.
Qed.

Lemma normalizeString_idemp s : normalizeString (normalizeString s) = normalizeString s.
Proof.
  destruct (normalizeString_normal s) as (Hlow & Hdash & Hblank & Htrim).
  unfold normalizeString at 1.
  rewrite (toLowerCase_fixed _ Hlow), (squeeze_none _ _ _ Hdash).
  by rewrite (squeeze_singleBlanks _ _ Hblank).
Qed.

(** Property X17: [normalizeString] returns a string without capital
    letters, dashes or underscores, whose only white space is single blanks
    between other characters, and normalising such a string again changes
    nothing; so [matchesKeywords] gives the same answer on a haystack and on
    its normal form or its lower-case form, which is what [categorizeFile]
    passes for the parent folder and for the file name. *)
Theorem normalizeString_idempotent s e :
  normalizeString (normalizeString s) = normalizeString s
  ∧ allChars (λ c, negb (Js.isUpper c) && negb (isDashOrUnderscore c))
             (normalizeString s) = true
  ∧ singleBlanks false (normalizeString s) = true
  ∧ Js.trim (normalizeString s) = normalizeString s
  ∧ matchesKeywords e (normalizeString s) = matchesKeywords e s
  ∧ matchesKeywords e (Js.toLowerCase s) = matchesKeywords e s.
Proof.
  destruct (normalizeString_normal s) as (Hlow & Hdash & Hblank & Htrim).
  split_and!; [apply normalizeString_idemp| |done|done| |].
  - clear Hblank Htrim. induction (normalizeString s) as [|c r IH]; [done|].
    simpl in *. apply andb_true_iff in Hlow as [-> Hlow].
    apply andb_true_iff in Hdash as [-> Hdash]. by rewrite IH.
  - by rewrite !matchesKeywords_unfold, normalizeString_idemp.
  - by rewrite !matchesKeywords_unfold, normalizeString_lower.
Qed.

(** ** The flattened rules *)

Lemma normalizeKeywords_trimmed l :
  Forall (λ k, k ≠ "" ∧ Js.trim k = k) (normalizeKeywords l).
Proof.
  unfold normalizeKeywords. apply Forall_forall. intros k Hk.
  apply list_elem_of_filter in Hk as [Htruthy Hk].
  apply list_elem_of_fmap in Hk as (k0 & -> & _). split.
  - intros Heq. by rewrite Heq in Htruthy.
  - apply trim_idemp.
Qed.

(** Property X18: every rule [flattenMainCategories] returns has keywords
    that are trimmed and not empty; when main categories are configured the
    rules are theirs alone, one for each of their categories, and the
    legacy [categories] object is not looked at; the rules of the legacy
    object match on any keyword and have no main category. *)
Theorem flattenMainCategories_rules mcs cats :
  Forall (λ e, Forall (λ k, k ≠ "" ∧ Js.trim k = k) (keywords e))
         (flattenMainCategories mcs cats)
  ∧ (mcs ≠ [] →
     flattenMainCategories mcs cats = flattenMainCategories mcs []
     ∧ length (flattenMainCategories mcs cats)
       = sum_list (map (λ m, length (mc_categories m)) mcs))
  ∧ (mcs = [] →
     length (flattenMainCategories mcs cats) = length cats
     ∧ Forall (λ e, main e = "" ∧ matchAll e = false) (flattenMainCategories mcs cats)).
Proof.
  split_and!.
  - unfold flattenMainCategories. destruct mcs as [|m mcs].
    + apply Forall_forall. intros e He.
      apply list_elem_of_fmap in He as ([cat kws] & -> & _). simpl.
      apply normalizeKeywords_trimmed.
    + generalize (m :: mcs). intros l.
      induction l as [|m' l IH]; [constructor|].
      simpl. apply Forall_app. split; [|done].
      apply Forall_forall. intros e He.
      apply list_elem_of_In, in_map_iff in He as (c & <- & _). simpl.
      apply normalizeKeywords_trimmed.
  - intros Hne. destruct mcs as [|m mcs]; [done|]. split; [done|].
    unfold flattenMainCategories. generalize (m :: mcs). intros l.
    induction l as [|m' l IH]; [done|].
    simpl. by rewrite length_app, length_map, IH.
  - intros ->. simpl. split; [by rewrite length_map|].
    apply Forall_forall. intros e He.
    by apply list_elem_of_fmap in He as ([cat kws] & -> & _).
Qed.

(** ** Extensions *)






(** A change of letter case [f] goes through the functions of paths. *)
Section CaseChange.
Context (f : ascii → ascii).
Context (Hdot : ∀ c, f c = "."%char ↔ c = "."%char).
Context (Hslash : ∀ c, f c = "/"%char ↔ c = "/"%char).
Context (Hlower : ∀ c, Js.lowerChar (f c) = Js.lowerChar c).

Lemma smap_nil_iff s : Js.smap f s = "" ↔ s = "".
Proof. by destruct s. Qed.









End CaseChange.



(** ** Pack labels *)

Lemma startsWithDir_below root rel :
  root ≠ [] → rel ≠ [] → startsWithDir (root ++ rel) root = true.
Proof.
  intros Hroot Hrel. unfold startsWithDir. destruct root as [|a root]; [done|].
  apply andb_true_iff. split.
  - apply isPrefix_spec. by exists rel.
  - apply negb_true_iff, bool_decide_eq_false. intros Heq.
    apply (f_equal length) in Heq. rewrite length_app in Heq.
    destruct rel; [done|]. simpl in Heq. lia.
Qed.

Lemma startsWithDir_outside p root :
  Path.isPrefix root p = false → startsWithDir p root = false.
Proof. intros Hp. unfold startsWithDir. destruct root; [done|]. by rewrite Hp. Qed.

Lemma filter_truthy_all (l : list string) :
  Forall (λ s, s ≠ "") l → filter (λ x, Js.truthy x = true) l = l.
Proof.
  induction 1 as [|s l Hs _ IH]; [done|].
  rewrite filter_cons, decide_True, IH; [done|]. by destruct s.
Qed.

(** Property X20: for a file below the samples directory, the pack label of
    [packLabelFromSamples] is the sanitised name of the first path segment
    below the samples directory, followed in brackets by the sanitised
    second segment when the file lies at least three segments deep and that
    name is not empty; so a file that lies in the samples directory itself
    gets its own name as pack label.  A file that is not below the samples
    directory gets none. *)
Theorem packLabelFromSamples_spec samplesDir s0 rest file :
  Js.truthy samplesDir = true → Path.abs samplesDir ≠ [] →
  Forall (λ s, s ≠ "") (s0 :: rest) →
  packLabelFromSamples (Path.abs samplesDir ++ s0 :: rest) samplesDir
  = match rest with
    | s1 :: _ :: _ =>
        if Js.truthy (sanitizeFolderName s1)
        then sanitizeFolderName s0 +:+ " (" +:+ sanitizeFolderName s1 +:+ ")"
        else sanitizeFolderName s0
    | _ => sanitizeFolderName s0
    end
  ∧ packLabelFromSamples (Path.abs samplesDir ++ [s0]) samplesDir
    = sanitizeFolderName s0
  ∧ (Path.isPrefix (Path.abs samplesDir) file = false →
     packLabelFromSamples file samplesDir = "").
Proof.
  intros Htruthy Hroot Hsegs.
  assert (∀ rest', Forall (λ s, s ≠ "") (s0 :: rest') →
    packLabelFromSamples (Path.abs samplesDir ++ s0 :: rest') samplesDir
    = match rest' with
      | s1 :: _ :: _ =>
          if Js.truthy (sanitizeFolderName s1)
          then sanitizeFolderName s0 +:+ " (" +:+ sanitizeFolderName s1 +:+ ")"
          else sanitizeFolderName s0
      | _ => sanitizeFolderName s0
      end) as Hmain.
  { intros rest' Hsegs'. unfold packLabelFromSamples. rewrite Htruthy. cbv zeta.
    rewrite startsWithDir_below by done. cbn [negb].
    rewrite drop_app_length, (filter_truthy_all _ Hsegs').
    destruct rest' as [|s1 [|s2 rest']]; try done. }
  split_and!.
  - by apply Hmain.
  - apply (Hmain []). apply Forall_cons in Hsegs as [? _]. by constructor.
  - intros Hout. unfold packLabelFromSamples. rewrite Htruthy. cbv zeta.
    by rewrite startsWithDir_outside.
Qed.

Lemma packLabelFromSamples_spec_witness :
  packLabelFromSamples ["src"; "Drums"; "Vol1"; "kick.wav"] "/src" = "Drums (Vol1)"
  ∧ packLabelFromSamples ["src"; "kick_01.wav"] "/src" = "kick_01.wav"
  ∧ (categorizeFile plainHost ["src"; "kick_01.wav"]
       (withPack (withFlat kickRules exampleConfig)) None (worldOf noDestTree)).2
    = Ok (Some (["src"; "kick_01.wav"], ["dst"; "Kick"; "kick_01.wav"; "kick_01.wav"])).
Proof.
  destruct (packLabelFromSamples_spec "/src" "Drums" ["Vol1"; "kick.wav"] [])
    as (H1 & _ & _); [done|done|by repeat constructor|].
  destruct (packLabelFromSamples_spec "/src" "kick_01.wav" [] [])
    as (_ & H2 & _); [done|done|by repeat constructor|].
  split; [exact H1|]. split; [exact H2|reflexivity].
Defined.

(** ** Well-formed trees stay well-formed *)

Lemma names_set {A} (n : string) (v : A) (es : list (string * A)) :
  (set n v es).*1 = if decide (n ∈ es.*1) then es.*1 else es.*1 ++ [n].
Proof.
  induction es as [|[k x] es IH]; [done|]. cbn [set].
  destruct (decide (k = n)) as [->|Hne]; rewrite !fmap_cons; cbn [fst].
  - rewrite decide_True; [done|]. by left.
  - rewrite IH. destruct (decide (n ∈ es.*1)) as [Hin|Hout].
    + rewrite decide_True; [done|]. by right.
    + rewrite decide_False; [done|]. intros [?|?]%elem_of_cons; congruence.
Qed.

Lemma names_del {A} (n : string) (es : list (string * A)) :
  (del n es).*1 = filter (λ k, k ≠ n) es.*1.
Proof.
  induction es as [|[k x] es IH]; [done|]. cbn [del].
  rewrite fmap_cons, filter_cons. cbn [fst].
  destruct (decide (k = n)) as [->|Hne].
  - rewrite decide_False by (by intros ?). done.
  - rewrite decide_True by done. rewrite fmap_cons. cbn [fst]. by rewrite IH.
Qed.

Lemma elem_set {A} (n : string) (v : A) (es : list (string * A)) e :
  e ∈ set n v es → e = (n, v) ∨ e ∈ es.
Proof.
  induction es as [|[k x] es IH]; simpl.
  - intros ->%list_elem_of_singleton. by left.
  - destruct (decide (k = n)) as [->|Hne].
    + intros [->|He]%elem_of_cons; [by left|]. right. by right.
    + intros [->|He]%elem_of_cons; [right; by left|].
      destruct (IH He) as [->|?]; [by left|]. right. by right.
Qed.

Lemma elem_del {A} (n : string) (es : list (string * A)) e :
  e ∈ del n es → e ∈ es.
Proof.
  induction es as [|[k x] es IH]; simpl; [done|].
  destruct (decide (k = n)).
  - intros He. right. by apply IH.
  - intros [->|He]%elem_of_cons; [by left|]. right. by apply IH.
Qed.

Lemma wfNode_set n v es :
  wfNode (Dir es) = true → plainName n → wfNode v = true →
  wfNode (Dir (set n v es)) = true.
Proof.
  intros (Hnd & Hplain & Hsub)%wfNode_Dir Hn Hv. apply wfNode_Dir.
  rewrite names_set. split_and!.
  - case_decide; [done|]. apply NoDup_app. split_and!; [done| |apply NoDup_singleton].
    intros k Hk ->%list_elem_of_singleton. done.
  - case_decide; [done|]. apply Forall_app. split; [done|]. by constructor.
  - apply Forall_forall. intros e [->|He]%elem_set; [done|].
    rewrite Forall_forall in Hsub. by apply Hsub.
Qed.

Lemma wfNode_del n es :
  wfNode (Dir es) = true → wfNode (Dir (del n es)) = true.
Proof.
  intros (Hnd & Hplain & Hsub)%wfNode_Dir. apply wfNode_Dir.
  rewrite names_del. split_and!.
  - by apply NoDup_filter.
  - apply Forall_forall. intros k [_ Hk]%list_elem_of_filter.
    rewrite Forall_forall in Hplain. by apply Hplain.
  - apply Forall_forall. intros e He%elem_del.
    rewrite Forall_forall in Hsub. by apply Hsub.
Qed.

Lemma wfNode_get n es c :
  wfNode (Dir es) = true → get n es = Some c → wfNode c = true.
Proof. intros Hwf Hget. by apply (wfNode_lookup (Dir es) [n] c); [|simpl; rewrite Hget]. Qed.

Lemma wfNode_put p v : ∀ t t',
  wfNode t = true → Forall plainName p → wfNode v = true →
  Fs.put p v t = Some t' → wfNode t' = true.
Proof.
  induction p as [|n p IH]; intros t t' Hwf Hp Hv Hput.
  - by injection Hput as <-.
  - destruct t as [c0|es]; [done|]. simpl in Hput.
    apply Forall_cons in Hp as [Hn Hp].
    destruct (get n es) as [c|] eqn:Hget.
    + destruct (Fs.put p v c) as [c'|] eqn:Hc'; [|done]. injection Hput as <-.
      apply wfNode_set; [done..|].
      apply (IH c); [by apply (wfNode_get n es)|done..].
    + destruct p; [|done]. injection Hput as <-. by apply wfNode_set.
Qed.

Lemma wfNode_rm p : ∀ t t',
  wfNode t = true → Fs.rm p t = Some t' → wfNode t' = true.
Proof.
  induction p as [|n p IH]; intros t t' Hwf Hrm; [done|].
  destruct t as [c0|es]; [done|].
  destruct p as [|m p].
  - injection Hrm as <-. by apply wfNode_del.
  - rewrite rm_cons in Hrm by done.
    destruct (get n es) as [c|] eqn:Hget; [|done].
    destruct (Fs.rm (m :: p) c) as [c'|] eqn:Hc'; [|done]. injection Hrm as <-.
    apply wfNode_set; [done| |].
    + pose proof Hwf as (_ & Hplain & _)%wfNode_Dir.
      rewrite Forall_forall in Hplain. apply Hplain.
      apply list_elem_of_fmap. exists (n, c). split; [done|]. by apply get_Some_in.
    + apply (IH c); [by apply (wfNode_get n es)|done].
Qed.

Lemma wfNode_mkdirSync p : ∀ t t',
  wfNode t = true → Forall plainName p → Fs.mkdirSync p t = Ok t' →
  wfNode t' = true.
Proof.
  induction p as [|n p IH]; intros t t' Hwf Hp Hmk.
  - destruct t; [done|]. by injection Hmk as <-.
  - destruct t as [c0|es]; [done|]. simpl in Hmk.
    apply Forall_cons in Hp as [Hn Hp].
    destruct (Fs.mkdirSync p (default (Dir []) (get n es))) as [c'|e] eqn:Hsub;
      [|done].
    injection Hmk as <-. apply wfNode_set; [done..|].
    apply (IH (default (Dir []) (get n es))); [|done..].
    destruct (get n es) as [c|] eqn:Hget; [by apply (wfNode_get n es)|done].
Qed.

Lemma renameSync_inv xd src dest t t' :
  Fs.renameSync xd src dest t = Ok t' →
  t' = t ∨ ∃ n t1, Fs.lookup t src = Some n ∧ Fs.rm src t = Some t1
                   ∧ Fs.put dest n t1 = Some t'.
Proof.
  unfold Fs.renameSync. intros Hren.
  destruct (Fs.lookup t src) as [n|]; [|done].
  destruct (Fs.lookup t (Path.dirname dest)) as [[?|?]|]; try done.
  destruct (decide (src = dest)); [left; by injection Hren as <-|].
  destruct (Path.isPrefix src dest); [done|].
  destruct (xd src dest); [done|]. right.
  destruct (Fs.rm src t) as [t1|] eqn:Hrm; [|by repeat case_match].
  exists n, t1. split_and!; [done..|].
  destruct (Fs.put dest n t1); simpl in Hren; repeat case_match; by simplify_eq.
Qed.

Lemma rmSync_inv p t t' :
  Fs.rmSync p t = Ok t' → t' = t ∨ Fs.rm p t = Some t'.
Proof.
  unfold Fs.rmSync. destruct (Fs.lookup t p); [|left; by simplify_eq].
  destruct (Fs.rm p t); simpl; [|done]. intros [= <-]. by right.
Qed.

Lemma writeFile_inv p data t t' :
  Fs.writeFile p data t = Ok t' → Fs.put p (File data) t = Some t'.
Proof.
  unfold Fs.writeFile. intros Hw.
  destruct (Fs.lookup t (Path.dirname p)) as [[?|?]|]; try done.
  destruct (Fs.lookup t p) as [[?|?]|]; try done;
    destruct (Fs.put p (File data) t); simpl in Hw; by simplify_eq.
Qed.

Lemma unlinkSync_inv p t t' :
  Fs.unlinkSync p t = Ok t' →
  (∃ c, Fs.lookup t p = Some (File c)) ∧ Fs.rm p t = Some t'.
Proof.
  unfold Fs.unlinkSync. destruct (Fs.lookup t p) as [[c|?]|]; try done.
  destruct (Fs.rm p t); simpl; [|done]. intros [= <-]. eauto.
Qed.

(** Unbinding a path changes no file that is not at or below it. *)
Lemma rm_file_iff p t t' q c :
  Fs.rm p t = Some t' → Path.isPrefix p q = false →
  Fs.lookup t' q = Some (File c) ↔ Fs.lookup t q = Some (File c).
Proof.
  revert t t' q. induction p as [|n p IH]; intros t t' q Hrm Hpre; [done|].
  destruct t as [c0|es]; [done|].
  destruct q as [|m q].
  { simpl. split; [|done]. intros [= ->]. simpl in Hrm.
    repeat case_match; by simplify_eq. }
  simpl in Hpre. destruct p as [|n' p].
  - injection Hrm as <-. simpl. destruct (decide (n = m)) as [->|Hne].
    + by rewrite bool_decide_eq_true_2 in Hpre.
    + by rewrite get_del_ne.
  - rewrite rm_cons in Hrm by done.
    destruct (get n es) as [cn|] eqn:Hget; [|done].
    destruct (Fs.rm (n' :: p) cn) as [c'|] eqn:Hsub; [|done].
    injection Hrm as <-. simpl. destruct (decide (n = m)) as [->|Hne].
    + rewrite bool_decide_eq_true_2 in Hpre by done. simpl in Hpre.
      rewrite get_set_eq, Hget. by apply IH.
    + by rewrite get_set_ne.
Qed.

Lemma outside_not_below root p q :
  Path.isPrefix root p = true → Path.isPrefix root q = false →
  Path.isPrefix p q = false.
Proof.
  intros Hp Hq. destruct (Path.isPrefix p q) eqn:Hpq; [|done].
  by rewrite (isPrefix_trans _ _ _ Hp Hpq) in Hq.
Qed.

Lemma pushes_plain segs : ∀ p,
  Forall plainName p → Forall noSlash segs →
  Forall plainName (fold_left Path.push segs p).
Proof.
  induction segs as [|s segs IH]; intros p Hp Hsegs; [done|].
  apply Forall_cons in Hsegs as [Hs Hsegs]. simpl. apply IH; [|done].
  unfold Path.push. repeat case_decide; [done|done| |].
  - destruct p as [|x p] using rev_ind; [done|].
    rewrite removelast_last. by apply Forall_app in Hp as [? _].
  - apply Forall_app. split; [done|]. by constructor.
Qed.

Lemma join_all_plain p s : Forall plainName p → Forall plainName (Path.join p s).
Proof. intros Hp. apply pushes_plain; [done|apply split_slash_noSlash]. Qed.

Lemma resolve_all_plain p s :
  Forall plainName p → Forall plainName (Path.resolve p s).
Proof.
  intros Hp. unfold Path.resolve. case_match; by apply join_all_plain.
Qed.

Lemma removelast_Forall {A} (P : A → Prop) l : Forall P l → Forall P (removelast l).
Proof.
  destruct l as [|x l] using rev_ind; [done|].
  rewrite removelast_last. by intros [? _]%Forall_app.
Qed.

Lemma readdirSync_plain t p es :
  wfNode t = true → Fs.readdirSync t p = Ok es → Forall plainName es.*1.
Proof.
  unfold Fs.readdirSync. intros Hwf Hrd.
  destruct (Fs.lookup t p) as [[?|es']|] eqn:Hp; try done. injection Hrd as ->.
  by apply (wfNode_lookup _ _ _ Hwf) in Hp as (_ & ? & _)%wfNode_Dir.
Qed.

(** ** Archive expansion stays in the scratch directory *)

Section Invariant.

Context (I : world → Prop).

Lemma inv_bind {A B} (P : A → Prop) (m : M A) (k : A → M B) :
  (∀ w, I w → I (m w).1 ∧ ∀ a, (m w).2 = Ok a → P a) →
  (∀ a, P a → ∀ w, I w → I (k a w).1) →
  ∀ w, I w → I ((m ≫= k) w).1.
Proof.
  intros Hm Hk w Hw. destruct (Hm w Hw) as [H1 HP].
  unfold mbind, M_bind. destruct (m w) as [w1 [a|e]]; [|done].
  apply Hk; [by apply HP|done].
Qed.

Lemma inv_seq {A B} (m : M A) (k : A → M B) :
  (∀ w, I w → I (m w).1) → (∀ a w, I w → I (k a w).1) →
  ∀ w, I w → I ((m ≫= k) w).1.
Proof.
  intros Hm Hk. apply (inv_bind (λ _, True)).
  - intros w Hw. split; [by apply Hm|done].
  - intros a _ w Hw. by apply Hk.
Qed.

Lemma inv_forEach {A} (P : A → Prop) (l : list A) (body : A → M unit) :
  Forall P l → (∀ x, P x → ∀ w, I w → I (body x w).1) →
  ∀ w, I w → I (forEach l body w).1.
Proof.
  intros Hl Hbody. induction Hl as [|x l Hx Hl IH]; [done|].
  cbn [forEach]. apply inv_seq; [by apply Hbody|by intros _].
Qed.

Lemma inv_tryCatch {A} (m : M A) (h : error → M A) :
  (∀ w, I w → I (m w).1) → (∀ e w, I w → I (h e w).1) →
  ∀ w, I w → I (tryCatch m h w).1.
Proof.
  intros Hm Hh w Hw. specialize (Hm w Hw). unfold tryCatch.
  destruct (m w) as [w1 [a|e]]; [done|]. by apply Hh.
Qed.

Lemma inv_fsDo (f : node → result node) :
  (∀ w t, I w → f (w_fs w) = Ok t → I (withFs t w)) →
  ∀ w, I w → I (fsDo f w).1.
Proof.
  intros Hf w Hw. unfold fsDo. destruct (f (w_fs w)) as [t|e] eqn:Ht; [|done].
  by apply Hf.
Qed.

End Invariant.

Section Invariant2.

Context (I Q : world → Prop).

Lemma inv_bind_post {A B} (P : A → Prop) (m : M A) (k : A → M B) :
  (∀ w, I w → Q w) →
  (∀ w, I w → I (m w).1 ∧ ∀ a, (m w).2 = Ok a → P a) →
  (∀ a, P a → ∀ w, I w → Q (k a w).1) →
  ∀ w, I w → Q ((m ≫= k) w).1.
Proof.
  intros HQ Hm Hk w Hw. destruct (Hm w Hw) as [H1 HP].
  unfold mbind, M_bind. destruct (m w) as [w1 [a|e]]; [|by apply HQ].
  apply Hk; [by apply HP|done].
Qed.

Lemma inv_seq_post {A B} (m : M A) (k : A → M B) :
  (∀ w, I w → Q w) →
  (∀ w, I w → I (m w).1) → (∀ a w, I w → Q (k a w).1) →
  ∀ w, I w → Q ((m ≫= k) w).1.
Proof.
  intros HQ Hm Hk. apply (inv_bind_post (λ _, True)); [done| |].
  - intros w Hw. split; [by apply Hm|done].
  - intros a _ w Hw. by apply Hk.
Qed.

End Invariant2.

Lemma bind_result_post {A B} (Q : world * result B → Prop) (m : M A)
    (k : A → M B) w :
  (∀ w1 e, Q (w1, Throw e)) → (∀ w1 a, m w = (w1, Ok a) → Q (k a w1)) →
  Q ((m ≫= k) w).
Proof.
  intros HT HK. unfold mbind, M_bind.
  destruct (m w) as [w1 [a|e]]; [by apply HK|apply HT].
Qed.

Section ZipConfined.

Context (E : collaborators) (root : path) (w0 : world).

Lemma tidy_withFs t w :
  wfNode t = true →
  (∀ q c, Path.isPrefix root q = false →
     Fs.lookup t q = Some (File c) ↔ Fs.lookup (w_fs w) q = Some (File c)) →
  tidyFrom root w0 w → tidyFrom root w0 (withFs t w).
Proof.
  intros Hwf Hsame [_ H0]. split; [done|]. intros q c Hq. simpl.
  rewrite (Hsame q c Hq). by apply H0.
Qed.

Lemma tidy_sameFs {A} (m : M A) : steps sameFs m → ∀ w, tidyFrom root w0 w → tidyFrom root w0 (m w).1.
Proof.
  intros Hm w [Hwf H0]. specialize (Hm w). unfold sameFs in Hm.
  split; [by rewrite Hm|]. intros q c Hq. rewrite Hm. by apply H0.
Qed.

Lemma tidy_mkdirSync p :
  Forall plainName p → ∀ w, tidyFrom root w0 w → tidyFrom root w0 (fsDo (Fs.mkdirSync p) w).1.
Proof.
  intros Hp. apply inv_fsDo. intros w t Hw Hmk. apply tidy_withFs; [| |done].
  - by apply (wfNode_mkdirSync p (w_fs w)); [apply Hw|..].
  - intros q c _. by eapply mkdirSync_file_iff.
Qed.

Lemma tidy_renameSync xd src dest :
  Path.isPrefix root src = true → Path.isPrefix root dest = true →
  Forall plainName dest →
  ∀ w, tidyFrom root w0 w → tidyFrom root w0 (fsDo (Fs.renameSync xd src dest) w).1.
Proof.
  intros Hsrc Hdest Hplain. apply inv_fsDo. intros w t Hw Hren.
  apply renameSync_inv in Hren as [->|(n & t1 & Hn & Hrm & Hput)].
  { by destruct w. }
  apply tidy_withFs; [| |done].
  - apply (wfNode_put dest n t1); [|done| |done].
    + by apply (wfNode_rm src (w_fs w)); [apply Hw|].
    + by apply (wfNode_lookup (w_fs w) src); [apply Hw|].
  - intros q c Hq.
    rewrite (put_file_iff dest n t1 t q c Hput)
      by by apply (outside_not_below root).
    apply (rm_file_iff src); [done|by apply (outside_not_below root)].
Qed.

Lemma tidy_rmSync p :
  Path.isPrefix root p = true → ∀ w, tidyFrom root w0 w → tidyFrom root w0 (fsDo (Fs.rmSync p) w).1.
Proof.
  intros Hp. apply inv_fsDo. intros w t Hw [->|Hrm]%rmSync_inv.
  { by destruct w. }
  apply tidy_withFs; [| |done].
  - by apply (wfNode_rm p (w_fs w)); [apply Hw|].
  - intros q c Hq. apply (rm_file_iff p); [done|by apply (outside_not_below root)].
Qed.

Lemma tidy_writeFile p data :
  Path.isPrefix root p = true → Forall plainName p →
  ∀ w, tidyFrom root w0 w → tidyFrom root w0 (fsDo (Fs.writeFile p data) w).1.
Proof.
  intros Hp Hplain. apply inv_fsDo. intros w t Hw Hput%writeFile_inv.
  apply tidy_withFs; [| |done].
  - by apply (wfNode_put p (File data) (w_fs w)); [apply Hw|..].
  - intros q c Hq.
    apply (put_file_iff p (File data)); [done|by apply (outside_not_below root)].
Qed.

Lemma tidy_extractEntry entry :
  Forall plainName root → ∀ w, tidyFrom root w0 w → tidyFrom root w0 (extractEntry root entry w).1.
Proof.
  intros Hroot. destruct entry as [[entryPath isDirectory] data].
  unfold extractEntry. destruct isDirectory; [done|].
  destruct (startsWithDir _ root) eqn:Hguard; cbn [negb]; [|done].
  apply startsWithDir_prefix in Hguard.
  pose proof (resolve_all_plain root (stripLeadingSlashes entryPath) Hroot).
  apply inv_seq; [|intros _].
  { apply tidy_mkdirSync. by apply removelast_Forall. }
  apply inv_seq; [|intros _].
  { apply tidy_sameFs, sameFs_suspend. }
  apply inv_seq; [|intros _].
  { by apply tidy_writeFile. }
  apply tidy_sameFs, sameFs_suspend.
Qed.

Lemma tidy_readdirSync p w :
  tidyFrom root w0 w →
  tidyFrom root w0 (fsTry (λ t, Fs.readdirSync t p) w).1
  ∧ ∀ es, (fsTry (λ t, Fs.readdirSync t p) w).2 = Ok es → Forall plainName es.*1.
Proof.
  intros Hw. split; [done|]. intros es Hes. simpl in Hes.
  eapply readdirSync_plain; [apply Hw|done].
Qed.

Lemma tidy_flattenLoop fuel : ∀ items,
  Forall plainName root → Forall plainName items.*1 →
  ∀ w, tidyFrom root w0 w → tidyFrom root w0 (flattenLoop E fuel root items w).1.
Proof.
  induction fuel as [|fuel IH]; intros items Hroot Hitems; [done|].
  destruct items as [|[name [c|es]] [|? ?]]; try done. cbn [flattenLoop].
  destruct (isHiddenOrJunk name); [done|].
  apply Forall_cons in Hitems as [Hname _]. cbn [fst] in Hname.
  rewrite (join_plain root name) by done.
  apply (inv_bind _ (λ inner : list (string * node), Forall plainName inner.*1)).
  { intros w. apply tidy_readdirSync. }
  intros inner Hinner. apply inv_seq; [|intros _].
  { apply (inv_forEach _ (λ e : string * node, plainName e.1)).
    - rewrite Forall_fmap in Hinner. exact Hinner.
    - intros e He. rewrite !join_plain by done. apply tidy_renameSync.
      + apply isPrefix_spec. exists [name; e.1]. by rewrite <- app_assoc.
      + apply isPrefix_spec. by exists [e.1].
      + apply Forall_app. split; [done|]. by constructor. }
  apply inv_seq; [|intros _].
  { apply inv_tryCatch; [|done]. apply tidy_rmSync.
    apply isPrefix_spec. by exists [name]. }
  apply (inv_bind _ (λ items' : list (string * node), Forall plainName items'.*1)).
  { intros w. apply tidy_readdirSync. }
  intros items' Hitems'. by apply IH.
Qed.

Lemma tidy_flattenAndCollect :
  Forall plainName root → ∀ w, tidyFrom root w0 w → tidyFrom root w0 (flattenAndCollect E root w).1.
Proof.
  intros Hroot. unfold flattenAndCollect, flattenSingleFolders.
  apply inv_seq; [|intros _].
  - apply inv_seq; [done|intros ex]. destruct ex; cbn [negb]; [|done].
    apply (inv_bind _ (λ items : list (string * node), Forall plainName items.*1)).
    { intros w. apply tidy_readdirSync. }
    intros items Hitems. apply inv_seq; [done|intros fuel].
    by apply tidy_flattenLoop.
  - unfold walkFiles. apply inv_seq; [done|]. done.
Qed.

End ZipConfined.

Lemma unlink_tail_files zipPath t t' q c :
  Fs.unlinkSync zipPath t = Ok t' → q ≠ zipPath →
  Fs.lookup t' q = Some (File c) ↔ Fs.lookup t q = Some (File c).
Proof.
  intros [[c0 Hfile] Hrm]%unlinkSync_inv Hq.
  destruct (Path.isPrefix zipPath q) eqn:Hpre; [|by apply (rm_file_iff zipPath)].
  destruct (lookup_below_file _ _ _ _ Hfile Hpre) as [->|Hnone]; [done|].
  rewrite Hnone, (rm_lookup_None _ _ _ _ Hrm Hnone). done.
Qed.

(** Property X21: expanding a ZIP archive touches the scratch directory
    only.  On a well-formed tree, whatever the archive holds and whether
    the call returns or throws, [extractZip] leaves the tree well formed
    and leaves every file outside the scratch directory as it was, the
    archive itself apart when archives are not kept; and when they are not
    kept and the call returns, no file is left at the path of the
    archive. *)
Theorem extractZip_confined E zipPath destDir keep w :
  wfNode (w_fs w) = true → Forall plainName destDir →
  let run := extractZip E zipPath destDir keep w in
  wfNode (w_fs run.1) = true
  ∧ (∀ q c, Path.isPrefix destDir q = false → (keep = false → q ≠ zipPath) →
       Fs.lookup (w_fs run.1) q = Some (File c)
       ↔ Fs.lookup (w_fs w) q = Some (File c))
  ∧ (keep = false → ∀ l, run.2 = Ok l →
       ∀ c, Fs.lookup (w_fs run.1) zipPath ≠ Some (File c)).
Proof.
  intros Hwf Hdest run.
  pose (Q := λ w' : world,
    wfNode (w_fs w') = true
    ∧ ∀ q c, Path.isPrefix destDir q = false → (keep = false → q ≠ zipPath) →
        Fs.lookup (w_fs w') q = Some (File c)
        ↔ Fs.lookup (w_fs w) q = Some (File c)).
  assert (HQ : ∀ w', tidyFrom destDir w w' → Q w').
  { intros w' [H1 H2]. split; [done|]. intros q c Hq _. by apply H2. }
  assert (Hstart : tidyFrom destDir w w) by (split; [done|by intros q c _]).
  assert (Hfiles : Q run.1).
  { subst run. revert w Hwf Q HQ Hstart. intros w0 Hwf Q HQ.
    unfold extractZip.
    apply (inv_seq_post _ Q); [done|done|intros ex].
    apply (inv_seq_post _ Q); [done| |intros _].
    { destruct ex; cbn [negb]; [done|]. by apply tidy_mkdirSync. }
    apply (inv_seq_post _ Q); [done| |intros _].
    { apply tidy_sameFs, sameFs_suspend. }
    apply (inv_seq_post _ Q); [done|done|intros content].
    apply (inv_seq_post _ Q); [done|done|intros files].
    apply (inv_seq_post _ Q); [done| |intros _].
    { apply (inv_forEach _ (λ _, True)); [by apply Forall_true|].
      intros entry _. by apply tidy_extractEntry. }
    apply (inv_seq_post _ Q); [done| |intros extracted].
    { by apply tidy_flattenAndCollect. }
    intros w1 Hw1. destruct keep; cbn [negb]; [by apply HQ|].
    unfold mbind, M_bind, fsRead, tryCatch, fsDo. cbn [fst snd].
    destruct (Fs.existsSync (w_fs w1) zipPath); [|by apply HQ].
    destruct (Fs.unlinkSync zipPath (w_fs w1)) as [t|e] eqn:Hun;
      cbn [fst snd]; [|by apply HQ].
    destruct Hw1 as [Hwf1 Hsame1]. split.
    - apply unlinkSync_inv in Hun as [_ Hrm]. by apply (wfNode_rm zipPath (w_fs w1)).
    - intros q c Hq Hne. simpl.
      rewrite (unlink_tail_files zipPath (w_fs w1) t q c Hun) by by apply Hne.
      by apply Hsame1. }
  destruct Hfiles as [H1 H2]. split_and!; [done|done|].
  intros -> l. subst run. clear. unfold extractZip.
  apply (bind_result_post (λ r, r.2 = Ok l →
           ∀ c, Fs.lookup (w_fs r.1) zipPath ≠ Some (File c)));
    [done|intros w1 ex _].
  do 5 (apply (bind_result_post (λ r, r.2 = Ok l →
           ∀ c, Fs.lookup (w_fs r.1) zipPath ≠ Some (File c)));
    [done|]; intros ? ? _).
  apply (bind_result_post (λ r, r.2 = Ok l →
           ∀ c, Fs.lookup (w_fs r.1) zipPath ≠ Some (File c)));
    [done|]. intros w7 extracted Hrun.
  assert (Hroot : ∃ es, w_fs w7 = Dir es).
  { unfold flattenAndCollect in Hrun.
    apply bind_inv_Ok in Hrun as (? & w' & _ & Hwalk).
    unfold walkFiles in Hwalk.
    apply bind_inv_Ok in Hwalk as (d & w'' & Hd & [= <- _]).
    unfold fsTry in Hd. injection Hd as <- Hd. unfold dirAt in Hd.
    destruct (w_fs w') as [c|es]; [|by eexists].
    by destruct destDir. }
  cbn [negb]. unfold mbind, M_bind, fsRead, tryCatch, fsDo. cbn [fst snd].
  unfold Fs.existsSync.
  destruct (Fs.lookup (w_fs w7) zipPath) as [[c0|es]|] eqn:Hlook.
  - rewrite bool_decide_eq_true_2 by eauto.
    unfold Fs.unlinkSync. rewrite Hlook.
    destruct (rm_is_Some zipPath (w_fs w7)) as [t Hrm]; [|by eauto|].
    { intros ->. destruct Hroot as [es Hes]. rewrite Hes in Hlook. done. }
    rewrite Hrm. simpl. intros _ c. by rewrite (lookup_rm_eq _ _ _ Hrm).
  - rewrite bool_decide_eq_true_2 by eauto.
    unfold Fs.unlinkSync. rewrite Hlook. simpl. intros _ c. by rewrite Hlook.
  - rewrite bool_decide_eq_false_2 by (by intros [? ?]). simpl.
    intros _ c. by rewrite Hlook.
Qed.

Lemma extractZip_confined_witness :
  let run := extractZip plainHost ["src"; "pack.rar"] ["dst"; "_temp_pack"] false
               (worldOf escapingArchiveTree) in
  run.2 = Ok [["dst"; "_temp_pack"; "ok.wav"]]
  ∧ wfNode (w_fs run.1) = true
  ∧ ∀ c, Fs.lookup (w_fs run.1) ["src"; "pack.rar"] ≠ Some (File c).
Proof.
  intros run. split; [reflexivity|].
  destruct (extractZip_confined plainHost ["src"; "pack.rar"]
              ["dst"; "_temp_pack"] false (worldOf escapingArchiveTree))
    as (H1 & _ & H3).
  - reflexivity.
  - constructor; [by vm_compute|]. constructor; [by vm_compute|constructor].
  - split; [exact H1|]. apply (H3 eq_refl [["dst"; "_temp_pack"; "ok.wav"]]).
    reflexivity.
Defined.

(** ** Removing the scratch directory *)

Lemma del_set {A} (n : string) (v : A) (es : list (string * A)) :
  del n (set n v es) = del n es.
Proof.
  induction es as [|[k x] es IH]; simpl.
  - by rewrite decide_True.
  - destruct (decide (k = n)) as [->|Hne]; simpl.
    + by rewrite decide_True.
    + rewrite decide_False by done. by rewrite IH.
Qed.

Lemma rm_put_same p : ∀ t t1 v d,
  p ≠ [] → Fs.lookup t p = Some d → Fs.put p v t = Some t1 →
  Fs.rm p t1 = Fs.rm p t.
Proof.
  induction p as [|n p IH]; intros t t1 v d Hp Hd Hput; [done|].
  destruct t as [c0|es]; [done|]. simpl in Hd, Hput.
  destruct (get n es) as [c|] eqn:Hget; [|done].
  destruct (Fs.put p v c) as [c1|] eqn:Hc1; [|done]. injection Hput as <-.
  destruct p as [|m p].
  - simpl. by rewrite del_set.
  - rewrite !rm_cons by done. rewrite get_set_eq, Hget.
    rewrite (IH c c1 v d) by done.
    destruct (Fs.rm (m :: p) c) as [c'|]; [|done]. by rewrite set_set.
Qed.

Lemma rm_child p n c rest t :
  Fs.lookup t p = Some (Dir ((n, c) :: rest)) → n ∉ rest.*1 →
  Fs.rm (p ++ [n]) t = Fs.put p (Dir rest) t.
Proof.
  intros Hp Hn. rewrite (rm_app p [n] t _ Hp) by done. simpl.
  rewrite decide_True by done. by rewrite del_notin.
Qed.

Lemma removeFolderWalk_dir fuel : ∀ p es w,
  p ≠ [] → Fs.lookup (w_fs w) p = Some (Dir es) → wfNode (Dir es) = true →
  nodeSize (Dir es) ≤ fuel →
  ∃ t', Fs.rm p (w_fs w) = Some t'
        ∧ removeFolderWalk fuel p w = (withFs t' w, Ok tt).
Proof.
  induction fuel as [|fuel IH]; intros p es w Hp Hdir Hwf Hsize.
  { pose proof (nodeSize_pos (Dir es)). lia. }
  destruct (rm_is_Some p (w_fs w) Hp) as [t' Ht']; [by eauto|].
  exists t'. split; [done|]. cbn [removeFolderWalk].
  unfold mbind at 1, M_bind at 1, fsRead at 1. unfold Fs.existsSync.
  rewrite Hdir, bool_decide_eq_true_2 by eauto.
  unfold mbind at 1, M_bind at 1, fsTry at 1. unfold Fs.readdirSync at 1.
  rewrite Hdir.
  assert (Hloop : ∀ rest w1,
    Fs.lookup (w_fs w1) p = Some (Dir rest) → wfNode (Dir rest) = true →
    nodeSize (Dir rest) ≤ S fuel →
    ∃ t1, forEach rest (λ file : string * node,
            isDirectory ← fsTry (λ t, statIsDirectory t (Path.join p file.1));
            if isDirectory : bool
            then removeFolderWalk fuel (Path.join p file.1)
            else fsDo (Fs.unlinkSync (Path.join p file.1))) w1
          = (withFs t1 w1, Ok tt)
          ∧ Fs.lookup t1 p = Some (Dir []) ∧ Fs.rm p t1 = Fs.rm p (w_fs w1)).
  { clear w Hdir Ht' es Hwf Hsize.
    induction rest as [|[n c] rest IHrest]; intros w1 Hdir Hwf Hsize.
    { exists (w_fs w1). by rewrite withFs_same. }
    pose proof Hwf as (Hnd & Hplain & Hsub)%wfNode_Dir.
    apply NoDup_cons in Hnd as [Hn Hnd].
    apply Forall_cons in Hplain as [Hnplain Hplain].
    apply Forall_cons in Hsub as [Hc Hsub]. cbn [fst snd] in *.
    assert (Hwfrest : wfNode (Dir rest) = true) by by apply wfNode_Dir.
    assert (Hcur : Fs.lookup (w_fs w1) (p ++ [n]) = Some c).
    { rewrite lookup_app, Hdir. simpl. by rewrite decide_True. }
    assert (Hstep : ∃ t2, Fs.rm (p ++ [n]) (w_fs w1) = Some t2
      ∧ (isDirectory ← fsTry (λ t, statIsDirectory t (Path.join p n));
         if isDirectory : bool
         then removeFolderWalk fuel (Path.join p n)
         else fsDo (Fs.unlinkSync (Path.join p n))) w1 = (withFs t2 w1, Ok tt)).
    { rewrite join_plain by done.
      unfold mbind, M_bind, fsTry, statIsDirectory. rewrite Hcur.
      destruct c as [data|es']; cbn [Fs.isDir].
      - destruct (rm_is_Some (p ++ [n]) (w_fs w1)) as [t2 Ht2];
          [by destruct p|by eauto|].
        exists t2. split; [done|]. unfold fsDo, Fs.unlinkSync.
        by rewrite Hcur, Ht2.
      - apply (IH (p ++ [n]) es' w1); [by destruct p|done|done|].
        simpl in Hsize. simpl. lia. }
    destruct Hstep as (t2 & Ht2 & Hrun).
    pose proof Ht2 as Hput. rewrite (rm_child p n c rest _ Hdir Hn) in Hput.
    destruct (IHrest (withFs t2 w1)) as (t1 & Hrest & Hempty & Hrm).
    { simpl. by apply lookup_put_same in Hput. }
    { done. }
    { simpl in Hsize. simpl. lia. }
    exists t1. split_and!; [|done|].
    - cbn [forEach fst]. unfold mbind at 1, M_bind at 1. rewrite Hrun.
      rewrite Hrest. by destruct w1.
    - rewrite Hrm. simpl. by apply (rm_put_same p _ _ (Dir rest) _ Hp Hdir). }
  destruct (Hloop es w Hdir Hwf) as (t1 & Hrun & Hempty & Hrm); [lia|].
  unfold mbind at 1, M_bind at 1. rewrite Hrun.
  unfold fsDo, Fs.rmSync. simpl. rewrite Hempty, Hrm, Ht'. simpl.
  by destruct w.
Qed.

(** Property X22: [removeFolderRecursive] takes a directory away with all it
    holds and touches nothing else.  On a well-formed tree and for a path
    other than the root: when nothing is at the path the call does nothing;
    when a directory is there the call returns, the path is free
    afterwards, every file that is not below it is as before, and the
    whole child-by-child removal amounts to the single [fs.rmSync] that
    ends it; when a regular file is at the path, listing it fails with
    ENOTDIR and nothing is removed. *)
Theorem removeFolderRecursive_removes_all folderPath w :
  wfNode (w_fs w) = true → folderPath ≠ [] →
  let run := removeFolderRecursiveWalk folderPath w in
  match Fs.lookup (w_fs w) folderPath with
  | Some (File _) => run = (w, Throw (SysError ENOTDIR))
  | _ =>
      run.2 = Ok tt
      ∧ Fs.lookup (w_fs run.1) folderPath = None
      ∧ (∀ q c, Path.isPrefix folderPath q = false →
           Fs.lookup (w_fs run.1) q = Some (File c)
           ↔ Fs.lookup (w_fs w) q = Some (File c))
      ∧ run = removeFolderRecursive folderPath w
  end.
Proof.
  intros Hwf Hp run. subst run.
  change (removeFolderRecursiveWalk folderPath w)
    with (removeFolderWalk (nodeSize (w_fs w)) folderPath w).
  destruct (Fs.lookup (w_fs w) folderPath) as [[c|es]|] eqn:Hlook.
  - pose proof (nodeSize_pos (w_fs w)).
    destruct (nodeSize (w_fs w)) as [|fuel]; [lia|]. cbn [removeFolderWalk].
    unfold mbind, M_bind, fsRead, fsTry, Fs.existsSync, Fs.readdirSync.
    rewrite Hlook, bool_decide_eq_true_2 by eauto. by rewrite Hlook.
  - destruct (removeFolderWalk_dir (nodeSize (w_fs w)) folderPath es w)
      as (t' & Hrm & ->); [done|done| |by apply lookup_size in Hlook|].
    { by apply (wfNode_lookup (w_fs w) folderPath). }
    split_and!; [done| | |].
    + simpl. by apply (lookup_rm_eq folderPath (w_fs w)).
    + intros q c Hq. simpl. by apply (rm_file_iff folderPath).
    + unfold removeFolderRecursive, mbind, M_bind, fsRead, fsDo, Fs.existsSync,
        Fs.rmSync.
      rewrite Hlook, bool_decide_eq_true_2 by eauto.
      rewrite ?Hlook, Hrm. done.
  - assert (Hrun : removeFolderWalk (nodeSize (w_fs w)) folderPath w = (w, Ok tt)).
    { destruct (nodeSize (w_fs w)) as [|fuel]; [done|]. cbn [removeFolderWalk].
      unfold mbind, M_bind, fsRead, Fs.existsSync.
      by rewrite Hlook, bool_decide_eq_false_2 by (by intros [? ?]). }
    rewrite Hrun. split_and!; [done|done|done|].
    unfold removeFolderRecursive, mbind, M_bind, fsRead, Fs.existsSync.
    by rewrite Hlook, bool_decide_eq_false_2 by (by intros [? ?]).
Qed.

Lemma removeFolderRecursive_removes_all_witness :
  let run := removeFolderRecursiveWalk ["dst"; "_temp_pack"] (worldOf scratchTree) in
  run.2 = Ok tt
  ∧ Fs.lookup (w_fs run.1) ["dst"; "_temp_pack"] = None
  ∧ Fs.lookup (w_fs run.1) ["dst"; "Kick"; "kick.wav"] = Some (File "K").
Proof.
  intros run.
  pose proof (removeFolderRecursive_removes_all ["dst"; "_temp_pack"]
                (worldOf scratchTree) eq_refl) as H.
  cbv zeta in H. fold run in H.
  destruct H as (H1 & H2 & H3 & _); [done|].
  split; [exact H1|]. split; [exact H2|].
  apply (H3 ["dst"; "Kick"; "kick.wav"] "K"); reflexivity.
Defined.

(** ** The pack label of an extracted file *)

Lemma temp_plain base : noSlash base → plainName ("_temp_" +:+ base).
Proof.
  intros Hbase. unfold plainName. split_and!; [done|done|done|].
  unfold noSlash in *. simpl. exact Hbase.
Qed.

(** Property X23: a file that comes out of an archive is labelled with the
    name of the archive.  The main loop expands the archive [base.zip]
    into the directory [_temp_base] of the destination; for every path at
    or below that directory [packLabelFromTemp] gives the sanitized [base]
    with one more trailing [.zip] or [.rar] taken off, and it gives no
    label to a path outside the destination. *)
Theorem packLabelFromTemp_names_archive destDir base rest file :
  Path.abs destDir ≠ [] → base ≠ "" → noSlash base →
  Js.sfilter isLineTerminator base = "" →
  packLabelFromTemp
    (Path.join (Path.abs destDir) ("_temp_" +:+ base) ++ rest) destDir
  = sanitizeFolderName (stripArchiveExt base)
  ∧ (Path.isPrefix (Path.abs destDir) file = false →
     packLabelFromTemp file destDir = "").
Proof.
  intros Hroot Hbase Hplain Hline. split.
  - rewrite join_plain by by apply temp_plain.
    unfold packLabelFromTemp. cbv zeta. rewrite <- app_assoc.
    rewrite startsWithDir_below by done. cbn [negb].
    rewrite drop_app_length. cbn [app head default]. unfold id.
    assert (Path.sdrop 6 ("_temp_" +:+ base) = base) as -> by reflexivity.
    assert (Js.startsWith ("_temp_" +:+ base) "_temp_" = true) as ->.
    { by destruct base. }
    rewrite Hline. unfold Js.truthy at 1.
    by rewrite bool_decide_eq_false_2.
  - intros Hout. unfold packLabelFromTemp. cbv zeta.
    by rewrite startsWithDir_outside.
Qed.

Lemma packLabelFromTemp_names_archive_witness :
  packLabelFromTemp ["dst"; "_temp_Drums.zip"; "Loops"; "a.wav"] "/dst" = "Drums"
  ∧ packLabelFromTemp ["src"; "a.wav"] "/dst" = "".
Proof.
  destruct (packLabelFromTemp_names_archive "/dst" "Drums.zip" ["Loops"; "a.wav"]
              ["src"; "a.wav"]) as [H1 H2]; [done|done|done|done|].
  split; [exact H1|]. apply H2. reflexivity.
Defined.
